(** * Recommendation service: signal aggregation and ranking

    A shallow embedding of
    [services/recommendation-service/app/services/recommendation_service.py],
    [app/services/kafka_consumer.py] and the tracking route of
    [app/api/recommendations.py].

    Conventions of the model.
    - Python [float] scores and Redis sorted-set scores are exact rationals
      ([Qc]); rounding is not modelled.
    - The Redis database is a record of typed key spaces, one field per key
      prefix the service uses.  Key expiry ([expire], the TTL of [setex]) is
      a real-time effect and leaves the logical store unchanged.
    - Every Redis call may fail: a world carries the store together with a
      fault plan, consumed one flag per call.  A world with an empty plan is
      a store that answers every call.
    - Cached JSON payloads and logged JSON entries are kept decoded.
    - Requests are served one at a time; the interleaving of coroutines at
      their [await] points is not modelled. *)

From Stdlib Require Import QArith Qcanon.
From stdpp Require Import gmap strings list fin_maps numbers sorting.

Open Scope string_scope.
Open Scope list_scope.
Open Scope Qc_scope.

(** ** Python and Redis primitives *)

Module Py.

(** [l[:n]]: a negative [n] counts from the end. *)
Definition prefix {A} (l : list A) (n : Z) : list A :=
  if (n <? 0)%Z then take (Z.to_nat (Z.of_nat (length l) + n)) l
  else take (Z.to_nat n) l.

(** Insertion of [x] in front of the first element it may precede. *)
Fixpoint insert_by {A} (before : A → A → bool) (x : A) (l : list A) : list A :=
  match l with
  | [] => [x]
  | y :: l' => if before x y then x :: l else y :: insert_by before x l'
  end.

Definition sort_by {A} (before : A → A → bool) (l : list A) : list A :=
  foldr (insert_by before) [] l.

(** [sorted(l, key=key, reverse=True)]: stable, so among equal keys the
    original order is kept. *)
Definition sorted_desc {A} (key : A → Qc) (l : list A) : list A :=
  sort_by (λ x y, bool_decide (key y ≤ key x)) l.

(** A [dict] with string keys: insertion-ordered, so an association list
    without repeated keys. *)
Fixpoint get {V} (d : list (string * V)) (k : string) : option V :=
  match d with
  | [] => None
  | (k', v) :: d' => if bool_decide (k' = k) then Some v else get d' k
  end.

(** [d[k] = v]: an existing key keeps its position. *)
Fixpoint set {V} (d : list (string * V)) (k : string) (v : V) : list (string * V) :=
  match d with
  | [] => [(k, v)]
  | (k', v') :: d' =>
      if bool_decide (k' = k) then (k, v) :: d' else (k', v') :: set d' k v
  end.

Definition contains {V} (d : list (string * V)) (k : string) : bool :=
  bool_decide (is_Some (get d k)).

Definition values {V} (d : list (string * V)) : list V := d.*2.
Definition keys {V} (d : list (string * V)) : list string := d.*1.

(** [d[k] += x] on a [defaultdict(float)]. *)
Definition add (d : list (string * Qc)) (k : string) (x : Qc) : list (string * Qc) :=
  set d k (default 0 (get d k) + x).

End Py.

Module Redis.

(** Index sanitising shared by LRANGE, LTRIM and Z(REV)RANGE: both ends
    are inclusive and a negative index counts from the end. *)
Definition range {A} (l : list A) (start stop : Z) : list A :=
  let llen := Z.of_nat (length l) in
  let start := if (start <? 0)%Z then (llen + start)%Z else start in
  let stop := if (stop <? 0)%Z then (llen + stop)%Z else stop in
  let start := if (start <? 0)%Z then 0%Z else start in
  if ((stop <? start) || (llen <=? start))%Z then []
  else
    let stop := if (llen <=? stop)%Z then (llen - 1)%Z else stop in
    take (Z.to_nat (stop - start + 1)) (drop (Z.to_nat start) l).

(** Rank order of ZREVRANGE: score descending, equal scores by member,
    bytewise descending. *)
Definition zrev_before (a b : string * Qc) : bool :=
  bool_decide (b.2 < a.2) || (bool_decide (a.2 = b.2) && String.ltb b.1 a.1).

Definition zrev_all (z : gmap string Qc) : list (string * Qc) :=
  Py.sort_by zrev_before (map_to_list z).

End Redis.

(** ** Data model *)

Inductive InteractionType := VIEW | ADD_TO_CART | PURCHASE | REVIEW | WISHLIST.

#[global] Instance InteractionType_eq_dec : EqDecision InteractionType.
Proof. solve_decision. Defined.

Definition InteractionType_value (t : InteractionType) : string :=
  match t with
  | VIEW => "view"
  | ADD_TO_CART => "add_to_cart"
  | PURCHASE => "purchase"
  | REVIEW => "review"
  | WISHLIST => "wishlist"
  end.

Module UserInteraction.
Record t := mk {
  user_id : string;
  product_id : string;
  interaction_type : InteractionType;
  score : Qc;
  timestamp : string;
  metadata : option (gmap string string)
}.
End UserInteraction.

(** The JSON object pushed on a user's interaction list. *)
Module InteractionData.
Record t := mk {
  product_id : string;
  type : string;
  score : Qc;
  timestamp : string
}.
#[global] Instance eq_dec : EqDecision t.
Proof. solve_decision. Defined.
End InteractionData.

Module UserProfile.
Record t := mk {
  user_id : string;
  preferred_categories : list string;
  preferred_brands : list string;
  price_range_min : Qc;
  price_range_max : Qc;
  interaction_count : Z;
  last_active : option string
}.
End UserProfile.

Module RecommendedProduct.
Record t := mk {
  product_id : string;
  score : Qc;
  reason : string;
  name : option string;
  image_url : option string;
  price : option Qc
}.
#[global] Instance eq_dec : EqDecision t.
Proof. solve_decision. Defined.

(** [RecommendedProduct(product_id=.., score=.., reason=..)] *)
Definition new (product_id : string) (score : Qc) (reason : string) : t :=
  mk product_id score reason None None None.

Definition set_reason (r : string) (x : t) : t :=
  mk (product_id x) (score x) r (name x) (image_url x) (price x).

Definition add_score (d : Qc) (x : t) : t :=
  mk (product_id x) (score x + d) (reason x) (name x) (image_url x) (price x).
End RecommendedProduct.

Module Settings.
Definition cache_ttl : Z := 3600.
Definition min_interactions_for_cf : nat := 5.
End Settings.

(** The hash [user_profile:{user_id}].  [hincrby] keeps
    [interaction_count] an integer; fields the service never reads are
    gathered in [other_fields]. *)
Module ProfileHash.
Record t := mk {
  interaction_count : option Z;
  last_active : option string;
  other_fields : gmap string string
}.
Definition empty : t := mk None None ∅.
Definition is_empty (h : t) : bool :=
  bool_decide (interaction_count h = None ∧ last_active h = None ∧ other_fields h = ∅).
End ProfileHash.

(** ** The store *)

Record Store := mkStore {
  (** [interactions:{user_id}], a list, most recent first *)
  interactions : gmap string (list InteractionData.t);
  (** [product:popularity], a sorted set *)
  popularity : gmap string Qc;
  (** [co_occurrence:{product_id}], sorted sets *)
  co_occurrence : gmap string (gmap string Qc);
  (** [category:{category_id}:popular], sorted sets *)
  category_popular : gmap string (gmap string Qc);
  (** [purchased:{user_id}], sets; the list of a set fixes the order in
      which a client iterates over the members it is handed *)
  purchased : gmap string (list string);
  (** [category:{category_id}:products], sets *)
  category_products : gmap string (list string);
  (** [user_profile:{user_id}], hashes *)
  user_profile : gmap string ProfileHash.t;
  (** [product:{product_id}], hashes *)
  product : gmap string (gmap string string);
  (** [recommendations:personalized:{user_id}] *)
  cache_personalized : gmap string (list RecommendedProduct.t);
  (** [recommendations:similar:{product_id}] *)
  cache_similar : gmap string (list RecommendedProduct.t);
  (** [recommendations:trending] *)
  cache_trending : option (list RecommendedProduct.t)
}.

Definition empty_store : Store := mkStore ∅ ∅ ∅ ∅ ∅ ∅ ∅ ∅ ∅ ∅ None.

Definition set_interactions v (s : Store) : Store :=
  mkStore v (popularity s) (co_occurrence s) (category_popular s) (purchased s)
    (category_products s) (user_profile s) (product s) (cache_personalized s)
    (cache_similar s) (cache_trending s).
Definition set_popularity v (s : Store) : Store :=
  mkStore (interactions s) v (co_occurrence s) (category_popular s) (purchased s)
    (category_products s) (user_profile s) (product s) (cache_personalized s)
    (cache_similar s) (cache_trending s).
Definition set_co_occurrence v (s : Store) : Store :=
  mkStore (interactions s) (popularity s) v (category_popular s) (purchased s)
    (category_products s) (user_profile s) (product s) (cache_personalized s)
    (cache_similar s) (cache_trending s).
Definition set_category_popular v (s : Store) : Store :=
  mkStore (interactions s) (popularity s) (co_occurrence s) v (purchased s)
    (category_products s) (user_profile s) (product s) (cache_personalized s)
    (cache_similar s) (cache_trending s).
Definition set_purchased v (s : Store) : Store :=
  mkStore (interactions s) (popularity s) (co_occurrence s) (category_popular s) v
    (category_products s) (user_profile s) (product s) (cache_personalized s)
    (cache_similar s) (cache_trending s).
Definition set_category_products v (s : Store) : Store :=
  mkStore (interactions s) (popularity s) (co_occurrence s) (category_popular s)
    (purchased s) v (user_profile s) (product s) (cache_personalized s)
    (cache_similar s) (cache_trending s).
Definition set_user_profile v (s : Store) : Store :=
  mkStore (interactions s) (popularity s) (co_occurrence s) (category_popular s)
    (purchased s) (category_products s) v (product s) (cache_personalized s)
    (cache_similar s) (cache_trending s).
Definition set_product v (s : Store) : Store :=
  mkStore (interactions s) (popularity s) (co_occurrence s) (category_popular s)
    (purchased s) (category_products s) (user_profile s) v (cache_personalized s)
    (cache_similar s) (cache_trending s).
Definition set_cache_personalized v (s : Store) : Store :=
  mkStore (interactions s) (popularity s) (co_occurrence s) (category_popular s)
    (purchased s) (category_products s) (user_profile s) (product s) v
    (cache_similar s) (cache_trending s).
Definition set_cache_similar v (s : Store) : Store :=
  mkStore (interactions s) (popularity s) (co_occurrence s) (category_popular s)
    (purchased s) (category_products s) (user_profile s) (product s)
    (cache_personalized s) v (cache_trending s).
Definition set_cache_trending v (s : Store) : Store :=
  mkStore (interactions s) (popularity s) (co_occurrence s) (category_popular s)
    (purchased s) (category_products s) (user_profile s) (product s)
    (cache_personalized s) (cache_similar s) v.

(** Keys, by Redis type. *)
Inductive ListKey := interactions_key (user_id : string).
Inductive ZsetKey :=
  | popularity_key
  | co_occurrence_key (product_id : string)
  | category_popular_key (category_id : string).
Inductive SetKey :=
  | purchased_key (user_id : string)
  | category_products_key (category_id : string).
Inductive CacheKey :=
  | personalized_cache_key (user_id : string)
  | similar_cache_key (product_id : string)
  | trending_cache_key.

Definition zset_at (k : ZsetKey) (s : Store) : gmap string Qc :=
  match k with
  | popularity_key => popularity s
  | co_occurrence_key p => default ∅ (co_occurrence s !! p)
  | category_popular_key c => default ∅ (category_popular s !! c)
  end.

Definition zset_put (k : ZsetKey) (z : gmap string Qc) (s : Store) : Store :=
  match k with
  | popularity_key => set_popularity z s
  | co_occurrence_key p => set_co_occurrence (<[p := z]> (co_occurrence s)) s
  | category_popular_key c => set_category_popular (<[c := z]> (category_popular s)) s
  end.

Definition set_at (k : SetKey) (s : Store) : list string :=
  match k with
  | purchased_key u => default [] (purchased s !! u)
  | category_products_key c => default [] (category_products s !! c)
  end.

Definition set_put (k : SetKey) (v : list string) (s : Store) : Store :=
  match k with
  | purchased_key u => set_purchased (<[u := v]> (purchased s)) s
  | category_products_key c => set_category_products (<[c := v]> (category_products s)) s
  end.

Definition cache_at (k : CacheKey) (s : Store) : option (list RecommendedProduct.t) :=
  match k with
  | personalized_cache_key u => cache_personalized s !! u
  | similar_cache_key p => cache_similar s !! p
  | trending_cache_key => cache_trending s
  end.

Definition cache_put (k : CacheKey) (v : list RecommendedProduct.t) (s : Store) : Store :=
  match k with
  | personalized_cache_key u => set_cache_personalized (<[u := v]> (cache_personalized s)) s
  | similar_cache_key p => set_cache_similar (<[p := v]> (cache_similar s)) s
  | trending_cache_key => set_cache_trending (Some v) s
  end.

(** ** Worlds and the service monad *)

Inductive Exn :=
  | RedisError
  | ValidationError
  | HTTPException (status_code : Z) (detail : string).

#[global] Instance Exn_eq_dec : EqDecision Exn.
Proof. solve_decision. Defined.

Record World := mkWorld {
  store : Store;
  (** one flag per Redis call still to come: [true] makes the call raise *)
  faults : list bool;
  (** what [datetime.utcnow().isoformat()] returns *)
  clock : string;
  (** the default of [UserInteraction.timestamp], fixed when the module
      is imported *)
  import_time : string
}.

Definition M (A : Type) : Type := World → (Exn + A) * World.

Definition ret {A} (a : A) : M A := λ w, (inr a, w).

Definition bind {A B} (m : M A) (k : A → M B) : M B :=
  λ w, match m w with
       | (inl e, w') => (inl e, w')
       | (inr a, w') => k a w'
       end.

Definition raise {A} (e : Exn) : M A := λ w, (inl e, w).

(** [try: body  except Exception as e: handler e] *)
Definition try_except {A} (body : M A) (handler : Exn → M A) : M A :=
  λ w, match body w with
       | (inl e, w') => handler e w'
       | (inr a, w') => (inr a, w')
       end.

Declare Scope svc_scope.
Delimit Scope svc_scope with svc.
Notation "x <- m ;; k" := (bind m (λ x, k))
  (at level 100, m at next level, right associativity) : svc_scope.
Notation "m ;;; k" := (bind m (λ _, k))
  (at level 100, right associativity) : svc_scope.
Open Scope svc_scope.

(** [for x in l: body x] *)
Fixpoint for_each {A} (l : list A) (body : A → M unit) : M unit :=
  match l with
  | [] => ret tt
  | x :: l' => body x ;;; for_each l' body
  end.

(** A [for] loop that updates a local variable. *)
Fixpoint for_fold {A B} (l : list A) (acc : B) (body : B → A → M B) : M B :=
  match l with
  | [] => ret acc
  | x :: l' => acc' <- body acc x ;; for_fold l' acc' body
  end.

Definition utcnow_isoformat : M string := λ w, (inr (clock w), w).
Definition default_timestamp : M string := λ w, (inr (import_time w), w).

(** One round trip to Redis. *)
Definition redis_call {A} (f : Store → A * Store) : M A :=
  λ w, match faults w with
       | true :: fs => (inl RedisError, mkWorld (store w) fs (clock w) (import_time w))
       | false :: fs => let '(a, s) := f (store w) in (inr a, mkWorld s fs (clock w) (import_time w))
       | [] => let '(a, s) := f (store w) in (inr a, mkWorld s [] (clock w) (import_time w))
       end.

Module redis.

Definition lpush (k : ListKey) (v : InteractionData.t) : M Z :=
  redis_call (λ s,
    let 'interactions_key u := k in
    let l := v :: default [] (interactions s !! u) in
    (Z.of_nat (length l), set_interactions (<[u := l]> (interactions s)) s)).

Definition ltrim (k : ListKey) (start stop : Z) : M bool :=
  redis_call (λ s,
    let 'interactions_key u := k in
    let l := Redis.range (default [] (interactions s !! u)) start stop in
    (true, set_interactions (<[u := l]> (interactions s)) s)).

Definition lrange (k : ListKey) (start stop : Z) : M (list InteractionData.t) :=
  redis_call (λ s,
    let 'interactions_key u := k in
    (Redis.range (default [] (interactions s !! u)) start stop, s)).

Definition expire {K} (k : K) (seconds : Z) : M bool :=
  redis_call (λ s, (true, s)).

Definition zincrby (k : ZsetKey) (amount : Qc) (member : string) : M Qc :=
  redis_call (λ s,
    let z := zset_at k s in
    let v := default 0 (z !! member) + amount in
    (v, zset_put k (<[member := v]> z) s)).

Definition zrevrange (k : ZsetKey) (start stop : Z) : M (list (string * Qc)) :=
  redis_call (λ s, (Redis.range (Redis.zrev_all (zset_at k s)) start stop, s)).

Definition smembers (k : SetKey) : M (list string) :=
  redis_call (λ s, (set_at k s, s)).

Definition sadd (k : SetKey) (member : string) : M Z :=
  redis_call (λ s,
    let old := set_at k s in
    if bool_decide (member ∈ old) then (0%Z, s)
    else (1%Z, set_put k (old ++ [member]) s)).

Definition get (k : CacheKey) : M (option (list RecommendedProduct.t)) :=
  redis_call (λ s, (cache_at k s, s)).

Definition setex (k : CacheKey) (seconds : Z) (v : list RecommendedProduct.t) : M bool :=
  redis_call (λ s, (true, cache_put k v s)).

Definition hgetall_profile (user_id : string) : M ProfileHash.t :=
  redis_call (λ s, (default ProfileHash.empty (user_profile s !! user_id), s)).

Definition hincrby_interaction_count (user_id : string) (amount : Z) : M Z :=
  redis_call (λ s,
    let h := default ProfileHash.empty (user_profile s !! user_id) in
    let v := (default 0 (ProfileHash.interaction_count h) + amount)%Z in
    (v, set_user_profile
          (<[user_id := ProfileHash.mk (Some v) (ProfileHash.last_active h)
                          (ProfileHash.other_fields h)]> (user_profile s)) s)).

Definition hset_last_active (user_id : string) (v : string) : M Z :=
  redis_call (λ s,
    let h := default ProfileHash.empty (user_profile s !! user_id) in
    ((if bool_decide (ProfileHash.last_active h = None) then 1 else 0)%Z,
     set_user_profile
       (<[user_id := ProfileHash.mk (ProfileHash.interaction_count h) (Some v)
                       (ProfileHash.other_fields h)]> (user_profile s)) s)).

Definition hgetall_product (product_id : string) : M (gmap string string) :=
  redis_call (λ s, (default ∅ (product s !! product_id), s)).

Definition hset_product (product_id : string) (mapping : list (string * string)) : M Z :=
  redis_call (λ s,
    let h := default ∅ (product s !! product_id) in
    let h' := foldl (λ h kv, <[kv.1 := kv.2]> h) h mapping in
    (Z.of_nat (length (filter (λ kv, h !! kv.1 = None) mapping)),
     set_product (<[product_id := h']> (product s)) s)).

End redis.

(** ** The recommendation service *)

Definition interaction_weights (t : InteractionType) : option Qc :=
  match t with
  | VIEW => Some 1
  | ADD_TO_CART => Some (Qc_of_Z 3)
  | WISHLIST => Some (Qc_of_Z 2)
  | PURCHASE => Some (Qc_of_Z 5)
  | REVIEW => Some (Qc_of_Z 4)
  end.

Definition _get_user_interactions (user_id : string) : M (list InteractionData.t) :=
  let interaction_key := interactions_key user_id in
  interactions <- redis.lrange interaction_key 0 99 ;;
  ret interactions.

Definition _get_purchased_products (user_id : string) : M (gset string) :=
  let purchased_key := purchased_key user_id in
  products <- redis.smembers purchased_key ;;
  ret (list_to_set products).

Definition _update_co_occurrence (user_id product_id : string) : M unit :=
  interactions <- _get_user_interactions user_id ;;
  let recent_products :=
    InteractionData.product_id <$>
      filter (λ i, InteractionData.product_id i ≠ product_id) (Py.prefix interactions 20) in
  for_each recent_products (λ other_product,
    let co_key1 := co_occurrence_key product_id in
    let co_key2 := co_occurrence_key other_product in
    redis.zincrby co_key1 1 other_product ;;;
    redis.zincrby co_key2 1 product_id ;;;
    redis.expire co_key1 (86400 * 7) ;;;
    redis.expire co_key2 (86400 * 7) ;;;
    ret tt).

Definition _update_user_profile (interaction : UserInteraction.t) : M unit :=
  let profile_key := UserInteraction.user_id interaction in
  redis.hincrby_interaction_count profile_key 1 ;;;
  now <- utcnow_isoformat ;;
  redis.hset_last_active profile_key now ;;;
  (if bool_decide (UserInteraction.interaction_type interaction = PURCHASE) then
     let purchased_key := purchased_key (UserInteraction.user_id interaction) in
     redis.sadd purchased_key (UserInteraction.product_id interaction) ;;;
     redis.expire purchased_key (86400 * 90) ;;;
     ret tt
   else ret tt) ;;;
  redis.expire profile_key (86400 * 30) ;;;
  ret tt.

(** The statements of [track_interaction] inside its [try]. *)
Definition track_interaction_body (interaction : UserInteraction.t) : M bool :=
  let interaction_key := interactions_key (UserInteraction.user_id interaction) in
  let interaction_data :=
    InteractionData.mk
      (UserInteraction.product_id interaction)
      (InteractionType_value (UserInteraction.interaction_type interaction))
      (default 1 (interaction_weights (UserInteraction.interaction_type interaction)))
      (UserInteraction.timestamp interaction) in
  redis.lpush interaction_key interaction_data ;;;
  redis.ltrim interaction_key 0 999 ;;;
  redis.expire interaction_key (86400 * 30) ;;;
  let popularity_key := popularity_key in
  redis.zincrby popularity_key (InteractionData.score interaction_data)
    (UserInteraction.product_id interaction) ;;;
  _update_co_occurrence (UserInteraction.user_id interaction)
    (UserInteraction.product_id interaction) ;;;
  _update_user_profile interaction ;;;
  ret true.

Definition track_interaction (interaction : UserInteraction.t) : M bool :=
  try_except (track_interaction_body interaction) (λ e, ret false).

Definition get_trending_products (limit : Z) : M (list RecommendedProduct.t) :=
  try_except
    (let cache_key := trending_cache_key in
     cached <- redis.get cache_key ;;
     match cached with
     | Some recommendations => ret (Py.prefix recommendations limit)
     | None =>
         let popularity_key := popularity_key in
         trending <- redis.zrevrange popularity_key 0 (limit - 1) ;;
         let recommendations :=
           (λ '(product_id, score), RecommendedProduct.new product_id score "Trending now")
             <$> trending in
         redis.setex cache_key 300 recommendations ;;;
         ret recommendations
     end)
    (λ e, ret []).

Definition get_similar_products (product_id : string) (limit : Z)
  : M (list RecommendedProduct.t) :=
  try_except
    (let cache_key := similar_cache_key product_id in
     cached <- redis.get cache_key ;;
     match cached with
     | Some recommendations => ret (Py.prefix recommendations limit)
     | None =>
         let recommendations : list (string * RecommendedProduct.t) := [] in
         let co_purchase_key := co_occurrence_key product_id in
         co_purchases <- redis.zrevrange co_purchase_key 0 (limit - 1) ;;
         let recommendations :=
           foldl (λ recommendations '(similar_id, score),
                    Py.set recommendations similar_id
                      (RecommendedProduct.new similar_id score "Frequently bought together"))
                 recommendations co_purchases in
         product_data <- redis.hgetall_product product_id ;;
         recommendations <-
           (if bool_decide (product_data ≠ ∅) then
              let category_id := default "" (product_data !! "category_id") in
              if bool_decide (category_id ≠ "") then
                category_products <- redis.smembers (category_products_key category_id) ;;
                ret (foldl (λ recommendations pid,
                              if bool_decide (pid ≠ product_id)
                                 && negb (Py.contains recommendations pid)
                              then Py.set recommendations pid
                                     (RecommendedProduct.new pid (Q2Qc (1 # 2)) "Same category")
                              else recommendations)
                           recommendations (Py.prefix category_products limit))
              else ret recommendations
            else ret recommendations) ;;
         let sorted_recs :=
           Py.prefix (Py.sorted_desc RecommendedProduct.score (Py.values recommendations))
             limit in
         redis.setex cache_key Settings.cache_ttl sorted_recs ;;;
         ret sorted_recs
     end)
    (λ e, ret []).

Definition get_recently_viewed (user_id : string) (limit : Z)
  : M (list RecommendedProduct.t) :=
  try_except
    (interactions <- _get_user_interactions user_id ;;
     let viewed :=
       filter (λ i, InteractionData.type i = InteractionType_value VIEW) interactions in
     let loop :=
       fix loop (viewed : list InteractionData.t) (seen : gset string)
                (recommendations : list RecommendedProduct.t) :=
         match viewed with
         | [] => recommendations
         | interaction :: rest =>
             let product_id := InteractionData.product_id interaction in
             let '(seen, recommendations) :=
               if bool_decide (product_id ∉ seen)
               then ({[product_id]} ∪ seen,
                     recommendations ++ [RecommendedProduct.new product_id 1 "Recently viewed"])
               else (seen, recommendations) in
             if bool_decide (limit ≤ Z.of_nat (length recommendations))%Z
             then recommendations
             else loop rest seen recommendations
         end in
     ret (loop viewed ∅ []))
    (λ e, ret []).

Definition get_frequently_bought_together (product_ids : list string) (limit : Z)
  : M (list RecommendedProduct.t) :=
  try_except
    (let recommendations : list (string * Qc) := [] in
     let exclude : gset string := list_to_set product_ids in
     recommendations <-
       for_fold product_ids recommendations (λ recommendations product_id,
         let co_purchase_key := co_occurrence_key product_id in
         co_purchases <- redis.zrevrange co_purchase_key 0 (limit * 2) ;;
         ret (foldl (λ recommendations '(similar_id, score),
                       if bool_decide (similar_id ∉ exclude)
                       then Py.add recommendations similar_id score
                       else recommendations)
                    recommendations co_purchases)) ;;
     let sorted_recs := Py.prefix (Py.sorted_desc snd recommendations) limit in
     ret ((λ '(pid, score),
             RecommendedProduct.new pid score "Frequently bought together")
            <$> sorted_recs))
    (λ e, ret []).

Definition _get_user_profile (user_id : string) : M (option UserProfile.t) :=
  let profile_key := user_id in
  profile_data <- redis.hgetall_profile profile_key ;;
  if ProfileHash.is_empty profile_data then ret None
  else
    ret (Some (UserProfile.mk user_id [] [] 0 (Qc_of_Z 10000)
                 (default 0%Z (ProfileHash.interaction_count profile_data))
                 (match ProfileHash.last_active profile_data with
                  | Some "" => None
                  | last_active => last_active
                  end))).

Definition _collaborative_filtering (user_id : string) (limit : Z)
  : M (list RecommendedProduct.t) :=
  try_except
    (interactions <- _get_user_interactions user_id ;;
     if bool_decide (length interactions < Settings.min_interactions_for_cf)%nat
     then ret []
     else
       let user_products : list (string * Qc) :=
         foldl (λ d i, Py.set d (InteractionData.product_id i) (InteractionData.score i))
               [] interactions in
       let recommendations : list (string * Qc) := [] in
       recommendations <-
         for_fold (Py.prefix user_products 10) recommendations
           (λ recommendations '(product_id, weight),
              let co_key := co_occurrence_key product_id in
              co_products <- redis.zrevrange co_key 0 20 ;;
              ret (foldl (λ recommendations '(co_product, score),
                            if negb (Py.contains user_products co_product)
                            then Py.add recommendations co_product (score * weight)
                            else recommendations)
                         recommendations co_products)) ;;
       let sorted_recs := Py.prefix (Py.sorted_desc snd recommendations) limit in
       ret ((λ '(pid, score),
               RecommendedProduct.new pid score "Customers like you also bought")
              <$> sorted_recs))
    (λ e, ret []).

Definition _get_category_recommendations (categories : list string) (limit : Z)
  : M (list RecommendedProduct.t) :=
  try_except
    (let recommendations : list RecommendedProduct.t := [] in
     recommendations <-
       for_fold categories recommendations (λ recommendations category_id,
         let category_key := category_popular_key category_id in
         products <- redis.zrevrange category_key 0 (limit - 1) ;;
         ret (recommendations ++
                ((λ '(product_id, score),
                    RecommendedProduct.new product_id score "Popular in category")
                   <$> products))) ;;
     ret (Py.prefix recommendations limit))
    (λ e, ret []).

(** The three merge loops of [get_personalized_recommendations]: each
    folds one signal's items into the [recommendations] dict. *)
Definition merge_content (excluded_products : gset string)
    (recommendations : list (string * RecommendedProduct.t))
    (rec : RecommendedProduct.t) : list (string * RecommendedProduct.t) :=
  let pid := RecommendedProduct.product_id rec in
  if bool_decide (pid ∉ excluded_products) then
    match Py.get recommendations pid with
    | Some r =>
        Py.set recommendations pid
          (RecommendedProduct.add_score (RecommendedProduct.score rec * Q2Qc (1 # 2)) r)
    | None =>
        Py.set recommendations pid
          (RecommendedProduct.set_reason "Similar to items you viewed" rec)
    end
  else recommendations.

Definition merge_collaborative (excluded_products : gset string)
    (recommendations : list (string * RecommendedProduct.t))
    (rec : RecommendedProduct.t) : list (string * RecommendedProduct.t) :=
  let pid := RecommendedProduct.product_id rec in
  if bool_decide (pid ∉ excluded_products) then
    match Py.get recommendations pid with
    | Some r =>
        Py.set recommendations pid
          (RecommendedProduct.add_score (RecommendedProduct.score rec) r)
    | None => Py.set recommendations pid rec
    end
  else recommendations.

Definition merge_category (excluded_products : gset string)
    (recommendations : list (string * RecommendedProduct.t))
    (rec : RecommendedProduct.t) : list (string * RecommendedProduct.t) :=
  let pid := RecommendedProduct.product_id rec in
  if bool_decide (pid ∉ excluded_products) then
    match Py.get recommendations pid with
    | Some r =>
        Py.set recommendations pid
          (RecommendedProduct.add_score (RecommendedProduct.score rec * Q2Qc (3 # 10)) r)
    | None =>
        Py.set recommendations pid
          (RecommendedProduct.set_reason "Popular in your favorite categories" rec)
    end
  else recommendations.

(** The statements of [get_personalized_recommendations] inside its [try]. *)
Definition get_personalized_recommendations_body
    (user_id : string) (limit : Z) (exclude_purchased : bool)
  : M (list RecommendedProduct.t) :=
  let cache_key := personalized_cache_key user_id in
  cached <- redis.get cache_key ;;
  match cached with
  | Some recommendations => ret (Py.prefix recommendations limit)
  | None =>
      interactions <- _get_user_interactions user_id ;;
      if bool_decide (interactions = []) then get_trending_products limit
      else
        excluded_products <-
          (if exclude_purchased then _get_purchased_products user_id else ret ∅) ;;
        let recommendations : list (string * RecommendedProduct.t) := [] in
        let recent_products :=
          InteractionData.product_id <$> Py.prefix interactions 10 in
        recommendations <-
          for_fold recent_products recommendations (λ recommendations product_id,
            similar <- get_similar_products product_id 5 ;;
            ret (foldl (merge_content excluded_products) recommendations similar)) ;;
        cf_recommendations <- _collaborative_filtering user_id 10 ;;
        let recommendations :=
          foldl (merge_collaborative excluded_products) recommendations
            cf_recommendations in
        user_profile <- _get_user_profile user_id ;;
        recommendations <-
          match user_profile with
          | Some user_profile =>
              if bool_decide (UserProfile.preferred_categories user_profile ≠ []) then
                category_recs <-
                  _get_category_recommendations
                    (Py.prefix (UserProfile.preferred_categories user_profile) 3) 5 ;;
                ret (foldl (merge_category excluded_products) recommendations
                       category_recs)
              else ret recommendations
          | None => ret recommendations
          end ;;
        let sorted_recs :=
          Py.prefix (Py.sorted_desc RecommendedProduct.score (Py.values recommendations))
            limit in
        redis.setex cache_key Settings.cache_ttl sorted_recs ;;;
        ret sorted_recs
  end.

Definition get_personalized_recommendations
    (user_id : string) (limit : Z) (exclude_purchased : bool)
  : M (list RecommendedProduct.t) :=
  try_except (get_personalized_recommendations_body user_id limit exclude_purchased)
    (λ e, get_trending_products limit).

(** ** The tracking route *)

Module TrackInteractionRequest.
Record t := mk {
  user_id : string;
  product_id : string;
  interaction_type : InteractionType;
  metadata : option (gmap string string)
}.
End TrackInteractionRequest.

Module api.
(** [POST /track], status 201 when it returns. *)
Definition track_interaction (request : TrackInteractionRequest.t) : M (list (string * string)) :=
  timestamp <- default_timestamp ;;
  let interaction :=
    UserInteraction.mk
      (TrackInteractionRequest.user_id request)
      (TrackInteractionRequest.product_id request)
      (TrackInteractionRequest.interaction_type request)
      1 timestamp
      (TrackInteractionRequest.metadata request) in
  success <- track_interaction interaction ;;
  if negb success then raise (HTTPException 500 "Failed to track interaction")
  else ret [("message", "Interaction tracked successfully")].
End api.

(** ** The Kafka consumer *)

Module Event.
(** An entry of ["items"] in an order event. *)
Record item := mk_item {
  item_productId : option string;
  item_product_id : option string
}.
(** The ["data"] object of a product event; [price] is already [str(..)]. *)
Record data := mk_data {
  id : option string;
  categoryId : option string;
  brandId : option string;
  price : option string;
  name : option string
}.
Record t := mk {
  eventType : option string;
  userId : option string;
  productId : option string;
  items : option (list item);
  data_ : option data
}.
Definition no_data : data := mk_data None None None None None.
End Event.

(** Python truthiness of an optional string. *)
Definition truthy (x : option string) : bool :=
  match x with
  | Some s => bool_decide (s ≠ "")
  | None => false
  end.

(** [UserInteraction(user_id=.., product_id=.., ..)]: pydantic rejects
    a missing string. *)
Definition new_UserInteraction (user_id product_id : option string)
    (interaction_type : InteractionType) (timestamp : string) : M UserInteraction.t :=
  match user_id, product_id with
  | Some u, Some p => ret (UserInteraction.mk u p interaction_type 1 timestamp None)
  | _, _ => raise ValidationError
  end.

Module KafkaEventConsumer.

Definition _handle_order_event (event : Event.t) : M unit :=
  let event_type := Event.eventType event in
  if bool_decide (event_type = Some "OrderCreated") then
    let user_id := Event.userId event in
    let items := default [] (Event.items event) in
    for_each items (λ item,
      let product_id :=
        if truthy (Event.item_productId item) then Event.item_productId item
        else Event.item_product_id item in
      if truthy product_id then
        now <- utcnow_isoformat ;;
        interaction <- new_UserInteraction user_id product_id PURCHASE now ;;
        track_interaction interaction ;;;
        ret tt
      else ret tt)
  else ret tt.

Definition _handle_product_event (event : Event.t) : M unit :=
  let event_type := Event.eventType event in
  let data := default Event.no_data (Event.data_ event) in
  if bool_decide (event_type = Some "ProductCreated")
     || bool_decide (event_type = Some "ProductUpdated") then
    let product_id := Event.id data in
    if truthy product_id then
      let product_id := default "" product_id in
      redis.hset_product product_id
        [("category_id", default "" (Event.categoryId data));
         ("brand_id", default "" (Event.brandId data));
         ("price", default "0" (Event.price data));
         ("name", default "" (Event.name data))] ;;;
      redis.expire product_id (86400 * 7) ;;;
      let category_id := Event.categoryId data in
      if truthy category_id then
        let category_key := category_products_key (default "" category_id) in
        redis.sadd category_key product_id ;;;
        redis.expire category_key (86400 * 7) ;;;
        ret tt
      else ret tt
    else ret tt
  else ret tt.

Definition _handle_user_event (event : Event.t) : M unit :=
  let event_type := Event.eventType event in
  let track (interaction_type : InteractionType) : M unit :=
    let user_id := Event.userId event in
    let product_id := Event.productId event in
    if truthy user_id && truthy product_id then
      now <- utcnow_isoformat ;;
      interaction <- new_UserInteraction user_id product_id interaction_type now ;;
      track_interaction interaction ;;;
      ret tt
    else ret tt in
  if bool_decide (event_type = Some "ProductViewed") then track VIEW
  else if bool_decide (event_type = Some "ProductAddedToCart") then track ADD_TO_CART
  else if bool_decide (event_type = Some "ProductAddedToWishlist") then track WISHLIST
  else ret tt.

Definition _handle_message (topic : string) (event : Event.t) : M unit :=
  try_except
    (if bool_decide (topic = "order-events") then _handle_order_event event
     else if bool_decide (topic = "product-events") then _handle_product_event event
     else if bool_decide (topic = "user-events") then _handle_user_event event
     else ret tt)
    (λ e, ret tt).

End KafkaEventConsumer.

(** ** Runs of the system *)

(** What reaches the service: a call of one of its public methods or a
    message from the bus. *)
Inductive Request :=
  | Track (interaction : UserInteraction.t)
  | Personalized (user_id : string) (limit : Z) (exclude_purchased : bool)
  | Similar (product_id : string) (limit : Z)
  | Trending (limit : Z)
  | RecentlyViewed (user_id : string) (limit : Z)
  | FrequentlyBoughtTogether (product_ids : list string) (limit : Z)
  | Message (topic : string) (event : Event.t).

Definition serve (r : Request) : M unit :=
  match r with
  | Track i => track_interaction i ;;; ret tt
  | Personalized u limit ex => get_personalized_recommendations u limit ex ;;; ret tt
  | Similar p limit => get_similar_products p limit ;;; ret tt
  | Trending limit => get_trending_products limit ;;; ret tt
  | RecentlyViewed u limit => get_recently_viewed u limit ;;; ret tt
  | FrequentlyBoughtTogether ps limit => get_frequently_bought_together ps limit ;;; ret tt
  | Message topic event => KafkaEventConsumer._handle_message topic event
  end.

(** Stores the system can be in, starting empty, whatever calls fail. *)
Inductive reachable : Store → Prop :=
  | reachable_empty : reachable empty_store
  | reachable_serve r w : reachable (store w) → reachable (store (serve r w).2).

(** A world whose store answers every call. *)
Definition available (s : Store) (now started : string) : World := mkWorld s [] now started.

(** ** The query routes *)

Module RecommendationResponse.
Record t := mk {
  user_id : option string;
  recommendations : list RecommendedProduct.t;
  strategy : string;
  total : Z
}.
End RecommendationResponse.

(** [Query(default, ge=.., le=..)]: an absent parameter takes the default;
    a value out of bounds is rejected before the body of the route runs
    (status 422). *)
Definition Query (default_value ge le : Z) (given : option Z) : M Z :=
  let value := default default_value given in
  if bool_decide (ge ≤ value ∧ value ≤ le)%Z then ret value else raise ValidationError.

Module router.

(** [GET /personalized/{user_id}] *)
Definition get_personalized_recommendations (user_id : string) (limit : option Z)
    (exclude_purchased : option bool) : M RecommendationResponse.t :=
  limit <- Query 10 1 50 limit ;;
  let exclude_purchased := default true exclude_purchased in
  recommendations <- get_personalized_recommendations user_id limit exclude_purchased ;;
  ret (RecommendationResponse.mk (Some user_id) recommendations "personalized"
         (Z.of_nat (length recommendations))).

(** [GET /similar/{product_id}] *)
Definition get_similar_products (product_id : string) (limit : option Z)
  : M RecommendationResponse.t :=
  limit <- Query 10 1 50 limit ;;
  recommendations <- get_similar_products product_id limit ;;
  ret (RecommendationResponse.mk None recommendations "similar"
         (Z.of_nat (length recommendations))).

(** [GET /trending] *)
Definition get_trending_products (limit : option Z) : M RecommendationResponse.t :=
  limit <- Query 10 1 50 limit ;;
  recommendations <- get_trending_products limit ;;
  ret (RecommendationResponse.mk None recommendations "trending"
         (Z.of_nat (length recommendations))).

(** [GET /recently-viewed/{user_id}] *)
Definition get_recently_viewed (user_id : string) (limit : option Z)
  : M RecommendationResponse.t :=
  limit <- Query 10 1 50 limit ;;
  recommendations <- get_recently_viewed user_id limit ;;
  ret (RecommendationResponse.mk (Some user_id) recommendations "recently_viewed"
         (Z.of_nat (length recommendations))).

(** [POST /frequently-bought-together] *)
Definition get_frequently_bought_together (product_ids : list string) (limit : option Z)
  : M RecommendationResponse.t :=
  limit <- Query 5 1 20 limit ;;
  recommendations <- get_frequently_bought_together product_ids limit ;;
  ret (RecommendationResponse.mk None recommendations "frequently_bought_together"
         (Z.of_nat (length recommendations))).

End router.

(** ** The consumer loop *)

(** [KafkaEventConsumer.consume] over the messages the bus delivers. *)
Definition consume (messages : list (string * Event.t)) : M unit :=
  try_except
    (for_each messages (λ message,
       KafkaEventConsumer._handle_message message.1 message.2))
    (λ e, ret tt).

(** * Vocabulary of the statements *)
(** ** A weakest precondition over every fault plan

    [wp m Q E s]: run from store [s], whatever calls fail, [m] either
    returns [a] in a store satisfying [Q a] or raises in a store
    satisfying [E]. *)
Definition wp {A} (m : M A) (Q : A → Store → Prop) (E : Store → Prop) (s : Store) : Prop :=
  ∀ fs now started,
    match m (mkWorld s fs now started) with
    | (inr a, w') => Q a (store w')
    | (inl _, w') => E (store w')
    end.

(** [m] keeps [I], also when it raises half way. *)
Definition preserves {A} (I : Store → Prop) (m : M A) : Prop :=
  ∀ s, I s → wp m (λ _, I) I s.

(** On a store that answers every call, [m] returns. *)
Definition succeeds {A} (m : M A) : Prop :=
  ∀ s now st, ∃ a s', m (available s now st) = (inr a, available s' now st).

(** ** Interaction logs *)

(** The log of [u], as stored. *)
Definition interaction_log (s : Store) (u : string) : list InteractionData.t :=
  default [] (interactions s !! u).

(** The part of the log the service reads. *)
Definition read_log (s : Store) (u : string) : list InteractionData.t :=
  Redis.range (interaction_log s u) 0 99.


(** ** Popularity *)

Definition popularity_rank (s : Store) (p : string) : Qc := default 0 (popularity s !! p).
Definition weight_of (t : InteractionType) : Qc := default 1 (interaction_weights t).

(** Runs of successful [track_interaction] calls, each on a world of its
    own (fault plan and clock) around the store the previous one left. *)
Inductive recorded : Store → list UserInteraction.t → Store → Prop :=
  | recorded_nil s : recorded s [] s
  | recorded_cons i calls w w' s'' :
      track_interaction i w = (inr true, w') →
      recorded (store w') calls s'' →
      recorded (store w) (i :: calls) s''.

Definition bump (i : UserInteraction.t) (s : Store) : gmap string Qc :=
  let p := UserInteraction.product_id i in
  <[p := popularity_rank s p + weight_of (UserInteraction.interaction_type i)]>
    (popularity s).

Definition interactions_with (p : string) (calls : list UserInteraction.t) : nat :=
  length (filter (λ i, UserInteraction.product_id i = p) calls).


(** ** Co-occurrence *)

(** The strength of the edge from [a] to [b], if [b] is in [a]'s set. *)
Definition strength (s : Store) (a b : string) : option Qc :=
  zset_at (co_occurrence_key a) s !! b.

Definition symmetric (s : Store) : Prop := ∀ a b, strength s a b = strength s b a.

(** [GetCoOccurrents(a)]: the whole adjacency set of [a], ranked. *)
Definition co_occurrents (s : Store) (a : string) : list (string * Qc) :=
  Redis.zrev_all (zset_at (co_occurrence_key a) s).

(** A strength after [n] increments by 1; an edge that was never touched
    stays absent. *)
Definition incremented (o : option Qc) (n : nat) : option Qc :=
  match n with
  | O => o
  | S _ => Some (default 0 o + Qc_of_Z (Z.of_nat n))
  end.

(** How often [x] occurs in [l]. *)
Definition occurrences_of (x : string) (l : list string) : nat :=
  length (filter (λ y, y = x) l).

(** The number of increments of the edge from [a] to [b] when [p] is
    paired with each of [others] in turn. *)
Definition pairings (p : string) (others : list string) (a b : string) : nat :=
  if bool_decide (a = p) then occurrences_of b others
  else if bool_decide (b = p) then occurrences_of a others
  else 0%nat.

(** The other products among the 20 most recent entries of [u]'s log. *)
Definition recent_others (s : Store) (u p : string) : list string :=
  InteractionData.product_id
    <$> filter (λ i, InteractionData.product_id i ≠ p) (Py.prefix (read_log s u) 20).

(** The number of times [_update_co_occurrence u p] increments the edge
    from [a] to [b]. *)
Definition edge_updates (s : Store) (u p a b : string) : nat :=
  pairings p (recent_others s u p) a b.


(** ** Concrete runs *)

(** The store after serving [rs] in turn, every call answered. *)
Definition replay (rs : list Request) (s : Store) : Store :=
  foldl (λ s r, store (serve r (available s "" "")).2) s rs.

Definition purchase (u p : string) : UserInteraction.t :=
  UserInteraction.mk u p PURCHASE 1 "" None.
Definition view (u p : string) : UserInteraction.t :=
  UserInteraction.mk u p VIEW 1 "" None.

Definition stale_cache_store : Store :=
  replay [Track (purchase "u" "P1"); Track (purchase "u" "P2");
          Personalized "u" 10 false] empty_store.

(** Views by four users that leave [co_occurrence:P1] = {A: 4, B: 3, C: 2}
    and [co_occurrence:P2] = {C: 3}. *)
Definition fbt_store : Store :=
  replay (Track <$> [view "a" "A"; view "a" "P1"; view "a" "P1"; view "a" "P1";
                     view "a" "P1";
                     view "b" "B"; view "b" "P1"; view "b" "P1"; view "b" "P1";
                     view "c" "C"; view "c" "P1"; view "c" "P1";
                     view "d" "C"; view "d" "P2"; view "d" "P2"; view "d" "P2"])
    empty_store.

(** Three users each purchase P1 and then P2. *)
Definition fbt_scenario_store : Store :=
  replay (Track <$> [purchase "u1" "P1"; purchase "u1" "P2";
                     purchase "u2" "P1"; purchase "u2" "P2";
                     purchase "u3" "P1"; purchase "u3" "P2"])
    empty_store.


(** ** Ranked lists *)

(** [descending key l]: no element of [l] has a larger key than one
    before it. *)
Definition descending {A} (key : A → Qc) (l : list A) : Prop :=
  StronglySorted (λ x y, key y ≤ key x) l.


(** ** Similar items, in the words of the specification *)

(** The category of a product, when its metadata names one. *)
Definition category_of (s : Store) (p : string) : option string :=
  match default ∅ (product s !! p) !! "category_id" with
  | Some c => if bool_decide (c ≠ "") then Some c else None
  | None => None
  end.

(** (a) up to [limit] co-occurrents, strength as score *)
Definition co_purchases (s : Store) (p : string) (limit : Z) : list (string * Qc) :=
  Redis.range (co_occurrents s p) 0 (limit - 1).

Definition co_purchase_items (s : Store) (p : string) (limit : Z)
  : list RecommendedProduct.t :=
  (λ '(id, x), RecommendedProduct.new id x "Frequently bought together")
    <$> co_purchases s p limit.

(** The members of [l] not in [seen], each once, in order of appearance. *)
Fixpoint first_occurrences (seen l : list string) : list string :=
  match l with
  | [] => []
  | x :: l' =>
      if bool_decide (x ∈ seen) then first_occurrences seen l'
      else x :: first_occurrences (seen ++ [x]) l'
  end.

(** (b) up to [limit] members of the product's category *)
Definition category_candidates (s : Store) (p : string) (limit : Z) : list string :=
  match category_of s p with
  | Some c => Py.prefix (set_at (category_products_key c) s) limit
  | None => []
  end.

(** ... excluding self and duplicates already found, at a fixed 0.5 *)
Definition category_items (s : Store) (p : string) (limit : Z)
  : list RecommendedProduct.t :=
  (λ pid, RecommendedProduct.new pid (Q2Qc (1 # 2)) "Same category")
    <$> first_occurrences (co_purchases s p limit).*1
          (filter (λ pid, pid ≠ p) (category_candidates s p limit)).

(** The bus message announcing product [id] in [category]. *)
Definition product_created (id category : string) : Request :=
  Message "product-events"
    (Event.mk (Some "ProductCreated") None None None
       (Some (Event.mk_data (Some id) (Some category) None None None))).

(** P, B and C are in category c; P was seen twice with A and once
    with B. *)
Definition similar_example_store : Store :=
  replay [product_created "P" "c"; product_created "B" "c"; product_created "C" "c";
          Track (view "x" "A"); Track (view "x" "P"); Track (view "x" "P");
          Track (view "y" "B"); Track (view "y" "P")]
    empty_store.


(** ** What the caches hold *)

(** No item of [l] carries the reason of the category signal. *)
Definition no_category_reason (l : list RecommendedProduct.t) : Prop :=
  ∀ r, r ∈ l → RecommendedProduct.reason r ≠ "Popular in your favorite categories".

(** A personalized entry exists only for a user with history, and neither
    it nor the trending entry holds an item of the category signal. *)
Definition caches_sound (s : Store) : Prop :=
  (∀ u l, cache_personalized s !! u = Some l →
          no_category_reason l ∧ interaction_log s u ≠ [])
  ∧ (∀ l, cache_trending s = Some l → no_category_reason l).

(** [caches_sound], and [who] has history. *)
Definition sound_for (who : option string) (s : Store) : Prop :=
  caches_sound s
  ∧ match who with Some u => interaction_log s u ≠ [] | None => True end.

(** The dict under construction holds no item of the category signal. *)
Definition no_category_reason_dict (d : list (string * RecommendedProduct.t)) : Prop :=
  no_category_reason (Py.values d).

Definition trending_example_store : Store :=
  replay [Track (view "v" "P1"); Track (purchase "v" "P2")] empty_store.


(** ** The category signal *)

(** [get_personalized_recommendations] with the body of its third step
    (the [if user_profile and user_profile.preferred_categories] block)
    taken out; the profile is still read. *)
Definition get_personalized_recommendations_without_category_branch
    (user_id : string) (limit : Z) (exclude_purchased : bool)
  : M (list RecommendedProduct.t) :=
  try_except
    (let cache_key := personalized_cache_key user_id in
     cached <- redis.get cache_key ;;
     match cached with
     | Some recommendations => ret (Py.prefix recommendations limit)
     | None =>
         interactions <- _get_user_interactions user_id ;;
         if bool_decide (interactions = []) then get_trending_products limit
         else
           excluded_products <-
             (if exclude_purchased then _get_purchased_products user_id else ret ∅) ;;
           let recent_products :=
             InteractionData.product_id <$> Py.prefix interactions 10 in
           recommendations <-
             for_fold recent_products [] (λ recommendations product_id,
               similar <- get_similar_products product_id 5 ;;
               ret (foldl (merge_content excluded_products) recommendations similar)) ;;
           cf_recommendations <- _collaborative_filtering user_id 10 ;;
           let recommendations :=
             foldl (merge_collaborative excluded_products) recommendations
               cf_recommendations in
           _get_user_profile user_id ;;;
           let sorted_recs :=
             Py.prefix (Py.sorted_desc RecommendedProduct.score
                          (Py.values recommendations)) limit in
           redis.setex cache_key Settings.cache_ttl sorted_recs ;;;
           ret sorted_recs
     end)
    (λ e, get_trending_products limit).

Definition profile_example_store : Store :=
  set_user_profile
    (<["u" := ProfileHash.mk (Some 7%Z) (Some "2024-05-01T10:00:00")
                {["preferred_categories" := "books,garden"]}]> ∅)
    (set_category_popular (<["books" := {["B1" := Qc_of_Z 9]}]> ∅)
       (replay [Track (view "u" "P1"); Track (view "v" "P1"); Track (view "v" "P2")]
          empty_store)).


(** ** Collaborative filtering, in the words of the specification *)

(** The product-to-weight table built from the entries read. *)
Definition user_products_of (log : list InteractionData.t) : list (string * Qc) :=
  foldl (λ d i, Py.set d (InteractionData.product_id i) (InteractionData.score i)) [] log.

(** What the source products hand to their co-occurrents: for each of
    the first 10 products of the table, [strength * weight] for each
    co-occurrent fetched that the user has no entry for. *)
Definition cf_contributions (s : Store) (log : list InteractionData.t)
  : list (string * Qc) :=
  '(p, w) ← Py.prefix (user_products_of log) 10;
  '(n, x) ← Redis.range (co_occurrents s p) 0 20;
  if bool_decide (n ∈ Py.keys (user_products_of log)) then [] else [(n, x * w)].

(** The sum of what [l] holds for [n]. *)
Definition sum_for (n : string) (l : list (string * Qc)) : Qc :=
  foldr Qcplus 0 (filter (λ c, c.1 = n) l).*2.

(** An entry as [track_interaction] logs it for an interaction of type [t]. *)
Definition logged_as (t : InteractionType) (i : InteractionData.t) : Prop :=
  InteractionData.type i = InteractionType_value t
  ∧ InteractionData.score i = weight_of t.

(** The accumulated scores: [score[n] += strength * weight] over the
    contributions, in their order. *)
Definition cf_scores (s : Store) (log : list InteractionData.t) : list (string * Qc) :=
  foldl (λ d '(n, c), Py.add d n c) [] (cf_contributions s log).

Definition cf_example_store : Store :=
  replay (Track <$> [view "v" "X"; view "v" "A"; view "w" "Y"; view "w" "B";
                     view "u" "B"; view "u" "C"; view "u" "D";
                     view "u" "A"; purchase "u" "A"])
    empty_store.

(** The 21 products that co-occur with [P] in [cf_fetch_store]. *)
Definition cf_fetch_neighbours : list string :=
  ["N01"; "N02"; "N03"; "N04"; "N05"; "N06"; "N07"; "N08"; "N09"; "N10"; "N11";
   "N12"; "N13"; "N14"; "N15"; "N16"; "N17"; "N18"; "N19"; "N20"; "N21"].

(** Each of 21 users views one product of their own and then [P]; the
    user [v] views [P] five times. *)
Definition cf_fetch_store : Store :=
  replay (Track <$> ((cf_fetch_neighbours ≫= λ n, [view n n; view n "P"])
                     ++ replicate 5 (view "v" "P")))
    empty_store.


(** ** Frequently bought together, in the words of the specification *)

(** What the input products hand to the candidates: the strength of each
    co-occurrent fetched for each input that is not itself an input. *)
Definition fbt_contributions (s : Store) (product_ids : list string) (limit : Z)
  : list (string * Qc) :=
  p ← product_ids;
  '(n, x) ← Redis.range (co_occurrents s p) 0 (limit * 2);
  if bool_decide (n ∈ product_ids) then [] else [(n, x)].

Definition fbt_scores (s : Store) (product_ids : list string) (limit : Z)
  : list (string * Qc) :=
  foldl (λ d '(n, c), Py.add d n c) [] (fbt_contributions s product_ids limit).


(** ** Blending, in the words of the specification *)

Inductive Signal := Content | Collaborative | Category.

(** The share of an item's score that is added when its product is
    already present. *)
Definition signal_factor (sig : Signal) : Qc :=
  match sig with
  | Content => Q2Qc (1 # 2)
  | Collaborative => 1
  | Category => Q2Qc (3 # 10)
  end.

(** The entry a signal inserts for a product that is not yet present:
    the item at its raw score, under the reason of the signal. *)
Definition introduce (sig : Signal) (r : RecommendedProduct.t) : RecommendedProduct.t :=
  match sig with
  | Content => RecommendedProduct.set_reason "Similar to items you viewed" r
  | Collaborative => r
  | Category => RecommendedProduct.set_reason "Popular in your favorite categories" r
  end.

(** One pass of the merge loop of a signal. *)
Definition merge_signal (excluded : gset string)
    (d : list (string * RecommendedProduct.t)) (c : Signal * RecommendedProduct.t)
  : list (string * RecommendedProduct.t) :=
  match c.1 with
  | Content => merge_content excluded d c.2
  | Collaborative => merge_collaborative excluded d c.2
  | Category => merge_category excluded d c.2
  end.

(** The items of the three signals in the order they are merged. *)
Definition signal_items (content cf cat : list RecommendedProduct.t)
  : list (Signal * RecommendedProduct.t) :=
  ((λ r, (Content, r)) <$> content) ++ ((λ r, (Collaborative, r)) <$> cf)
  ++ ((λ r, (Category, r)) <$> cat).

Definition occurrences (pid : string) (l : list (Signal * RecommendedProduct.t))
  : list (Signal * RecommendedProduct.t) :=
  filter (λ c, RecommendedProduct.product_id c.2 = pid) l.

(** The merge rule: the first occurrence introduces the product and fixes
    the reason, every later one adds its share to the score. *)
Definition merged_entry (occ : list (Signal * RecommendedProduct.t))
  : option RecommendedProduct.t :=
  match occ with
  | [] => None
  | (sig, r) :: later =>
      Some (RecommendedProduct.add_score
              (foldr Qcplus 0
                 ((λ c, RecommendedProduct.score c.2 * signal_factor c.1) <$> later))
              (introduce sig r))
  end.

(** [get_similar_products p 5] for each [p] in turn, every call answered:
    the items returned, and the store left. *)
Fixpoint similar_runs (products : list string) (s : Store) (now st : string)
  : list RecommendedProduct.t * Store :=
  match products with
  | [] => ([], s)
  | p :: ps =>
      let r := get_similar_products p 5 (available s now st) in
      let rest := similar_runs ps (store r.2) now st in
      ((match r.1 with inr l => l | inl _ => [] end) ++ rest.1, rest.2)
  end.

(** What [_collaborative_filtering] returns, the store answering. *)
Definition collaborative_items (s : Store) (u : string) (limit : Z)
  : list RecommendedProduct.t :=
  if bool_decide (length (read_log s u) < Settings.min_interactions_for_cf)%nat then []
  else (λ '(pid, score),
          RecommendedProduct.new pid score "Customers like you also bought")
         <$> Py.prefix (Py.sorted_desc snd (cf_scores s (read_log s u))) limit.

(** A dict of items keyed by their product id. *)
Definition keyed_by_product (d : list (string * RecommendedProduct.t)) : Prop :=
  NoDup (Py.keys d) ∧ ∀ k r, (k, r) ∈ d → RecommendedProduct.product_id r = k.

(** What an entry becomes when one more item of its product is merged. *)
Definition absorb (o : option RecommendedProduct.t) (c : Signal * RecommendedProduct.t)
  : option RecommendedProduct.t :=
  Some match o with
       | Some r =>
           RecommendedProduct.add_score
             (RecommendedProduct.score c.2 * signal_factor c.1) r
       | None => introduce c.1 c.2
       end.

Definition blend_example_store : Store :=
  replay (Track <$> [view "v" "A"; view "v" "Z";
                     view "u" "A"; view "u" "B"; view "u" "C"; view "u" "D";
                     purchase "u" "E"])
    empty_store.

(** * Vocabulary of the further properties *)

(** ** Answers of the queries *)

(** On every world, [m] returns, and what it returns satisfies [Q]. *)
Definition always_returns {A} (m : M A) (Q : A → Prop) : Prop :=
  ∀ w, ∃ a w', m w = (inr a, w') ∧ Q a.

(** At most [limit] items. *)
Definition within (limit : Z) (l : list RecommendedProduct.t) : Prop :=
  (Z.of_nat (length l) ≤ limit)%Z.

(** The products of the view entries among the entries read, each once,
    most recent first. *)
Definition viewed_products (s : Store) (u : string) : list string :=
  first_occurrences []
    (InteractionData.product_id
       <$> filter (λ i, InteractionData.type i = InteractionType_value VIEW) (read_log s u)).

(** The whole popularity ranking, best first. *)
Definition popularity_ranking (s : Store) : list (string * Qc) :=
  Redis.zrev_all (popularity s).

Definition trending_item (c : string * Qc) : RecommendedProduct.t :=
  RecommendedProduct.new c.1 c.2 "Trending now".


(** ** What is recorded and what is cached *)

(** What the service has recorded, as opposed to what it has cached. *)
Definition recorded_data (s : Store) :=
  (interactions s, popularity s, co_occurrence s, category_popular s,
   purchased s, category_products s, user_profile s, product s).

Definition caches (s : Store) :=
  (cache_personalized s, cache_similar s, cache_trending s).

(** The entry [track_interaction] pushes on the log. *)
Definition log_entry (i : UserInteraction.t) : InteractionData.t :=
  InteractionData.mk (UserInteraction.product_id i)
    (InteractionType_value (UserInteraction.interaction_type i))
    (weight_of (UserInteraction.interaction_type i))
    (UserInteraction.timestamp i).

(** The store [track_interaction] leaves when every call is answered. *)
Definition tracked (i : UserInteraction.t) (s : Store) (now st : string) : Store :=
  store (track_interaction i (available s now st)).2.

(** The store after [_update_user_profile] at [now], every call answered. *)
Definition profile_updated (i : UserInteraction.t) (now : string) (s : Store) : Store :=
  let u := UserInteraction.user_id i in
  let p := UserInteraction.product_id i in
  let h := default ProfileHash.empty (user_profile s !! u) in
  let s1 :=
    set_user_profile
      (<[u := ProfileHash.mk (Some (default 0 (ProfileHash.interaction_count h) + 1)%Z)
                (Some now) (ProfileHash.other_fields h)]> (user_profile s)) s in
  if bool_decide (UserInteraction.interaction_type i = PURCHASE
                  ∧ p ∉ set_at (purchased_key u) s)
  then set_purchased (<[u := set_at (purchased_key u) s ++ [p]]> (purchased s)) s1
  else s1.


(** ** The co-occurrence graph and the similar-items cache *)

(** No product co-occurs with itself. *)
Definition no_self_edges (s : Store) : Prop := ∀ p, strength s p p = None.

(** No cached answer for a product holds the product itself. *)
Definition similar_cache_sound (s : Store) : Prop :=
  ∀ p l r, cache_similar s !! p = Some l → r ∈ l → RecommendedProduct.product_id r ≠ p.

Definition graph_sound (s : Store) : Prop := no_self_edges s ∧ similar_cache_sound s.

(** None of the items is product [p]. *)
Definition without (p : string) (l : list RecommendedProduct.t) : Prop :=
  ∀ r, r ∈ l → RecommendedProduct.product_id r ≠ p.

(** The dict of [get_similar_products] holds items other than [p] only. *)
Definition dict_without (p : string) (d : list (string * RecommendedProduct.t)) : Prop :=
  ∀ k r, (k, r) ∈ d → RecommendedProduct.product_id r ≠ p.


(** ** Growth of the recorded data *)

(** [s] holds all that [s0] has recorded, with scores and counts at
    least as high. *)
Definition grown_from (s0 s : Store) : Prop :=
  (∀ k x, x ∈ set_at k s0 → x ∈ set_at k s)
  ∧ (∀ p, popularity_rank s0 p ≤ popularity_rank s p)
  ∧ (∀ p, is_Some (popularity s0 !! p) → is_Some (popularity s !! p))
  ∧ (∀ a b x, strength s0 a b = Some x → ∃ y, strength s a b = Some y ∧ x ≤ y)
  ∧ (∀ u h0, user_profile s0 !! u = Some h0 →
       ∃ h, user_profile s !! u = Some h
            ∧ (default 0 (ProfileHash.interaction_count h0)
               ≤ default 0 (ProfileHash.interaction_count h))%Z).

(** Every score of a sorted set is at least 1. *)
Definition scores_positive (s : Store) : Prop :=
  (∀ p x, popularity s !! p = Some x → 1 ≤ x)
  ∧ (∀ a b x, strength s a b = Some x → 1 ≤ x).


(** ** Messages from the bus *)

(** The product an order item names: ["productId"], or ["product_id"]
    when that is missing or empty; nothing when both are. *)
Definition item_product (item : Event.item) : option string :=
  let product_id :=
    if truthy (Event.item_productId item) then Event.item_productId item
    else Event.item_product_id item in
  if truthy product_id then product_id else None.

(** The stores after recording [interactions] in turn, every call answered. *)
Definition tracked_all (interactions : list UserInteraction.t) (s : Store)
    (now st : string) : Store :=
  foldl (λ s i, tracked i s now st) s interactions.

Definition order_created (user_id : option string) (items : option (list Event.item))
  : Event.t :=
  Event.mk (Some "OrderCreated") user_id None items None.

Definition user_event (event_type : string) (user_id product_id : option string)
  : Event.t :=
  Event.mk (Some event_type) user_id product_id None None.

(** The interaction type a user event is recorded as. *)
Definition bus_interaction_type (event_type : string) : option InteractionType :=
  if bool_decide (event_type = "ProductViewed") then Some VIEW
  else if bool_decide (event_type = "ProductAddedToCart") then Some ADD_TO_CART
  else if bool_decide (event_type = "ProductAddedToWishlist") then Some WISHLIST
  else None.

(** The worlds after handling [messages] in turn. *)
Definition handled (messages : list (string * Event.t)) (w : World) : World :=
  foldl (λ w message, (KafkaEventConsumer._handle_message message.1 message.2 w).2)
    w messages.

Definition product_event (event_type : string) (data : Event.data) : Event.t :=
  Event.mk (Some event_type) None None None (Some data).

(** The metadata hash of a product. *)
Definition metadata (s : Store) (p : string) : gmap string string :=
  default ∅ (product s !! p).

(** The category a product event names, if it names one. *)
Definition event_category (data : Event.data) : option string :=
  if truthy (Event.categoryId data) then Event.categoryId data else None.


(** ** The category ranking, the routes and the weights *)

(** The best [limit] products of one category's ranking. *)
Definition category_best (s : Store) (limit : Z) (category_id : string)
  : list RecommendedProduct.t :=
  (λ '(product_id, score), RecommendedProduct.new product_id score "Popular in category")
    <$> Redis.range (Redis.zrev_all (zset_at (category_popular_key category_id) s))
          0 (limit - 1).

(** A well-formed answer of a route: [total] counts the items, of which
    there are at most [limit]. *)
Definition answer_within (limit : Z) (strategy : string) (user_id : option string)
    (response : RecommendationResponse.t) : Prop :=
  RecommendationResponse.total response
  = Z.of_nat (length (RecommendationResponse.recommendations response))
  ∧ (RecommendationResponse.total response ≤ limit)%Z
  ∧ RecommendationResponse.strategy response = strategy
  ∧ RecommendationResponse.user_id response = user_id.

(** The weights of the interactions with [p] among [calls], summed. *)
Definition weight_recorded (p : string) (calls : list UserInteraction.t) : Qc :=
  foldr Qcplus 0
    ((λ i, weight_of (UserInteraction.interaction_type i))
       <$> filter (λ i, UserInteraction.product_id i = p) calls).


(** * Lists, sorting and dictionaries *)

Lemma insert_by_Permutation {A} (before : A → A → bool) x l :
  Py.insert_by before x l ≡ₚ x :: l.
Proof.
  induction l as [|y l IH]; simpl; [done|].
  destruct (before x y); [done|]. rewrite IH. apply Permutation_swap.
Qed.

Lemma sort_by_Permutation {A} (before : A → A → bool) l :
  Py.sort_by before l ≡ₚ l.
Proof.
  induction l as [|x l IH]; simpl; [done|].
  unfold Py.sort_by in *. simpl. rewrite insert_by_Permutation. by rewrite IH.
Qed.

Section sorting.
Context {A : Type} (key : A → Qc).

Lemma prefix_take (l : list A) n : ∃ k, Py.prefix l n = take k l.
Proof. unfold Py.prefix. destruct (n <? 0)%Z; eauto. Qed.

Lemma prefix_subseteq (l : list A) n : Py.prefix l n ⊆ l.
Proof.
  destruct (prefix_take l n) as [k ->]. intros x Hx.
  apply elem_of_take in Hx as (i & Hi & _). by eapply list_elem_of_lookup_2.
Qed.

Lemma prefix_length (l : list A) n :
  (0 ≤ n)%Z → (Z.of_nat (length (Py.prefix l n)) ≤ n)%Z.
Proof.
  intros Hn. unfold Py.prefix. rewrite (proj2 (Z.ltb_ge n 0)) by done.
  rewrite length_take. lia.
Qed.

Lemma prefix_nil n : Py.prefix (@nil A) n = [].
Proof. destruct (prefix_take (@nil A) n) as [k ->]. by rewrite take_nil. Qed.

Lemma descending_take (l : list A) k : descending key l → descending key (take k l).
Proof.
  unfold descending. intros H. rewrite <- (take_drop k l) in H.
  by apply StronglySorted_app_1_l in H.
Qed.

Lemma descending_prefix (l : list A) n : descending key l → descending key (Py.prefix l n).
Proof. destruct (prefix_take l n) as [k ->]. apply descending_take. Qed.

Lemma descending_insert x (l : list A) :
  descending key l →
  descending key (Py.insert_by (λ x y, bool_decide (key y ≤ key x)) x l).
Proof.
  unfold descending. induction l as [|y l IH]; intros Hl; simpl.
  - repeat constructor.
  - apply StronglySorted_cons in Hl as [Hy Hl].
    case_bool_decide as Hxy.
    + apply StronglySorted_cons. split; [|by apply StronglySorted_cons].
      constructor; [done|]. eapply Forall_impl; [exact Hy|].
      intros z Hz. simpl in *. by etrans.
    + apply StronglySorted_cons. split; [|by apply IH].
      rewrite insert_by_Permutation. constructor; [|done].
      apply Qclt_le_weak. by apply Qclt_nge.
Qed.

Lemma sorted_desc_descending (l : list A) : descending key (Py.sorted_desc key l).
Proof.
  unfold Py.sorted_desc, Py.sort_by. induction l as [|x l IH]; simpl.
  - constructor.
  - by apply descending_insert.
Qed.

Lemma sorted_desc_Permutation (l : list A) : Py.sorted_desc key l ≡ₚ l.
Proof. apply sort_by_Permutation. Qed.

Lemma elem_of_sorted_desc (l : list A) x : x ∈ Py.sorted_desc key l ↔ x ∈ l.
Proof. by rewrite sorted_desc_Permutation. Qed.
End sorting.

Lemma range_sublist {A} (l : list A) start stop :
  ∃ i k, Redis.range l start stop = take k (drop i l).
Proof.
  unfold Redis.range. cbv zeta.
  destruct (_ || _)%bool; [by exists 0%nat, 0%nat|eauto].
Qed.

Lemma range_subseteq {A} (l : list A) start stop : Redis.range l start stop ⊆ l.
Proof.
  destruct (range_sublist l start stop) as (i & k & ->).
  intros x Hx. apply elem_of_take in Hx as (j & Hj & _).
  rewrite lookup_drop in Hj. by eapply list_elem_of_lookup_2.
Qed.

Lemma range_NoDup_fst {A B} (l : list (A * B)) start stop :
  NoDup l.*1 → NoDup (Redis.range l start stop).*1.
Proof.
  destruct (range_sublist l start stop) as (i & k & ->).
  intros H. rewrite fmap_take, fmap_drop.
  rewrite <- (take_drop i l.*1) in H. apply NoDup_app in H as (_ & _ & H).
  rewrite <- (take_drop k (drop i l.*1)) in H. by apply NoDup_app in H as (H & _ & _).
Qed.

(** A ZREVRANGE from rank 0 holds at most [stop + 1] members. *)
Lemma range_length {A} (l : list A) stop :
  (0 ≤ stop)%Z → (Z.of_nat (length (Redis.range l 0 stop)) ≤ stop + 1)%Z.
Proof.
  intros H. unfold Redis.range. cbv zeta.
  rewrite (proj2 (Z.ltb_ge stop 0)) by done. simpl (0 <? 0)%Z. cbv iota.
  destruct (_ || _)%bool; simpl; [lia|].
  destruct (_ <=? _)%Z eqn:E; rewrite length_take; lia.
Qed.

Lemma zrev_all_NoDup (z : gmap string Qc) : NoDup (Redis.zrev_all z).*1.
Proof.
  unfold Redis.zrev_all. rewrite sort_by_Permutation. apply NoDup_fst_map_to_list.
Qed.

(** ** Dictionaries *)
Section dict.
Context {V : Type}.
Implicit Types (d : list (string * V)) (k : string) (v : V).

Lemma get_None d k : Py.get d k = None ↔ k ∉ Py.keys d.
Proof.
  unfold Py.keys. induction d as [|[k' v'] d IH]; simpl.
  - split; [intros _; apply not_elem_of_nil|done].
  - case_bool_decide as Hk; rewrite not_elem_of_cons.
    + split; [done|]. intros [? _]. congruence.
    + rewrite IH. naive_solver.
Qed.

Lemma get_Some_elem_of d k v : Py.get d k = Some v → (k, v) ∈ d.
Proof.
  induction d as [|[k' v'] d IH]; simpl; [done|].
  case_bool_decide as Hk.
  - intros [= ->]. subst. apply elem_of_cons. by left.
  - intros H. apply elem_of_cons. right. by apply IH.
Qed.

Lemma elem_of_get d k v : NoDup (Py.keys d) → (k, v) ∈ d → Py.get d k = Some v.
Proof.
  unfold Py.keys. induction d as [|[k' v'] d IH]; simpl.
  - intros _ H. by apply elem_of_nil in H.
  - intros Hnd H. apply NoDup_cons in Hnd as [Hk' Hnd].
    apply elem_of_cons in H as [[= <- <-]|H].
    + by rewrite bool_decide_eq_true_2.
    + case_bool_decide as Hk; [|by apply IH].
      subst k'. exfalso. apply Hk'. apply list_elem_of_fmap. by exists (k, v).
Qed.

Lemma contains_elem_of d k : Py.contains d k = true ↔ k ∈ Py.keys d.
Proof.
  unfold Py.contains. rewrite bool_decide_eq_true.
  rewrite <- not_eq_None_Some, get_None. split; [|by intros ? ?].
  intros H. by destruct (decide (k ∈ Py.keys d)).
Qed.

Lemma set_fresh d k v : k ∉ Py.keys d → Py.set d k v = d ++ [(k, v)].
Proof.
  unfold Py.keys. induction d as [|[k' v'] d IH]; simpl; [done|].
  rewrite not_elem_of_cons. intros [Hk Hd].
  rewrite bool_decide_eq_false_2 by done. by rewrite IH.
Qed.

Lemma get_set d k v k' :
  Py.get (Py.set d k v) k' = if bool_decide (k = k') then Some v else Py.get d k'.
Proof.
  induction d as [|[k0 v0] d IH]; simpl.
  - done.
  - destruct (decide (k0 = k)) as [->|Hk0].
    + rewrite bool_decide_eq_true_2 by done. simpl. by case_bool_decide.
    + rewrite (bool_decide_eq_false_2 (k0 = k)) by done. simpl. rewrite IH.
      repeat case_bool_decide; simplify_eq; done.
Qed.

Lemma keys_set_present d k v : k ∈ Py.keys d → Py.keys (Py.set d k v) = Py.keys d.
Proof.
  unfold Py.keys. induction d as [|[k0 v0] d IH]; cbn [Py.set].
  - intros H. by apply elem_of_nil in H.
  - intros H. case_bool_decide as Hk0; [by subst|].
    rewrite !fmap_cons. f_equal. apply IH.
    rewrite fmap_cons in H. apply elem_of_cons in H as [H|H]; [|done].
    simpl in H. by subst.
Qed.

Lemma keys_set_fresh d k v : k ∉ Py.keys d → Py.keys (Py.set d k v) = Py.keys d ++ [k].
Proof. intros H. rewrite set_fresh by done. unfold Py.keys. by rewrite fmap_app. Qed.

Lemma keys_set_NoDup d k v : NoDup (Py.keys d) → NoDup (Py.keys (Py.set d k v)).
Proof.
  intros H. destruct (decide (k ∈ Py.keys d)) as [Hk|Hk].
  - by rewrite keys_set_present.
  - rewrite keys_set_fresh by done.
    apply NoDup_app. split_and!; [done| |apply NoDup_singleton].
    intros x Hx Hx'. apply list_elem_of_singleton in Hx'. by subst.
Qed.
End dict.

Lemma first_occurrences_spec seen l x :
  x ∈ first_occurrences seen l ↔ x ∈ l ∧ x ∉ seen.
Proof.
  revert seen. induction l as [|y l IH]; intros seen; simpl.
  - split; [intros H; by apply elem_of_nil in H|intros [H _]; by apply elem_of_nil in H].
  - case_bool_decide as Hy.
    + rewrite IH, elem_of_cons. split; [naive_solver|].
      intros [[->|?] ?]; done.
    + rewrite !elem_of_cons, IH, elem_of_app, list_elem_of_singleton.
      split; [naive_solver|]. intros [[->|?] ?]; [by left|].
      destruct (decide (x = y)); [by left|right; naive_solver].
  Qed.

Lemma first_occurrences_NoDup seen l : NoDup (first_occurrences seen l).
Proof.
  revert seen. induction l as [|y l IH]; intros seen; simpl; [constructor|].
  case_bool_decide as Hy; [done|].
  apply NoDup_cons. split; [|done].
  rewrite first_occurrences_spec, elem_of_app, list_elem_of_singleton. naive_solver.
Qed.

Lemma foldl_set_fresh {V} (f : string → Qc → V) (l : list (string * Qc))
    (d : list (string * V)) :
  NoDup (Py.keys d ++ l.*1) →
  foldl (λ d '(id, x), Py.set d id (f id x)) d l
  = d ++ ((λ '(id, x), (id, f id x)) <$> l).
Proof.
  revert d. induction l as [|[id x] l IH]; intros d Hnd; simpl.
  - by rewrite app_nil_r.
  - assert (id ∉ Py.keys d) as Hid.
    { apply NoDup_app in Hnd as (_ & H & _). intros Hin. apply (H _ Hin).
      apply elem_of_cons. by left. }
    rewrite IH.
    + rewrite set_fresh by done. by rewrite <- app_assoc.
    + rewrite keys_set_fresh by done. rewrite <- app_assoc. done.
Qed.

Lemma foldl_category_siblings (p : string) (g : string → RecommendedProduct.t)
    (l : list string) (d : list (string * RecommendedProduct.t)) :
  foldl (λ d pid, if bool_decide (pid ≠ p) && negb (Py.contains d pid)
                  then Py.set d pid (g pid) else d) d l
  = d ++ ((λ pid, (pid, g pid))
            <$> first_occurrences (Py.keys d) (filter (λ pid, pid ≠ p) l)).
Proof.
  revert d. induction l as [|x l IH]; intros d; simpl.
  - by rewrite app_nil_r.
  - rewrite filter_cons. case_bool_decide as Hx; simpl.
    + rewrite decide_True by done. simpl.
      destruct (Py.contains d x) eqn:Hc; simpl.
      * apply contains_elem_of in Hc. rewrite bool_decide_eq_true_2 by done. apply IH.
      * assert (x ∉ Py.keys d) as Hn.
        { intros Hin. apply contains_elem_of in Hin. congruence. }
        rewrite bool_decide_eq_false_2 by done. rewrite IH.
        rewrite keys_set_fresh, set_fresh by done.
        rewrite fmap_cons. by rewrite <- app_assoc.
    + rewrite decide_False by (intros H; by apply H). apply IH.
Qed.

Lemma NoDup_fst_unique {A B} (l : list (A * B)) a b b' :
  NoDup l.*1 → (a, b) ∈ l → (a, b') ∈ l → b = b'.
Proof.
  induction l as [|[a0 b0] l IH]; simpl; intros Hnd H1 H2.
  - by apply elem_of_nil in H1.
  - apply NoDup_cons in Hnd as [Ha0 Hnd].
    apply elem_of_cons in H1 as [[= -> ->]|H1], H2 as [[= ->]|H2]; try done.
    + destruct Ha0. apply list_elem_of_fmap. by exists (a0, b').
    + simplify_eq. destruct Ha0. apply list_elem_of_fmap. by exists (a0, b).
    + by apply IH.
Qed.


(** From rank 0 and with a stop that is not negative, a range is the
    first [stop + 1] elements. *)
Lemma range_from_zero {A} (l : list A) stop :
  (0 ≤ stop)%Z → Redis.range l 0 stop = take (Z.to_nat (stop + 1)) l.
Proof.
  intros Hstop. unfold Redis.range. cbv zeta.
  repeat match goal with
         | |- context [(?a <? ?b)%Z] => destruct (Z.ltb_spec a b); try lia
         | |- context [(?a <=? ?b)%Z] => destruct (Z.leb_spec a b); try lia
         end; cbn [orb drop Z.to_nat].
  all: change (Z.to_nat 0) with 0%nat; rewrite ?drop_0.
  all: try (destruct l; [by rewrite take_nil|simpl in *; lia]).
  all: try (rewrite !take_ge by lia; done).
  all: f_equal; lia.
Qed.

Lemma range_nonempty {A} (l : list A) stop :
  (0 ≤ stop)%Z → l ≠ [] → Redis.range l 0 stop ≠ [].
Proof.
  intros Hstop Hl. rewrite range_from_zero by done.
  destruct l as [|x l]; [done|].
  replace (Z.to_nat (stop + 1)) with (S (Z.to_nat stop)) by lia. done.
Qed.

Lemma range_nil_inv {A} (l : list A) stop :
  (0 ≤ stop)%Z → Redis.range l 0 stop = [] → l = [].
Proof.
  intros Hstop H. destruct l as [|x l]; [done|].
  by apply (range_nonempty (x :: l) stop) in H.
Qed.


Lemma range_nil {A} start stop : Redis.range (@nil A) start stop = [].
Proof.
  destruct (Redis.range (@nil A) start stop) as [|x l] eqn:H; [done|].
  assert (x ∈ @nil A) as Hx by (apply (range_subseteq [] start stop); rewrite H; left).
  by apply elem_of_nil in Hx.
Qed.

Lemma zrev_all_empty : Redis.zrev_all ∅ = [].
Proof. unfold Redis.zrev_all. by rewrite map_to_list_empty. Qed.


Lemma foldl_bind {A B C} (f : C → B → C) (g : A → list B) (l : list A) (c : C) :
  foldl f c (l ≫= g) = foldl (λ c a, foldl f c (g a)) c l.
Proof.
  revert c. induction l as [|a l IH]; intros c; simpl; [done|].
  by rewrite foldl_app, IH.
Qed.

Lemma foldl_ext {A B} (f g : B → A → B) (l : list A) (b : B) :
  (∀ b a, f b a = g b a) → foldl f b l = foldl g b l.
Proof.
  intros H. revert b. induction l as [|a l IH]; intros b; simpl; [done|].
  by rewrite H, IH.
Qed.

Lemma sum_for_cons n n' c l :
  sum_for n ((n', c) :: l) = (if bool_decide (n' = n) then c else 0) + sum_for n l.
Proof.
  unfold sum_for. rewrite filter_cons. simpl. case_bool_decide.
  - by rewrite decide_True.
  - rewrite decide_False by done. by rewrite Qcplus_0_l.
Qed.

Lemma sum_for_nil n : sum_for n [] = 0.
Proof. done. Qed.

Lemma sum_for_absent n l : n ∉ l.*1 → sum_for n l = 0.
Proof.
  induction l as [|[n' c] l IH]; [done|].
  rewrite fmap_cons, not_elem_of_cons. cbn [fst]. intros [Hn Hl].
  rewrite sum_for_cons, IH by done.
  rewrite bool_decide_eq_false_2 by done. ring.
Qed.

Lemma get_add d n c n' :
  Py.get (Py.add d n c) n'
  = if bool_decide (n = n') then Some (default 0 (Py.get d n) + c) else Py.get d n'.
Proof. unfold Py.add. apply get_set. Qed.

(** A [defaultdict(float)] filled by [d[n] += c]. *)
Lemma get_foldl_add_absent (l : list (string * Qc)) d n :
  n ∉ l.*1 → Py.get (foldl (λ d '(n, c), Py.add d n c) d l) n = Py.get d n.
Proof.
  revert d. induction l as [|[n' c] l IH]; intros d; [done|].
  rewrite fmap_cons, not_elem_of_cons. cbn [fst foldl]. intros [Hn Hl].
  rewrite IH by done. rewrite get_add. by rewrite bool_decide_eq_false_2.
Qed.

Lemma get_foldl_add_present (l : list (string * Qc)) d n :
  n ∈ l.*1 →
  Py.get (foldl (λ d '(n, c), Py.add d n c) d l) n
  = Some (default 0 (Py.get d n) + sum_for n l).
Proof.
  revert d. induction l as [|[n' c] l IH]; intros d.
  - intros H. by apply elem_of_nil in H.
  - rewrite fmap_cons. cbn [fst foldl]. intros Hin. rewrite sum_for_cons.
    destruct (decide (n ∈ l.*1)) as [Hl|Hl].
    + rewrite IH by done. rewrite get_add. f_equal.
      case_bool_decide as Hn.
      * subst n'. cbn [default from_option id]. ring.
      * ring.
    + apply elem_of_cons in Hin as [->|Hin]; [|done].
      rewrite get_foldl_add_absent by done. rewrite get_add.
      rewrite !bool_decide_eq_true_2 by done. rewrite sum_for_absent by done.
      f_equal. ring.
Qed.

Lemma keys_add d n c :
  Py.keys (Py.add d n c)
  = if bool_decide (n ∈ Py.keys d) then Py.keys d else Py.keys d ++ [n].
Proof.
  unfold Py.add. case_bool_decide.
  - by apply keys_set_present.
  - by apply keys_set_fresh.
Qed.

Lemma keys_foldl_add (l : list (string * Qc)) d :
  Py.keys (foldl (λ d '(n, c), Py.add d n c) d l)
  = Py.keys d ++ first_occurrences (Py.keys d) l.*1.
Proof.
  revert d. induction l as [|[n c] l IH]; intros d.
  - simpl. by rewrite app_nil_r.
  - rewrite fmap_cons. cbn [fst foldl first_occurrences]. rewrite IH, keys_add.
    case_bool_decide; [done|]. by rewrite <- app_assoc.
Qed.

Lemma descending_fmap {A B} (f : A → B) (key : B → Qc) (l : list A) :
  descending (key ∘ f) l → descending key (f <$> l).
Proof.
  unfold descending. induction l as [|x l IH]; intros H; [constructor|].
  apply StronglySorted_cons in H as [Hx Hl]. rewrite fmap_cons.
  apply StronglySorted_cons. split; [|by apply IH].
  apply Forall_fmap. by eapply Forall_impl.
Qed.

Lemma descending_ext {A} (key1 key2 : A → Qc) (l : list A) :
  (∀ x, key1 x = key2 x) → descending key1 l → descending key2 l.
Proof.
  intros Hkey. unfold descending. induction l as [|x l IH]; intros H; [constructor|].
  apply StronglySorted_cons in H as [Hx Hl].
  apply StronglySorted_cons. split; [|by apply IH].
  eapply Forall_impl; [exact Hx|]. intros y Hy. simpl in *. by rewrite <- !Hkey.
Qed.


Lemma elem_of_set {V} (d : list (string * V)) k v k' v' :
  (k', v') ∈ Py.set d k v → (k', v') = (k, v) ∨ (k', v') ∈ d.
Proof.
  induction d as [|[k0 v0] d IH]; simpl.
  - intros H. apply list_elem_of_singleton in H. by left.
  - case_bool_decide as Hk0.
    + intros H. apply elem_of_cons in H as [H|H]; [by left|].
      right. apply elem_of_cons. by right.
    + intros H. apply elem_of_cons in H as [H|H].
      * right. apply elem_of_cons. by left.
      * destruct (IH H) as [?|?]; [by left|]. right. apply elem_of_cons. by right.
Qed.

(** * Reasoning principles *)

Lemma wp_intro {A} (m : M A) (Q : A → Store → Prop) (E : Store → Prop) w :
  wp m Q E (store w) →
  match m w with
  | (inr a, w') => Q a (store w')
  | (inl _, w') => E (store w')
  end.
Proof. intros H. destruct w as [s fs now st]. apply H. Qed.

Lemma wp_ret {A} (a : A) (Q : A → Store → Prop) (E : Store → Prop) s :
  Q a s → wp (ret a) Q E s.
Proof. intros H fs now st. exact H. Qed.

Lemma wp_raise {A} e (Q : A → Store → Prop) (E : Store → Prop) s :
  E s → wp (raise e : M A) Q E s.
Proof. intros H fs now st. exact H. Qed.

Lemma wp_mono {A} (m : M A) (Q Q' : A → Store → Prop) (E E' : Store → Prop) s :
  wp m Q E s → (∀ a s', Q a s' → Q' a s') → (∀ s', E s' → E' s') → wp m Q' E' s.
Proof.
  intros H HQ HE fs now st. specialize (H fs now st).
  destruct (m _) as [[e|a] w']; auto.
Qed.

Lemma wp_bind {A B} (m : M A) (k : A → M B) (Q : B → Store → Prop) (E : Store → Prop) s :
  wp m (λ a s', wp (k a) Q E s') E s → wp (bind m k) Q E s.
Proof.
  intros H fs now st. unfold bind. specialize (H fs now st).
  destruct (m _) as [[e|a] w']; [exact H|]. by apply wp_intro.
Qed.

Lemma wp_try {A} (body : M A) (handler : Exn → M A) (Q : A → Store → Prop)
    (E : Store → Prop) s :
  wp body Q (λ s', ∀ e, wp (handler e) Q E s') s → wp (try_except body handler) Q E s.
Proof.
  intros H fs now st. unfold try_except. specialize (H fs now st).
  destruct (body _) as [[e|a] w']; [|exact H]. by apply wp_intro.
Qed.

Lemma wp_redis_call {A} (f : Store → A * Store) (Q : A → Store → Prop)
    (E : Store → Prop) s :
  E s → Q (f s).1 (f s).2 → wp (redis_call f) Q E s.
Proof.
  intros HE HQ fs now st. unfold redis_call. simpl.
  destruct fs as [|[] fs]; simpl; [| exact HE |]; by destruct (f s).
Qed.

Lemma wp_for_each {A} (l : list A) (body : A → M unit) (I : Store → Prop)
    (E : Store → Prop) s :
  I s → (∀ x s', x ∈ l → I s' → wp (body x) (λ _, I) E s') →
  wp (for_each l body) (λ _, I) E s.
Proof.
  revert s. induction l as [|x l IH]; intros s HI Hbody; simpl.
  - by apply wp_ret.
  - apply wp_bind. eapply wp_mono; [apply Hbody; [apply elem_of_cons; by left|done] | | done].
    intros ? s' HI'. apply IH; [done|].
    intros y s'' Hy. apply Hbody. apply elem_of_cons. by right.
Qed.

(** The loop rule with an invariant that sees the elements done so far. *)
Lemma wp_for_each_indexed {A} (l : list A) (body : A → M unit)
    (I : list A → Store → Prop) (E : Store → Prop) s :
  I [] s →
  (∀ seen x s', x ∈ l → I seen s' → wp (body x) (λ _, I (seen ++ [x])) E s') →
  wp (for_each l body) (λ _, I l) E s.
Proof.
  intros HI Hbody.
  cut (∀ seen, I seen s → (∀ x, x ∈ l → x ∈ l) →
         wp (for_each l body) (λ _, I (seen ++ l)) E s).
  { intros H. by apply (H []). }
  clear HI. revert s Hbody.
  induction l as [|x l IH]; intros s Hbody seen HI _; simpl.
  - apply wp_ret. by rewrite app_nil_r.
  - apply wp_bind.
    eapply wp_mono; [apply (Hbody seen); [apply elem_of_cons; by left|done] | | done].
    intros ? s' HI'. cbv beta in HI'.
    replace (seen ++ x :: l) with ((seen ++ [x]) ++ l) by by rewrite <- app_assoc.
    apply IH; [|done|done].
    intros seen' y s'' Hy. apply Hbody. apply elem_of_cons. by right.
Qed.

Lemma wp_for_fold {A B} (l : list A) (acc : B) (body : B → A → M B)
    (I : B → Store → Prop) (E : Store → Prop) s :
  I acc s → (∀ acc x s', x ∈ l → I acc s' → wp (body acc x) I E s') →
  wp (for_fold l acc body) I E s.
Proof.
  revert acc s. induction l as [|x l IH]; intros acc s HI Hbody; simpl.
  - by apply wp_ret.
  - apply wp_bind. eapply wp_mono; [apply Hbody; [apply elem_of_cons; by left|done] | | done].
    intros acc' s' HI'. apply IH; [done|].
    intros acc'' y s'' Hy. apply Hbody. apply elem_of_cons. by right.
Qed.

Lemma wp_utcnow Q E s : (∀ now, Q now s) → wp utcnow_isoformat Q E s.
Proof. intros H fs now st. apply H. Qed.

Lemma wp_default_timestamp Q E s : (∀ t, Q t s) → wp default_timestamp Q E s.
Proof. intros H fs now st. apply H. Qed.

(** One step through a service program: sequencing, handlers, branches
    and single Redis calls; loops are left to the caller. *)
Ltac wp_step :=
  lazymatch goal with
  | |- wp (bind _ _) _ _ _ => apply wp_bind
  | |- wp (ret _) _ _ _ => apply wp_ret
  | |- wp (raise _) _ _ _ => apply wp_raise
  | |- wp (try_except _ _) _ _ _ => apply wp_try
  | |- wp (redis_call _) _ _ _ => apply wp_redis_call
  | |- wp utcnow_isoformat _ _ _ => apply wp_utcnow; intros ?
  | |- wp default_timestamp _ _ _ => apply wp_default_timestamp; intros ?
  | |- wp (if ?b then _ else _) _ _ _ => destruct b eqn:?
  | |- wp (match ?o with Some _ => _ | None => _ end) _ _ _ => destruct o eqn:?
  | |- wp (let '(_, _) := ?p in _) _ _ _ => destruct p eqn:?
  end.

Ltac unfold_redis :=
  unfold redis.lpush, redis.ltrim, redis.lrange, redis.expire, redis.zincrby,
    redis.zrevrange, redis.smembers, redis.sadd, redis.get, redis.setex,
    redis.hgetall_profile, redis.hincrby_interaction_count, redis.hset_last_active,
    redis.hgetall_product, redis.hset_product.

(** ** Invariants kept across a call *)

Lemma preserves_ret {A} I (a : A) : preserves I (ret a).
Proof. intros s H. by apply wp_ret. Qed.

Lemma preserves_raise {A} I e : preserves I (raise e : M A).
Proof. intros s H. by apply wp_raise. Qed.

Lemma preserves_bind {A B} I (m : M A) (k : A → M B) :
  preserves I m → (∀ a, preserves I (k a)) → preserves I (bind m k).
Proof.
  intros Hm Hk s H. apply wp_bind. eapply wp_mono; [by apply Hm| |done].
  intros a s' H'. by apply Hk.
Qed.

Lemma preserves_try {A} I (body : M A) (handler : Exn → M A) :
  preserves I body → (∀ e, preserves I (handler e)) → preserves I (try_except body handler).
Proof.
  intros Hb Hh s H. apply wp_try. eapply wp_mono; [by apply Hb|done|].
  intros s' H' e. by apply Hh.
Qed.

Lemma preserves_redis_call {A} I (f : Store → A * Store) :
  (∀ s, I s → I (f s).2) → preserves I (redis_call f).
Proof. intros Hf s H. apply wp_redis_call; auto. Qed.

Lemma preserves_for_each {A} I (l : list A) (body : A → M unit) :
  (∀ x, preserves I (body x)) → preserves I (for_each l body).
Proof. intros Hb s H. apply wp_for_each; [done|]. intros x s' _ H'. by apply Hb. Qed.

Lemma preserves_for_fold {A B} I (l : list A) (acc : B) (body : B → A → M B) :
  (∀ acc x, preserves I (body acc x)) → preserves I (for_fold l acc body).
Proof.
  intros Hb s H. eapply wp_mono; [apply (wp_for_fold l acc body (λ _, I) I)| |]; try done.
  intros acc' x s' _ H'. by apply Hb.
Qed.

Lemma preserves_utcnow I : preserves I utcnow_isoformat.
Proof. intros s H. by apply wp_utcnow. Qed.

Lemma preserves_default_timestamp I : preserves I default_timestamp.
Proof. intros s H. by apply wp_default_timestamp. Qed.

Ltac preserves_step :=
  lazymatch goal with
  | |- preserves _ (bind _ _) => apply preserves_bind; [|intros ?]
  | |- preserves _ (ret _) => apply preserves_ret
  | |- preserves _ (raise _) => apply preserves_raise
  | |- preserves _ (try_except _ _) => apply preserves_try; [|intros ?]
  | |- preserves _ (for_each _ _) => apply preserves_for_each; intros ?
  | |- preserves _ (for_fold _ _ _) => apply preserves_for_fold; intros ? ?
  | |- preserves _ utcnow_isoformat => apply preserves_utcnow
  | |- preserves _ default_timestamp => apply preserves_default_timestamp
  | |- preserves _ (if ?b then _ else _) => destruct b
  | |- preserves _ (match ?o with Some _ => _ | None => _ end) => destruct o
  | |- preserves _ (let '(_, _) := ?p in _) => destruct p
  end.

(** Splits a program down to its Redis calls, leaving for each the
    store-level obligation. *)
Ltac preserves_calls :=
  repeat first
    [ preserves_step
    | progress unfold_redis
    | apply preserves_redis_call; intros ? ? ].

(** Store-level obligations about a field the call does not write. *)
Ltac frame_solve :=
  repeat match goal with
   | k : ListKey |- _ => destruct k
   | k : ZsetKey |- _ => destruct k
   | k : SetKey |- _ => destruct k
   | k : CacheKey |- _ => destruct k
   end; simpl; repeat case_bool_decide; simpl; try done.


Lemma wp_seq {A B} (m : M A) (k : A → M B) (I : Store → Prop)
    (Q : B → Store → Prop) (E : Store → Prop) s :
  I s → preserves I m → (∀ s', I s' → E s') → (∀ a s', I s' → wp (k a) Q E s') →
  wp (bind m k) Q E s.
Proof.
  intros HI Hm HE Hk. apply wp_bind. eapply wp_mono; [by apply Hm| |done].
  intros a s' H'. by apply Hk.
Qed.

(** ** Calls on a store that answers *)

Lemma succeeds_ret {A} (a : A) : succeeds (ret a).
Proof. intros s now st. by exists a, s. Qed.

Lemma succeeds_bind {A B} (m : M A) (k : A → M B) :
  succeeds m → (∀ a, succeeds (k a)) → succeeds (bind m k).
Proof.
  intros Hm Hk s now st. destruct (Hm s now st) as (a & s' & Ha).
  destruct (Hk a s' now st) as (b & s'' & Hb).
  exists b, s''. unfold bind. by rewrite Ha.
Qed.

Lemma succeeds_try {A} (body : M A) (handler : Exn → M A) :
  succeeds body → succeeds (try_except body handler).
Proof.
  intros Hb s now st. destruct (Hb s now st) as (a & s' & Ha).
  exists a, s'. unfold try_except. by rewrite Ha.
Qed.

Lemma succeeds_redis_call {A} (f : Store → A * Store) : succeeds (redis_call f).
Proof.
  intros s now st. exists (f s).1, (f s).2.
  unfold redis_call, available. simpl. by destruct (f s).
Qed.

Lemma succeeds_for_each {A} (l : list A) (body : A → M unit) :
  (∀ x, succeeds (body x)) → succeeds (for_each l body).
Proof.
  intros Hb. induction l as [|x l IH]; simpl.
  - apply succeeds_ret.
  - apply succeeds_bind; [apply Hb|done].
Qed.

Lemma succeeds_for_fold {A B} (l : list A) (acc : B) (body : B → A → M B) :
  (∀ acc x, succeeds (body acc x)) → succeeds (for_fold l acc body).
Proof.
  intros Hb. revert acc. induction l as [|x l IH]; intros acc; simpl.
  - apply succeeds_ret.
  - apply succeeds_bind; [apply Hb|intros; apply IH].
Qed.

Lemma succeeds_utcnow : succeeds utcnow_isoformat.
Proof. intros s now st. by exists now, s. Qed.

Lemma succeeds_default_timestamp : succeeds default_timestamp.
Proof. intros s now st. by exists st, s. Qed.

Ltac succeeds_step :=
  lazymatch goal with
  | |- succeeds (bind _ _) => apply succeeds_bind; [|intros ?]
  | |- succeeds (ret _) => apply succeeds_ret
  | |- succeeds (try_except _ _) => apply succeeds_try
  | |- succeeds (for_each _ _) => apply succeeds_for_each; intros ?
  | |- succeeds (for_fold _ _ _) => apply succeeds_for_fold; intros ? ?
  | |- succeeds (redis_call _) => apply succeeds_redis_call
  | |- succeeds utcnow_isoformat => apply succeeds_utcnow
  | |- succeeds default_timestamp => apply succeeds_default_timestamp
  | |- succeeds (if ?b then _ else _) => destruct b
  | |- succeeds (match ?o with Some _ => _ | None => _ end) => destruct o
  | |- succeeds (let '(_, _) := ?p in _) => destruct p
  end.

Ltac succeeds_calls := repeat first [ succeeds_step | progress unfold_redis ].


(** ** Running on a store that answers *)

Lemma bind_redis_call {A B} (f : Store → A * Store) (k : A → M B) s now st :
  bind (redis_call f) k (available s now st) = k (f s).1 (available (f s).2 now st).
Proof. unfold bind, redis_call, available. simpl. by destruct (f s). Qed.

Lemma redis_call_available {A} (f : Store → A * Store) s now st :
  redis_call f (available s now st) = (inr (f s).1, available (f s).2 now st).
Proof. unfold redis_call, available. simpl. by destruct (f s). Qed.

Lemma bind_ret {A B} (a : A) (k : A → M B) w : bind (ret a) k w = k a w.
Proof. done. Qed.

Lemma bind_assoc {A B C} (m : M A) (k1 : A → M B) (k2 : B → M C) w :
  bind (bind m k1) k2 w = bind m (λ a, bind (k1 a) k2) w.
Proof. unfold bind. by destruct (m w) as [[e|a] w']. Qed.

Lemma bind_returns {A B} (m : M A) (k : A → M B) w a w' :
  m w = (inr a, w') → bind m k w = k a w'.
Proof. intros H. unfold bind. by rewrite H. Qed.

Lemma try_except_returns {A} (body : M A) handler w a w' :
  body w = (inr a, w') → try_except body handler w = (inr a, w').
Proof. intros H. unfold try_except. by rewrite H. Qed.


Lemma wp_preserves {A} (m : M A) (Q : A → Store → Prop) (I : Store → Prop) :
  (∀ s, I s → wp m Q I s) → (∀ a s, Q a s → I s) → preserves I m.
Proof. intros H HQ s Hs. eapply wp_mono; [by apply H|apply HQ|done]. Qed.

Lemma wp_store {A} (m : M A) (I : Store → Prop) w :
  wp m (λ _, I) I (store w) → I (store (m w).2).
Proof.
  intros H. apply wp_intro in H. by destruct (m w) as [[e|a] w'].
Qed.

Lemma bind_ext {A B} (m : M A) (k1 k2 : A → M B) w :
  (∀ a w', m w = (inr a, w') → k1 a w' = k2 a w') → bind m k1 w = bind m k2 w.
Proof. intros H. unfold bind. destruct (m w) as [[e|a] w'] eqn:Hm; [done|]. by apply H. Qed.

Lemma try_except_ext {A} (body1 body2 : M A) handler w :
  body1 w = body2 w → try_except body1 handler w = try_except body2 handler w.
Proof. intros H. unfold try_except. by rewrite H. Qed.


Lemma for_fold_reads {A B} (l : list A) (acc : B) (body : B → A → M B)
    (g : B → A → B) s now st :
  (∀ acc x, body acc x (available s now st) = (inr (g acc x), available s now st)) →
  for_fold l acc body (available s now st) = (inr (foldl g acc l), available s now st).
Proof.
  intros Hbody. revert acc. induction l as [|x l IH]; intros acc; simpl; [done|].
  by rewrite (bind_returns _ _ _ _ _ (Hbody acc x)).
Qed.

(** * Popularity *)

Lemma weight_of_pos t : 0 < weight_of t.
Proof. by destruct t. Qed.

Lemma Qc_of_Z_0 : Qc_of_Z 0 = 0.
Proof. by apply Qc_is_canon. Qed.

Lemma Qc_of_Z_succ (n : nat) : Qc_of_Z (Z.of_nat (S n)) = Qc_of_Z (Z.of_nat n) + 1.
Proof.
  apply Qc_is_canon. simpl. rewrite Qred_correct.
  rewrite Nat2Z.inj_succ, <- Z.add_1_r, inject_Z_plus. reflexivity.
Qed.

Lemma Qc_of_nat_nonneg (n : nat) : 0 ≤ Qc_of_Z (Z.of_nat n).
Proof.
  induction n as [|n IH].
  - change (Z.of_nat 0) with 0%Z. by rewrite Qc_of_Z_0.
  - rewrite Qc_of_Z_succ. by apply Qcplus_nonneg_nonneg.
Qed.

Lemma _update_co_occurrence_popularity u p X :
  preserves (λ s, popularity s = X) (_update_co_occurrence u p).
Proof.
  unfold _update_co_occurrence, _get_user_interactions. preserves_calls; frame_solve.
Qed.

Lemma _update_user_profile_popularity i X :
  preserves (λ s, popularity s = X) (_update_user_profile i).
Proof. unfold _update_user_profile. preserves_calls; frame_solve. Qed.

(** What one [track_interaction] does to the popularity ranking: the
    product's weight is added once the [try] block is through, and a call
    that fails has added it or not. *)
Lemma track_interaction_body_popularity i s :
  let p := UserInteraction.product_id i in
  let bumped :=
    <[p := popularity_rank s p + weight_of (UserInteraction.interaction_type i)]>
      (popularity s) in
  wp (track_interaction_body i)
    (λ b s', b = true ∧ popularity s' = bumped)
    (λ s', popularity s' = popularity s ∨ popularity s' = bumped) s.
Proof.
  intros p bumped. unfold track_interaction_body.
  do 3 (apply wp_seq with (I := λ s', popularity s' = popularity s);
        [done | preserves_calls; frame_solve | by left | intros _ ? ?]).
  apply wp_bind. unfold redis.zincrby.
  apply wp_redis_call; [by left|]. simpl.
  apply wp_seq with (I := λ s', popularity s' = bumped);
    [ simpl; match goal with H : popularity ?x = _ |- context [popularity ?x] => by rewrite !H end
    | apply _update_co_occurrence_popularity | by right | intros _ ? ?].
  apply wp_seq with (I := λ s', popularity s' = bumped);
    [ done | apply _update_user_profile_popularity | by right | intros _ ? ?].
  by apply wp_ret.
Qed.

Lemma recorded_step i calls w s'' :
  (track_interaction i w).1 = inr true →
  recorded (store (track_interaction i w).2) calls s'' →
  recorded (store w) (i :: calls) s''.
Proof.
  intros H1 H2. eapply recorded_cons; [|exact H2].
  destruct (track_interaction i w) as [r w']. simpl in H1. by subst.
Qed.

Lemma track_interaction_popularity i w :
  let w' := (track_interaction i w).2 in
  ((track_interaction i w).1 = inr true → popularity (store w') = bump i (store w))
  ∧ (popularity (store w') = popularity (store w)
     ∨ popularity (store w') = bump i (store w)).
Proof.
  pose proof (wp_intro _ _ _ w (track_interaction_body_popularity i (store w))) as H.
  unfold track_interaction, try_except. simpl.
  destruct (track_interaction_body i w) as [[e|b] w']; simpl in *.
  - split; [done|exact H].
  - destruct H as [-> H]. split; [done|by right].
Qed.

Lemma popularity_rank_bump i s q :
  popularity_rank (mkStore (interactions s) (bump i s) (co_occurrence s)
     (category_popular s) (purchased s) (category_products s) (user_profile s)
     (product s) (cache_personalized s) (cache_similar s) (cache_trending s)) q
  = popularity_rank s q
    + (if bool_decide (UserInteraction.product_id i = q)
       then weight_of (UserInteraction.interaction_type i) else 0).
Proof.
  unfold popularity_rank, bump at 1. simpl. case_bool_decide as Hq.
  - subst q. by rewrite lookup_insert_eq.
  - rewrite lookup_insert_ne by done. by rewrite Qcplus_0_r.
Qed.

Lemma bump_rank i s s' q :
  popularity s' = bump i s →
  popularity_rank s' q
  = popularity_rank s q
    + (if bool_decide (UserInteraction.product_id i = q)
       then weight_of (UserInteraction.interaction_type i) else 0).
Proof.
  intros H. rewrite <- popularity_rank_bump. unfold popularity_rank. simpl. by rewrite H.
Qed.

Lemma track_interaction_monotone i w q :
  popularity_rank (store w) q ≤ popularity_rank (store (track_interaction i w).2) q.
Proof.
  destruct (track_interaction_popularity i w) as [_ [H|H]].
  - unfold popularity_rank. by rewrite H.
  - rewrite (bump_rank _ _ _ _ H). case_bool_decide.
    + rewrite <- (Qcplus_0_r (popularity_rank (store w) q)) at 1.
      apply Qcplus_le_mono_l, Qclt_le_weak, weight_of_pos.
    + by rewrite Qcplus_0_r.
Qed.

(** C8. Over any run of recorded interactions in which those for [p] are
    purchases, whatever is recorded for other products in between, the
    popularity rank of [p] goes up by exactly 5 for each of them; and no
    call of [track_interaction], recorded or failed, lowers the rank of
    any product. *)
Theorem popularity_after_purchases p calls s s' :
  recorded s calls s' →
  (∀ i, i ∈ calls → UserInteraction.product_id i = p →
        UserInteraction.interaction_type i = PURCHASE) →
  let n := interactions_with p calls in
  popularity_rank s' p = popularity_rank s p + Qc_of_Z (Z.of_nat n) * Qc_of_Z 5
  ∧ ((1 ≤ n)%nat → popularity_rank s p < popularity_rank s' p)
  ∧ (∀ i w q, popularity_rank (store w) q
              ≤ popularity_rank (store (track_interaction i w).2) q).
Proof.
  intros Hrec Hall n.
  assert (Heq : popularity_rank s' p
                = popularity_rank s p + Qc_of_Z (Z.of_nat n) * Qc_of_Z 5).
  { subst n. induction Hrec as [s|i calls w w' s'' Htrack _ IH].
    - unfold interactions_with. rewrite filter_nil.
      change (Z.of_nat (length [])) with 0%Z. rewrite Qc_of_Z_0. ring.
    - rewrite IH by (intros; apply Hall; [by apply elem_of_cons; right|done]).
      destruct (track_interaction_popularity i w) as [Hb _].
      rewrite Htrack in Hb. simpl in Hb. specialize (Hb eq_refl).
      rewrite (bump_rank _ _ _ p Hb).
      unfold interactions_with. rewrite filter_cons. case_bool_decide as Hp.
      + rewrite decide_True by done. simpl length. rewrite Qc_of_Z_succ.
        rewrite (Hall i) by (done || apply elem_of_cons; by left).
        change (weight_of PURCHASE) with (Qc_of_Z 5). ring.
      + rewrite decide_False by done. ring. }
  split; [exact Heq|]. split; [|intros; apply track_interaction_monotone].
  intros Hn. rewrite Heq.
  rewrite <- (Qcplus_0_r (popularity_rank s p)) at 1.
  apply Qcplus_lt_mono_l, Qcmult_pos_pos; [|done].
  destruct n; [lia|]. rewrite Qc_of_Z_succ.
  apply Qcplus_nonneg_pos; [apply Qc_of_nat_nonneg|done].
Qed.
Lemma track_interaction_body_succeeds i : succeeds (track_interaction_body i).
Proof.
  unfold track_interaction_body, _update_co_occurrence, _update_user_profile,
    _get_user_interactions.
  succeeds_calls.
Qed.

Lemma track_interaction_available i s now st :
  (track_interaction i (available s now st)).1 = inr true.
Proof.
  destruct (track_interaction_body_succeeds i s now st) as (b & s' & H).
  pose proof (wp_intro _ _ _ (available s now st)
                (track_interaction_body_popularity i s)) as Hb.
  rewrite H in Hb. destruct Hb as [-> _].
  unfold track_interaction, try_except. by rewrite H.
Qed.

(** * Failure signalling of [track_interaction] *)

(** C10. [track_interaction] never raises, whatever the store holds and
    whichever call to it fails: it returns [True] when every statement in
    its [try] went through and [False] when one raised; and the tracking
    route turns [False] into an [HTTPException] with status 500, and
    [True] into its success message. *)
Theorem track_interaction_never_raises i w :
  (∃ b w', track_interaction i w = (inr b, w'))
  ∧ ((track_interaction i w).1 = inr true
     ↔ ∃ b, (track_interaction_body i w).1 = inr b)
  ∧ ((track_interaction i w).1 = inr false
     ↔ ∃ e, (track_interaction_body i w).1 = inl e)
  ∧ (∀ s now st, (track_interaction i (available s now st)).1 = inr true)
  ∧ (∀ s fs now st, (track_interaction i (mkWorld s (true :: fs) now st)).1 = inr false)
  ∧ (∀ request,
       let interaction :=
         UserInteraction.mk
           (TrackInteractionRequest.user_id request)
           (TrackInteractionRequest.product_id request)
           (TrackInteractionRequest.interaction_type request)
           1 (import_time w)
           (TrackInteractionRequest.metadata request) in
       match api.track_interaction request w with
       | (inr response, w') =>
           track_interaction interaction w = (inr true, w')
           ∧ response = [("message", "Interaction tracked successfully")]
       | (inl e, w') =>
           track_interaction interaction w = (inr false, w')
           ∧ e = HTTPException 500 "Failed to track interaction"
       end).
Proof.
  pose proof (wp_intro _ _ _ w (track_interaction_body_popularity i (store w))) as Hb.
  unfold track_interaction, try_except.
  split; [|split; [|split; [|split; [|split]]]].
  - destruct (track_interaction_body i w) as [[e|b] w']; simpl; eauto.
  - destruct (track_interaction_body i w) as [[e|b] w']; simpl in *.
    + split; [done|]. by intros [? ?].
    + destruct Hb as [-> _]. split; eauto.
  - destruct (track_interaction_body i w) as [[e|b] w']; simpl in *.
    + split; eauto.
    + destruct Hb as [-> _]. split; [done|]. by intros [? ?].
  - apply track_interaction_available.
  - done.
  - intros request. unfold api.track_interaction, bind, default_timestamp.
    set (i' := UserInteraction.mk _ _ _ _ _ _).
    pose proof (wp_intro _ _ _ w (track_interaction_body_popularity i' (store w))) as Hb'.
    unfold track_interaction, try_except.
    destruct (track_interaction_body i' w) as [[e|b] w']; simpl in *; [done|].
    by destruct Hb' as [-> _].
Qed.

(** * Replayed runs *)

Lemma recorded_replay calls s : recorded s calls (replay (Track <$> calls) s).
Proof.
  revert s. induction calls as [|i calls IH]; intros s; [constructor|].
  apply (recorded_step i calls (available s "" "")).
  - apply track_interaction_available.
  - rewrite fmap_cons. unfold replay in *. cbn [foldl serve].
    replace (store (bind (track_interaction i) (λ _, ret tt) (available s "" "")).2)
      with (store (track_interaction i (available s "" "")).2); [apply IH|].
    unfold bind. by destruct (track_interaction i (available s "" "")) as [[e|b] w'].
Qed.

Lemma popularity_after_purchases_witness :
  let calls := [purchase "u1" "P"; view "u2" "Q"; purchase "u2" "P"] in
  let s' := replay (Track <$> calls) empty_store in
  recorded empty_store calls s'
  ∧ popularity_rank s' "P"
    = popularity_rank empty_store "P"
      + Qc_of_Z (Z.of_nat (interactions_with "P" calls)) * Qc_of_Z 5.
Proof.
  intros calls s'. split; [apply recorded_replay|].
  refine (proj1 (popularity_after_purchases "P" calls empty_store s'
                   (recorded_replay calls empty_store) _)).
  intros i Hi Hp. subst calls.
  repeat (apply elem_of_cons in Hi as [->|Hi]; [done|]).
  by apply elem_of_nil in Hi.
Defined.

(** * Symmetry of the co-occurrence graph *)

Lemma elem_of_zrev_all (z : gmap string Qc) b x :
  (b, x) ∈ Redis.zrev_all z ↔ z !! b = Some x.
Proof.
  unfold Redis.zrev_all. rewrite sort_by_Permutation. apply elem_of_map_to_list.
Qed.

Lemma elem_of_co_occurrents s a b x :
  (b, x) ∈ co_occurrents s a ↔ strength s a b = Some x.
Proof. apply elem_of_zrev_all. Qed.

(** The edge strengths after [zincrby co_occurrence:{a} 1 b]. *)
Lemma strength_zincrby s a b v x y :
  strength (zset_put (co_occurrence_key a)
              (<[b := v]> (zset_at (co_occurrence_key a) s)) s) x y
  = if bool_decide (x = a ∧ y = b) then Some v else strength s x y.
Proof.
  unfold strength. simpl.
  destruct (decide (x = a)) as [->|Hx].
  - rewrite lookup_insert_eq. simpl.
    destruct (decide (y = b)) as [->|Hy].
    + rewrite lookup_insert_eq. by rewrite bool_decide_eq_true_2.
    + rewrite lookup_insert_ne by done. rewrite bool_decide_eq_false_2; [done|by intros [? ?]].
  - rewrite lookup_insert_ne by done. rewrite bool_decide_eq_false_2; [done|by intros [? ?]].
Qed.

(** One pass of the loop of [_update_co_occurrence] keeps the graph
    symmetric once it is through. *)
Lemma co_occurrence_edge_symmetric p o s :
  symmetric s →
  wp (redis.zincrby (co_occurrence_key p) 1 o ;;;
      redis.zincrby (co_occurrence_key o) 1 p ;;;
      redis.expire (co_occurrence_key p) (86400 * 7) ;;;
      redis.expire (co_occurrence_key o) (86400 * 7) ;;;
      ret tt)
     (λ _, symmetric) (λ _, True) s.
Proof.
  intros Hsym. unfold redis.zincrby, redis.expire.
  apply wp_bind, wp_redis_call; [done|]. cbn [fst snd].
  apply wp_bind, wp_redis_call; [done|]. cbn [fst snd].
  apply wp_bind, wp_redis_call; [done|]. cbn [fst snd].
  apply wp_bind, wp_redis_call; [done|]. cbn [fst snd].
  apply wp_ret. intros x y.
  rewrite !strength_zincrby.
  change (zset_at (co_occurrence_key ?a) ?s !! ?b) with (strength s a b).
  rewrite !strength_zincrby.
  repeat case_bool_decide; try done; destruct_and?; simplify_eq; try done.
  all: try (f_equal; f_equal; f_equal; apply Hsym).
  all: try naive_solver.
Qed.

Ltac symmetric_frame :=
  match goal with
  | H : symmetric _ |- symmetric _ =>
      let a := fresh in let b := fresh in
      intros a b; specialize (H a b); unfold strength in *; frame_solve
  end.

Lemma _update_co_occurrence_symmetric u p s :
  symmetric s → wp (_update_co_occurrence u p) (λ _, symmetric) (λ _, True) s.
Proof.
  intros Hsym. unfold _update_co_occurrence, _get_user_interactions.
  apply wp_bind, wp_bind. unfold redis.lrange. apply wp_redis_call; [done|].
  apply wp_ret. cbn [fst snd].
  apply wp_for_each; [by destruct (interactions_key u)|].
  intros o s' _ Hs'. by apply co_occurrence_edge_symmetric.
Qed.

Lemma track_interaction_body_symmetric i s :
  symmetric s → wp (track_interaction_body i) (λ _, symmetric) (λ _, True) s.
Proof.
  intros Hsym. unfold track_interaction_body.
  do 4 (apply wp_seq with (I := symmetric);
        [done | preserves_calls; symmetric_frame | done | intros _ ? ?]).
  apply wp_bind. eapply wp_mono; [by apply _update_co_occurrence_symmetric| |done].
  intros ? s5 Hs5. simpl in Hs5.
  apply wp_seq with (I := symmetric);
    [done | unfold _update_user_profile; preserves_calls; symmetric_frame
    | done | intros _ ? ?].
  by apply wp_ret.
Qed.

(** * Each edge update increments both directions by 1 *)

Lemma Qc_of_Z_1 : Qc_of_Z 1 = 1.
Proof. by apply Qc_is_canon. Qed.

Lemma incremented_succ o n :
  Some (default 0 (incremented o n) + 1) = incremented o (S n).
Proof.
  destruct n as [|n].
  - unfold incremented. change (Z.of_nat 1) with 1%Z. by rewrite Qc_of_Z_1.
  - unfold incremented. cbn [default from_option id]. rewrite (Qc_of_Z_succ (S n)).
    f_equal. ring.
Qed.

Lemma occurrences_of_snoc x l y :
  occurrences_of x (l ++ [y])
  = (occurrences_of x l + (if bool_decide (y = x) then 1 else 0))%nat.
Proof.
  unfold occurrences_of. rewrite filter_app, length_app. f_equal.
  rewrite filter_cons, filter_nil. case_bool_decide.
  - by rewrite decide_True.
  - by rewrite decide_False.
Qed.

Lemma pairings_snoc p others o a b :
  o ≠ p →
  pairings p (others ++ [o]) a b
  = (pairings p others a b
     + (if bool_decide ((a = p ∧ b = o) ∨ (a = o ∧ b = p)) then 1 else 0))%nat.
Proof.
  intros Hop. unfold pairings. rewrite !occurrences_of_snoc.
  repeat case_bool_decide; destruct_and?; destruct_or?; destruct_and?;
    simplify_eq; try done; try lia; exfalso; naive_solver.
Qed.

Lemma pairings_sym p others a b : pairings p others a b = pairings p others b a.
Proof. unfold pairings. repeat case_bool_decide; by simplify_eq. Qed.

(** One pass of the loop of [_update_co_occurrence]: both directions of
    the edge between [p] and [o] go up by 1, and nothing else moves. *)
Lemma co_occurrence_edge_incremented p o s :
  o ≠ p →
  wp (redis.zincrby (co_occurrence_key p) 1 o ;;;
      redis.zincrby (co_occurrence_key o) 1 p ;;;
      redis.expire (co_occurrence_key p) (86400 * 7) ;;;
      redis.expire (co_occurrence_key o) (86400 * 7) ;;;
      ret tt)
     (λ _ s',
        interactions s' = interactions s
        ∧ ∀ a b, strength s' a b
                 = if bool_decide ((a = p ∧ b = o) ∨ (a = o ∧ b = p))
                   then Some (default 0 (strength s a b) + 1)
                   else strength s a b)
     (λ _, True) s.
Proof.
  intros Hop. unfold redis.zincrby, redis.expire.
  apply wp_bind, wp_redis_call; [done|]. cbn [fst snd].
  apply wp_bind, wp_redis_call; [done|]. cbn [fst snd].
  apply wp_bind, wp_redis_call; [done|]. cbn [fst snd].
  apply wp_bind, wp_redis_call; [done|]. cbn [fst snd].
  apply wp_ret. split; [done|]. intros a b.
  rewrite !strength_zincrby.
  change (zset_at (co_occurrence_key ?x) ?t !! ?y) with (strength t x y).
  rewrite !strength_zincrby.
  repeat case_bool_decide; try done; destruct_and?; destruct_or?; destruct_and?;
    simplify_eq; try done.
  all: exfalso; naive_solver.
Qed.

Lemma _update_co_occurrence_incremented u p s :
  wp (_update_co_occurrence u p)
     (λ _ s',
        interactions s' = interactions s
        ∧ ∀ a b, strength s' a b = incremented (strength s a b) (edge_updates s u p a b))
     (λ _, True) s.
Proof.
  unfold _update_co_occurrence, _get_user_interactions.
  apply wp_bind, wp_bind. unfold redis.lrange. apply wp_redis_call; [done|].
  apply wp_ret. cbn [fst snd].
  fold (interaction_log s u). fold (read_log s u). fold (recent_others s u p).
  unfold edge_updates.
  apply (wp_for_each_indexed _ _
           (λ seen s', interactions s' = interactions s
                       ∧ ∀ a b, strength s' a b
                                = incremented (strength s a b) (pairings p seen a b))).
  { split; [done|]. intros a b. unfold pairings. by repeat case_bool_decide. }
  intros seen o s1 Ho [Hlog Hs1].
  assert (Hop : o ≠ p).
  { unfold recent_others in Ho.
    apply list_elem_of_fmap in Ho as (i & -> & Hin).
    by apply list_elem_of_filter in Hin as [Hne _]. }
  eapply wp_mono; [by apply co_occurrence_edge_incremented| |done].
  intros _ s2 [Hlog2 Hs2]. split; [congruence|]. intros a b.
  rewrite Hs2, Hs1, pairings_snoc by done.
  case_bool_decide.
  - rewrite Nat.add_1_r. apply incremented_succ.
  - by rewrite Nat.add_0_r.
Qed.

(** Every [track_interaction] that went through incremented each edge in
    both directions, once per other product among the 20 most recent
    entries of the log it left behind. *)
Lemma track_interaction_body_incremented i s :
  wp (track_interaction_body i)
     (λ _ s', ∀ a b,
        strength s' a b
        = incremented (strength s a b)
            (edge_updates s' (UserInteraction.user_id i) (UserInteraction.product_id i) a b))
     (λ _, True) s.
Proof.
  unfold track_interaction_body. cbv zeta.
  unfold redis.lpush, redis.ltrim, redis.expire, redis.zincrby.
  apply wp_bind, wp_redis_call; [done|]. cbn [fst snd].
  apply wp_bind, wp_redis_call; [done|]. cbn [fst snd].
  apply wp_bind, wp_redis_call; [done|]. cbn [fst snd].
  apply wp_bind, wp_redis_call; [done|]. cbn [fst snd].
  match goal with |- wp _ _ _ ?s4 => set (s4' := s4) end.
  assert (Hco : ∀ a b, strength s4' a b = strength s a b) by done.
  clearbody s4'.
  apply wp_bind. eapply wp_mono; [apply _update_co_occurrence_incremented| |done].
  intros _ s5 [Hlog5 Hs5]. cbv beta.
  apply wp_seq with
    (I := λ s', interactions s' = interactions s5 ∧ co_occurrence s' = co_occurrence s5);
    [done | unfold _update_user_profile; preserves_calls;
            (match goal with H : _ ∧ _ |- _ => destruct H as [<- <-] end); frame_solve
    | done | intros _ s6 [Hlog6 Hco6]].
  apply wp_ret. intros a b.
  assert (Hs6 : strength s6 a b = strength s5 a b).
  { unfold strength. simpl. by rewrite Hco6. }
  rewrite Hs6, Hs5, Hco. f_equal.
  unfold edge_updates, recent_others, read_log, interaction_log. by rewrite Hlog6, Hlog5.
Qed.

(** C7. The co-occurrence graph is symmetric as an invariant of
    [track_interaction]: from a symmetric store, after any run of recorded
    interactions (whatever the fault plan and the clock of each call),
    [GetCoOccurrents(a)] holds [b] with strength [x] exactly when
    [GetCoOccurrents(b)] holds [a] with strength [x]. Every call that is
    recorded increments each edge in both directions by the same count,
    1 per other product among the 20 most recent entries of the user's
    log. *)
Theorem co_occurrence_symmetric s calls s' :
  symmetric s → recorded s calls s' →
  symmetric s'
  ∧ (∀ a b x, (b, x) ∈ co_occurrents s' a ↔ (a, x) ∈ co_occurrents s' b)
  ∧ (∀ i w w',
       track_interaction i w = (inr true, w') →
       let u := UserInteraction.user_id i in
       let p := UserInteraction.product_id i in
       ∀ a b,
         strength (store w') a b
         = incremented (strength (store w) a b) (edge_updates (store w') u p a b)
         ∧ edge_updates (store w') u p a b = edge_updates (store w') u p b a
         ∧ (edge_updates (store w') u p a b ≠ 0%nat → a = p ∨ b = p)).
Proof.
  intros Hsym Hrec.
  assert (Hs' : symmetric s').
  { induction Hrec as [s|i calls w w' s'' Htrack _ IH]; [done|].
    apply IH.
    pose proof (wp_intro _ _ _ w (track_interaction_body_symmetric i (store w) Hsym)) as H.
    unfold track_interaction, try_except in Htrack.
    destruct (track_interaction_body i w) as [[e|b] w0]; simplify_eq/=. done. }
  split_and!; [done| |].
  - intros a b x. rewrite !elem_of_co_occurrents. by rewrite Hs'.
  - intros i w w' Htrack u p a b.
    pose proof (wp_intro _ _ _ w (track_interaction_body_incremented i (store w))) as H.
    unfold track_interaction, try_except in Htrack.
    destruct (track_interaction_body i w) as [[e|r] w0]; simplify_eq/=.
    split_and!; [apply H | apply pairings_sym |].
    unfold edge_updates, pairings. repeat case_bool_decide; auto. by intros [].
Qed.

Lemma co_occurrence_symmetric_witness :
  let calls := [view "u" "A"; view "u" "B"; purchase "u" "A"; view "v" "B"] in
  let s' := replay (Track <$> calls) empty_store in
  symmetric empty_store
  ∧ recorded empty_store calls s'
  ∧ symmetric s'
  ∧ strength s' "A" "B" = Some (Qc_of_Z 2)
  ∧ strength s' "B" "A" = Some (Qc_of_Z 2)
  ∧ co_occurrents s' "A" = [("B", Qc_of_Z 2)]
  ∧ co_occurrents s' "B" = [("A", Qc_of_Z 2)].
Proof.
  intros calls s'.
  assert (Hempty : symmetric empty_store) by done.
  split_and!; [done | apply recorded_replay | | compute_done..].
  exact (proj1 (co_occurrence_symmetric empty_store calls s' Hempty
                  (recorded_replay calls empty_store))).
Defined.

(** * Similar items *)

Lemma co_purchases_NoDup s p limit : NoDup (co_purchases s p limit).*1.
Proof. apply range_NoDup_fst, zrev_all_NoDup. Qed.

Lemma co_purchases_strength s p limit id x :
  (id, x) ∈ co_purchases s p limit → strength s p id = Some x.
Proof. intros H. apply elem_of_co_occurrents. by eapply range_subseteq. Qed.

(** [get_similar_products] on a cache miss, the store answering. *)
Lemma get_similar_products_miss p limit s now st :
  cache_similar s !! p = None →
  let out :=
    Py.prefix (Py.sorted_desc RecommendedProduct.score
                 (co_purchase_items s p limit ++ category_items s p limit)) limit in
  get_similar_products p limit (available s now st)
  = (inr out, available (cache_put (similar_cache_key p) out s) now st).
Proof.
  intros Hmiss out.
  unfold get_similar_products. apply try_except_returns.
  unfold redis.get, redis.zrevrange, redis.hgetall_product, redis.smembers, redis.setex.
  rewrite bind_redis_call. cbn [fst snd cache_at]. rewrite Hmiss.
  rewrite bind_redis_call. cbn [fst snd zset_at].
  rewrite bind_redis_call. cbn [fst snd].
  change (Redis.range (Redis.zrev_all (default ∅ (co_occurrence s !! p))) 0 (limit - 1))
    with (co_purchases s p limit).
  set (co := co_purchases s p limit).
  assert (Hco : foldl (λ d '(id, x), Py.set d id
                  (RecommendedProduct.new id x "Frequently bought together")) [] co
                = (λ '(id, x), (id, RecommendedProduct.new id x "Frequently bought together"))
                    <$> co).
  { rewrite foldl_set_fresh; [done|]. apply (co_purchases_NoDup s p limit). }
  assert (Hvals : ∀ l, Py.values (((λ '(id, x),
             (id, RecommendedProduct.new id x "Frequently bought together")) <$> co)
             ++ ((λ pid, (pid, RecommendedProduct.new pid (Q2Qc (1 # 2)) "Same category"))
                   <$> l))
           = co_purchase_items s p limit
             ++ ((λ pid, RecommendedProduct.new pid (Q2Qc (1 # 2)) "Same category") <$> l)).
  { intros l. unfold Py.values, co_purchase_items. fold co.
    rewrite fmap_app, <- !list_fmap_compose. f_equal.
    apply list_fmap_ext. by intros ? [? ?]. }
  assert (Hkeys : Py.keys ((λ '(id, x),
             (id, RecommendedProduct.new id x "Frequently bought together")) <$> co)
           = co.*1).
  { unfold Py.keys. rewrite <- list_fmap_compose. apply list_fmap_ext. by intros ? [? ?]. }
  rewrite Hco.
  assert (Hskip : category_items s p limit = [] →
    bind (ret ((λ '(id, x),
             (id, RecommendedProduct.new id x "Frequently bought together")) <$> co))
      (λ recommendations,
         bind (redis_call (λ s0, (true, cache_put (similar_cache_key p)
                 (Py.prefix (Py.sorted_desc RecommendedProduct.score
                    (Py.values recommendations)) limit) s0)))
           (λ _, ret (Py.prefix (Py.sorted_desc RecommendedProduct.score
                    (Py.values recommendations)) limit)))
      (available s now st)
    = (inr out, available (cache_put (similar_cache_key p) out s) now st)).
  { intros Hnil. rewrite bind_ret, bind_redis_call. cbn [fst snd].
    pose proof (Hvals []) as Hv. rewrite fmap_nil, !app_nil_r in Hv.
    unfold out. by rewrite Hv, Hnil, app_nil_r. }
  unfold category_items, category_candidates, category_of in *.
  set (h := default ∅ (product s !! p)) in *.
  case_bool_decide as Hne.
  - destruct (h !! "category_id") as [c|] eqn:Hc; cbn [default from_option id] in *.
    + case_bool_decide as Hc'.
      * rewrite bind_assoc, bind_redis_call. cbn [fst snd].
        rewrite bind_ret, bind_redis_call. cbn [fst snd].
        rewrite foldl_category_siblings, Hkeys, Hvals. done.
      * by apply Hskip.
    + rewrite bool_decide_eq_false_2 by (intros H; by apply H). by apply Hskip.
  - apply Hskip. by rewrite Hne, lookup_empty.
Qed.

Lemma elem_of_category_items s p limit r :
  r ∈ category_items s p limit →
  RecommendedProduct.product_id r ≠ p
  ∧ (RecommendedProduct.product_id r ∉ (co_purchases s p limit).*1)
  ∧ (r = RecommendedProduct.new (RecommendedProduct.product_id r) (Q2Qc (1 # 2))
           "Same category")
  ∧ (∃ c, category_of s p = Some c
          ∧ RecommendedProduct.product_id r ∈ set_at (category_products_key c) s).
Proof.
  unfold category_items, category_candidates. intros Hr.
  apply list_elem_of_fmap in Hr as (pid & -> & Hpid). simpl.
  apply first_occurrences_spec in Hpid as [Hpid Hco].
  apply list_elem_of_filter in Hpid as [Hp Hpid].
  split_and!; [done..|].
  destruct (category_of s p) as [c|]; [|by apply elem_of_nil in Hpid].
  exists c. split; [done|]. by eapply prefix_subseteq.
Qed.

Lemma elem_of_co_purchase_items s p limit r :
  r ∈ co_purchase_items s p limit ↔
  ∃ x, (RecommendedProduct.product_id r, x) ∈ co_purchases s p limit
       ∧ (r = RecommendedProduct.new (RecommendedProduct.product_id r) x
                "Frequently bought together").
Proof.
  unfold co_purchase_items. rewrite list_elem_of_fmap. split.
  - intros ([id x] & -> & H). by exists x.
  - intros (x & H & ->). by exists (RecommendedProduct.product_id r, x).
Qed.

(** C9. On a cache miss [get_similar_products] returns the co-occurrents
    merged with the category siblings: a sibling is added only when it is
    not the queried product and not already a co-occurrent, at score 0.5;
    a product found both ways keeps its co-occurrence entry; the result is
    sorted by descending score and cut to [limit]; without metadata the
    category step is skipped and the call still returns. *)
Theorem similar_products_merge p limit s now st :
  cache_similar s !! p = None →
  let co := co_purchase_items s p limit in
  let cat := category_items s p limit in
  let out := Py.prefix (Py.sorted_desc RecommendedProduct.score (co ++ cat)) limit in
  (get_similar_products p limit (available s now st)).1 = inr out
  ∧ (∀ r, r ∈ cat →
       RecommendedProduct.product_id r ≠ p
       ∧ (RecommendedProduct.product_id r ∉ (co_purchases s p limit).*1)
       ∧ RecommendedProduct.score r = Q2Qc (1 # 2)
       ∧ RecommendedProduct.reason r = "Same category"
       ∧ (∃ c, category_of s p = Some c
               ∧ RecommendedProduct.product_id r ∈ set_at (category_products_key c) s))
  ∧ (∀ id x, (id, x) ∈ co_purchases s p limit →
       strength s p id = Some x
       ∧ RecommendedProduct.new id x "Frequently bought together" ∈ co ++ cat
       ∧ ∀ r, r ∈ co ++ cat → RecommendedProduct.product_id r = id →
              r = RecommendedProduct.new id x "Frequently bought together")
  ∧ descending RecommendedProduct.score out
  ∧ out ⊆ co ++ cat
  ∧ ((0 ≤ limit)%Z → (Z.of_nat (length out) ≤ limit)%Z)
  ∧ (category_of s p = None →
       out = Py.prefix (Py.sorted_desc RecommendedProduct.score co) limit).
Proof.
  intros Hmiss co cat out. split_and!.
  - by rewrite (get_similar_products_miss p limit s now st Hmiss).
  - intros r Hr. apply elem_of_category_items in Hr as (? & ? & -> & ?). done.
  - intros id x Hx. split_and!.
    + by eapply co_purchases_strength.
    + apply elem_of_app. left. apply elem_of_co_purchase_items. by exists x.
    + intros r Hr Hid. apply elem_of_app in Hr as [Hr|Hr].
      * apply elem_of_co_purchase_items in Hr as (x' & Hx' & ->). simpl in Hid. subst id.
        f_equal. simpl in *.
        pose proof (co_purchases_NoDup s p limit) as Hnd.
        by eapply NoDup_fst_unique.
      * apply elem_of_category_items in Hr as (_ & Hn & _). exfalso. apply Hn.
        rewrite Hid. apply list_elem_of_fmap. by exists (id, x).
  - apply descending_prefix, sorted_desc_descending.
  - intros r Hr. apply prefix_subseteq in Hr. by apply elem_of_sorted_desc in Hr.
  - apply prefix_length.
  - intros Hnone. unfold out, cat, category_items, category_candidates.
    rewrite Hnone. rewrite filter_nil. simpl. by rewrite app_nil_r.
Qed.

Lemma similar_products_merge_witness :
  cache_similar similar_example_store !! "P" = None
  ∧ co_occurrents similar_example_store "P" = [("A", Qc_of_Z 2); ("B", 1)]
  ∧ set_at (category_products_key "c") similar_example_store = ["P"; "B"; "C"]
  ∧ (get_similar_products "P" 10 (available similar_example_store "" "")).1
    = inr [RecommendedProduct.new "A" (Qc_of_Z 2) "Frequently bought together";
           RecommendedProduct.new "B" 1 "Frequently bought together";
           RecommendedProduct.new "C" (Q2Qc (1 # 2)) "Same category"].
Proof.
  assert (cache_similar similar_example_store !! "P" = None) as Hmiss by compute_done.
  split_and!; [done|compute_done|compute_done|].
  destruct (similar_products_merge "P" 10 similar_example_store "" "" Hmiss) as [H _].
  rewrite H. compute_done.
Defined.

(** * What the caches hold *)

Lemma no_category_reason_nil : no_category_reason [].
Proof. intros r Hr. by apply elem_of_nil in Hr. Qed.

Lemma no_category_reason_prefix l n :
  no_category_reason l → no_category_reason (Py.prefix l n).
Proof. intros H r Hr. apply H. by eapply prefix_subseteq. Qed.

Lemma no_category_reason_sorted l :
  no_category_reason l →
  no_category_reason (Py.sorted_desc RecommendedProduct.score l).
Proof. intros H r Hr. apply H. by apply elem_of_sorted_desc in Hr. Qed.

Ltac caches_frame :=
  match goal with
  | H : caches_sound _ |- caches_sound _ =>
      unfold caches_sound, interaction_log in *; frame_solve
  | H : sound_for _ _ |- sound_for _ _ =>
      unfold sound_for, caches_sound, interaction_log in *; frame_solve
  end.

Lemma get_trending_products_sound who limit s :
  sound_for who s →
  wp (get_trending_products limit)
    (λ out s', no_category_reason out ∧ sound_for who s') (sound_for who) s.
Proof.
  intros Hs. unfold get_trending_products, redis.get, redis.zrevrange, redis.setex.
  apply wp_try, wp_bind, wp_redis_call; cbn [fst snd].
  { intros e. apply wp_ret. split; [apply no_category_reason_nil|done]. }
  destruct (cache_at trending_cache_key s) as [l|] eqn:Hl.
  - apply wp_ret. split; [|done]. apply no_category_reason_prefix. by apply Hs.
  - apply wp_bind, wp_redis_call; cbn [fst snd].
    { intros e. apply wp_ret. split; [apply no_category_reason_nil|done]. }
    set (recs := _ <$> _).
    assert (no_category_reason recs) as Hrecs.
    { intros r Hr. apply list_elem_of_fmap in Hr as ([id x] & -> & _). done. }
    assert (sound_for who (cache_put trending_cache_key recs s)) as Hs'.
    { destruct Hs as [[H1 H2] H3]. split; [|exact H3].
      split; [exact H1|]. simpl. by intros l' [= <-]. }
    apply wp_bind, wp_redis_call; cbn [fst snd].
    { intros e. apply wp_ret. split; [apply no_category_reason_nil|done]. }
    by apply wp_ret.
Qed.

Lemma sound_for_None s : sound_for None s ↔ caches_sound s.
Proof. unfold sound_for. naive_solver. Qed.

Lemma get_similar_products_sound who p limit :
  preserves (sound_for who) (get_similar_products p limit).
Proof. unfold get_similar_products. preserves_calls; caches_frame. Qed.

Lemma get_recently_viewed_sound who u limit :
  preserves (sound_for who) (get_recently_viewed u limit).
Proof.
  unfold get_recently_viewed, _get_user_interactions. preserves_calls; caches_frame.
Qed.

Lemma get_frequently_bought_together_sound who ps limit :
  preserves (sound_for who) (get_frequently_bought_together ps limit).
Proof. unfold get_frequently_bought_together. preserves_calls; caches_frame. Qed.

Lemma _collaborative_filtering_sound who u limit s :
  sound_for who s →
  wp (_collaborative_filtering u limit)
    (λ out s', no_category_reason out ∧ sound_for who s') (sound_for who) s.
Proof.
  intros Hs. unfold _collaborative_filtering, _get_user_interactions.
  apply wp_try.
  eapply wp_mono with (Q := λ out s', no_category_reason out ∧ sound_for who s')
                      (E := sound_for who).
  2: done.
  2: { intros s' Hs' e. apply wp_ret. split; [apply no_category_reason_nil|done]. }
  unfold redis.lrange. apply wp_bind, wp_bind, wp_redis_call; [done|].
  cbn [fst snd]. apply wp_ret.
  case_bool_decide.
  { apply wp_ret. split; [apply no_category_reason_nil|]. by destruct (interactions_key u). }
  apply wp_bind.
  eapply wp_mono with (Q := λ _, sound_for who) (E := sound_for who); [| |done].
  - apply (wp_for_fold _ _ _ (λ _, sound_for who)); [by destruct (interactions_key u)|].
    intros acc [q w] s' _ Hs'. unfold redis.zrevrange.
    apply wp_bind, wp_redis_call; [done|]. by apply wp_ret.
  - intros acc s' Hs'. apply wp_ret. split; [|done].
    intros r Hr. apply list_elem_of_fmap in Hr as ([id x] & -> & _). done.
Qed.

Lemma sound_for_lpush who u v s :
  sound_for who s →
  sound_for who (set_interactions (<[u := v :: default [] (interactions s !! u)]>
                                     (interactions s)) s).
Proof.
  unfold sound_for, caches_sound, interaction_log. simpl.
  intros [[H1 H2] H3]. split; [split; [|done]|].
  - intros u' l Hl. destruct (H1 u' l Hl) as [? ?]. split; [done|].
    destruct (decide (u = u')) as [->|?].
    + by rewrite lookup_insert_eq.
    + by rewrite lookup_insert_ne.
  - destruct who as [u'|]; [|done].
    destruct (decide (u = u')) as [->|?].
    + by rewrite lookup_insert_eq.
    + by rewrite lookup_insert_ne.
Qed.

Lemma sound_for_ltrim who u stop s :
  (0 ≤ stop)%Z →
  sound_for who s →
  sound_for who (set_interactions
                   (<[u := Redis.range (default [] (interactions s !! u)) 0 stop]>
                      (interactions s)) s).
Proof.
  unfold sound_for, caches_sound, interaction_log. simpl.
  intros Hstop [[H1 H2] H3]. split; [split; [|done]|].
  - intros u' l Hl. destruct (H1 u' l Hl) as [? ?]. split; [done|].
    destruct (decide (u = u')) as [->|?].
    + rewrite lookup_insert_eq. simpl. by apply range_nonempty.
    + by rewrite lookup_insert_ne.
  - destruct who as [u'|]; [|done].
    destruct (decide (u = u')) as [->|?].
    + rewrite lookup_insert_eq. simpl. by apply range_nonempty.
    + by rewrite lookup_insert_ne.
Qed.

Lemma track_interaction_sound who i : preserves (sound_for who) (track_interaction i).
Proof.
  unfold track_interaction, track_interaction_body, _update_co_occurrence,
    _update_user_profile, _get_user_interactions.
  preserves_calls;
    first [ by apply sound_for_lpush | by apply sound_for_ltrim | caches_frame ].
Qed.


Lemma _get_user_profile_sound who u s :
  sound_for who s →
  wp (_get_user_profile u)
    (λ profile s',
       sound_for who s'
       ∧ ∀ p, profile = Some p → UserProfile.preferred_categories p = [])
    (sound_for who) s.
Proof.
  intros Hs. unfold _get_user_profile, redis.hgetall_profile.
  apply wp_bind, wp_redis_call; [done|]. cbn [fst snd].
  destruct (ProfileHash.is_empty _); apply wp_ret; (split; [done|]).
  - done.
  - by intros p [= <-].
Qed.

Lemma _get_purchased_products_sound who u :
  preserves (sound_for who) (_get_purchased_products u).
Proof. unfold _get_purchased_products. preserves_calls; caches_frame. Qed.

Lemma no_category_reason_dict_set d k r :
  no_category_reason_dict d →
  RecommendedProduct.reason r ≠ "Popular in your favorite categories" →
  no_category_reason_dict (Py.set d k r).
Proof.
  unfold no_category_reason_dict, no_category_reason, Py.values.
  intros Hd Hr. induction d as [|[k' v'] d IH]; simpl.
  - intros r' Hr'. apply list_elem_of_singleton in Hr'. by subst.
  - case_bool_decide.
    + intros r' Hr'. rewrite fmap_cons in Hr'. apply elem_of_cons in Hr' as [->|Hr']; [done|].
      apply Hd. rewrite fmap_cons. apply elem_of_cons. by right.
    + intros r' Hr'. rewrite fmap_cons in Hr'. apply elem_of_cons in Hr' as [->|Hr'].
      * apply Hd. rewrite fmap_cons. apply elem_of_cons. by left.
      * apply IH; [|done]. intros r'' Hr''. apply Hd. rewrite fmap_cons.
        apply elem_of_cons. by right.
Qed.

Lemma no_category_reason_dict_get d k r :
  no_category_reason_dict d → Py.get d k = Some r →
  RecommendedProduct.reason r ≠ "Popular in your favorite categories".
Proof.
  intros Hd Hr. apply Hd. apply get_Some_elem_of in Hr.
  unfold Py.values. apply list_elem_of_fmap. by exists (k, r).
Qed.

Lemma merge_content_no_category_reason ex d r :
  no_category_reason_dict d → no_category_reason_dict (merge_content ex d r).
Proof.
  intros Hd. unfold merge_content. case_bool_decide; [|done].
  destruct (Py.get d _) as [r'|] eqn:Hr'.
  - apply no_category_reason_dict_set; [done|]. simpl.
    by eapply no_category_reason_dict_get.
  - by apply no_category_reason_dict_set.
Qed.

Lemma merge_collaborative_no_category_reason ex d r :
  no_category_reason_dict d →
  RecommendedProduct.reason r ≠ "Popular in your favorite categories" →
  no_category_reason_dict (merge_collaborative ex d r).
Proof.
  intros Hd Hr. unfold merge_collaborative. case_bool_decide; [|done].
  destruct (Py.get d _) as [r'|] eqn:Hr'.
  - apply no_category_reason_dict_set; [done|]. simpl.
    by eapply no_category_reason_dict_get.
  - by apply no_category_reason_dict_set.
Qed.

Lemma foldl_merge_content_no_category_reason ex l d :
  no_category_reason_dict d → no_category_reason_dict (foldl (merge_content ex) d l).
Proof.
  revert d. induction l as [|r l IH]; intros d Hd; simpl; [done|].
  by apply IH, merge_content_no_category_reason.
Qed.

Lemma foldl_merge_collaborative_no_category_reason ex l d :
  no_category_reason_dict d → no_category_reason l →
  no_category_reason_dict (foldl (merge_collaborative ex) d l).
Proof.
  revert d. induction l as [|r l IH]; intros d Hd Hl; simpl; [done|].
  apply IH.
  - apply merge_collaborative_no_category_reason; [done|]. apply Hl, elem_of_cons. by left.
  - intros r' Hr'. apply Hl, elem_of_cons. by right.
Qed.

Lemma sound_for_weaken who s : sound_for who s → sound_for None s.
Proof. by intros [? _]. Qed.

Lemma sound_for_cache_personalized u l s :
  sound_for (Some u) s → no_category_reason l →
  sound_for (Some u) (cache_put (personalized_cache_key u) l s).
Proof.
  unfold sound_for, caches_sound, interaction_log. simpl.
  intros [[H1 H2] H3] Hl. split; [split; [|done]|done].
  intros u' l' Hl'. destruct (decide (u = u')) as [<-|?].
  - rewrite lookup_insert_eq in Hl'. by simplify_eq.
  - rewrite lookup_insert_ne in Hl' by done. by apply H1.
Qed.

Lemma get_personalized_recommendations_body_sound u limit ex s :
  sound_for None s →
  wp (get_personalized_recommendations_body u limit ex)
    (λ out s', no_category_reason out ∧ sound_for None s') (sound_for None) s.
Proof.
  intros Hs. unfold get_personalized_recommendations_body.
  unfold redis.get. apply wp_bind, wp_redis_call; [done|]. cbn [fst snd cache_at].
  destruct (cache_personalized s !! u) as [l|] eqn:Hl.
  { apply wp_ret. split; [|done]. apply no_category_reason_prefix.
    by apply (proj1 (proj1 Hs) u l). }
  unfold _get_user_interactions, redis.lrange.
  apply wp_bind, wp_bind, wp_redis_call; [done|]. cbn [fst snd]. apply wp_ret.
  case_bool_decide as Hlog; [by apply get_trending_products_sound|].
  assert (sound_for (Some u) s) as Hu.
  { split; [apply Hs|]. intros Hnil. apply Hlog. unfold interaction_log in Hnil.
    by rewrite Hnil. }
  clear Hs.
  eapply wp_mono with
    (Q := λ out s', no_category_reason out ∧ sound_for (Some u) s')
    (E := sound_for (Some u)).
  2: { intros out s' [? ?]. split; [done|]. by eapply sound_for_weaken. }
  2: { intros s'. apply sound_for_weaken. }
  apply wp_seq with (I := sound_for (Some u)); [done| |done|].
  { destruct ex; [apply _get_purchased_products_sound|apply preserves_ret]. }
  intros excluded s1 Hs1.
  apply wp_bind.
  eapply wp_mono with (E := sound_for (Some u)); [| |done].
  { apply (wp_for_fold _ _ _
             (λ acc s', sound_for (Some u) s' ∧ no_category_reason_dict acc)).
    - split; [done|]. apply no_category_reason_nil.
    - intros acc p s2 _ [Hs2 Hacc]. apply wp_bind.
      eapply wp_mono; [by apply get_similar_products_sound| |done].
      intros similar s3 Hs3. apply wp_ret. split; [done|].
      by apply foldl_merge_content_no_category_reason. }
  intros recommendations s2 [Hs2 Hrecs]. cbv beta.
  apply wp_bind.
  eapply wp_mono; [by apply _collaborative_filtering_sound| |done].
  intros cf s3 [Hcf Hs3]. cbv beta.
  apply wp_bind.
  eapply wp_mono; [by apply _get_user_profile_sound| |done].
  intros profile s4 [Hs4 Hprofile]. cbv beta.
  assert (Hmerged : no_category_reason_dict
            (foldl (merge_collaborative excluded) recommendations cf))
    by by apply foldl_merge_collaborative_no_category_reason.
  apply wp_bind.
  eapply wp_mono with
    (Q := λ recs s', sound_for (Some u) s' ∧ no_category_reason_dict recs)
    (E := sound_for (Some u)); [| |done].
  { destruct profile as [p|]; [|by apply wp_ret].
    rewrite (Hprofile p eq_refl). rewrite bool_decide_eq_false_2 by (intros H; by apply H).
    by apply wp_ret. }
  intros recs s5 [Hs5 Hrecs5]. cbv beta.
  assert (no_category_reason
            (Py.prefix (Py.sorted_desc RecommendedProduct.score (Py.values recs)) limit))
    as Hout by by apply no_category_reason_prefix, no_category_reason_sorted.
  unfold redis.setex. apply wp_bind, wp_redis_call; [done|]. cbn [fst snd].
  apply wp_ret. split; [done|]. by apply sound_for_cache_personalized.
Qed.

Lemma get_personalized_recommendations_sound u limit ex s :
  sound_for None s →
  wp (get_personalized_recommendations u limit ex)
    (λ out s', no_category_reason out ∧ sound_for None s') (sound_for None) s.
Proof.
  intros Hs. unfold get_personalized_recommendations. apply wp_try.
  eapply wp_mono; [by apply get_personalized_recommendations_body_sound|done|].
  intros s' Hs' e. by apply get_trending_products_sound.
Qed.

Lemma _handle_message_sound topic event :
  preserves (sound_for None) (KafkaEventConsumer._handle_message topic event).
Proof.
  unfold KafkaEventConsumer._handle_message, KafkaEventConsumer._handle_order_event,
    KafkaEventConsumer._handle_product_event, KafkaEventConsumer._handle_user_event,
    new_UserInteraction.
  repeat first
    [ apply track_interaction_sound
    | preserves_step
    | progress unfold_redis
    | apply preserves_redis_call; intros ? ? ];
    caches_frame.
Qed.

Lemma serve_sound r : preserves (sound_for None) (serve r).
Proof.
  destruct r as [i|u limit ex|p limit|limit|u limit|ps limit|topic event]; simpl.
  - apply preserves_bind; [apply track_interaction_sound|intros; apply preserves_ret].
  - apply preserves_bind; [|intros; apply preserves_ret].
    eapply wp_preserves; [apply get_personalized_recommendations_sound|].
    by intros ? ? [_ ?].
  - apply preserves_bind; [apply get_similar_products_sound|intros; apply preserves_ret].
  - apply preserves_bind; [|intros; apply preserves_ret].
    eapply wp_preserves; [apply get_trending_products_sound|].
    by intros ? ? [_ ?].
  - apply preserves_bind; [apply get_recently_viewed_sound|intros; apply preserves_ret].
  - apply preserves_bind; [apply get_frequently_bought_together_sound
                          |intros; apply preserves_ret].
  - apply _handle_message_sound.
Qed.

Lemma reachable_sound s : reachable s → caches_sound s.
Proof.
  intros H. cut (sound_for None s); [by intros [? _]|].
  induction H as [|r w _ IH].
  - split; [|done]. split.
    + intros u0 l0 Hl. exfalso. revert Hl. unfold empty_store.
      cbn [cache_personalized]. done.
    + done.
  - apply (wp_store (serve r) (sound_for None) w). by apply serve_sound.
Qed.


(** * Cold start *)

Lemma get_trending_products_returns limit w :
  ∃ out w', get_trending_products limit w = (inr out, w').
Proof.
  unfold get_trending_products, try_except.
  destruct (bind _ _ w) as [[e|out] w']; simpl; eauto.
Qed.

(** Without a cached entry and without history, whatever call fails, the
    answer is that of [get_trending_products] on the same store and on
    what is left of the fault plan. *)
Lemma cold_start_on_miss u limit ex s fs now st :
  cache_personalized s !! u = None →
  interaction_log s u = [] →
  ∃ fs', get_personalized_recommendations u limit ex (mkWorld s fs now st)
         = get_trending_products limit (mkWorld s fs' now st)
         ∧ (fs = [] → fs' = []).
Proof.
  intros Hmiss Hlog. unfold interaction_log in Hlog.
  assert (Htry : ∀ fs',
    match get_trending_products limit (mkWorld s fs' now st) with
    | (inl e, w') => get_trending_products limit w'
    | (inr a, w') => (inr a, w')
    end = get_trending_products limit (mkWorld s fs' now st)).
  { intros fs'.
    by destruct (get_trending_products_returns limit (mkWorld s fs' now st))
      as (out & w' & ->). }
  unfold get_personalized_recommendations, get_personalized_recommendations_body,
    _get_user_interactions, redis.get, redis.lrange, try_except, bind, redis_call, ret.
  cbn [faults store clock import_time cache_at].
  destruct fs as [|[] fs]; cbn [faults store clock import_time].
  - rewrite Hmiss. cbn [faults store clock import_time]. rewrite Hlog.
    change (Redis.range [] 0 99) with (@nil InteractionData.t).
    rewrite bool_decide_eq_true_2 by done.
    exists []. split; [apply Htry|done].
  - exists fs. split; [|done]. done.
  - rewrite Hmiss. cbn [faults store clock import_time].
    destruct fs as [|[] fs]; cbn [faults store clock import_time]; rewrite ?Hlog.
    + change (Redis.range [] 0 99) with (@nil InteractionData.t).
      rewrite bool_decide_eq_true_2 by done.
      exists []. split; [apply Htry|done].
    + exists fs. split; [|done]. done.
    + change (Redis.range [] 0 99) with (@nil InteractionData.t).
      rewrite bool_decide_eq_true_2 by done.
      exists fs. split; [apply Htry|done].
Qed.

Lemma reachable_replay rs s : reachable s → reachable (replay rs s).
Proof.
  revert s. induction rs as [|r rs IH]; intros s Hs; [done|].
  unfold replay in *. cbn [foldl]. apply IH.
  by apply (reachable_serve r (available s "" "")).
Qed.

(** C6. For a user whose interaction log is empty, and every limit,
    [get_personalized_recommendations] is [get_trending_products] on the
    same store: the same result and the same store afterwards, with no
    blending. This holds in every store the system can reach, where a
    user without history has no personalized cache entry, and in every
    other store without such an entry. When calls to the store fail, the
    answer is still that of [get_trending_products] on the rest of the
    fault plan. *)
Theorem cold_start_is_trending u limit (ex : bool) s :
  interaction_log s u = [] →
  reachable s ∨ cache_personalized s !! u = None →
  cache_personalized s !! u = None
  ∧ (∀ now st,
       get_personalized_recommendations u limit ex (available s now st)
       = get_trending_products limit (available s now st))
  ∧ (∀ fs now st, ∃ fs',
       get_personalized_recommendations u limit ex (mkWorld s fs now st)
       = get_trending_products limit (mkWorld s fs' now st)).
Proof.
  intros Hlog Hs.
  assert (cache_personalized s !! u = None) as Hmiss.
  { destruct Hs as [Hreach|Hmiss]; [|done].
    destruct (cache_personalized s !! u) as [l|] eqn:Hl; [|done].
    by destruct (proj1 (reachable_sound s Hreach) u l Hl) as [_ ?]. }
  split_and!; [done| |].
  - intros now st.
    destruct (cold_start_on_miss u limit ex s [] now st Hmiss Hlog) as (fs' & H & Hfs).
    by rewrite (Hfs eq_refl) in H.
  - intros fs now st.
    destruct (cold_start_on_miss u limit ex s fs now st Hmiss Hlog) as (fs' & H & _).
    eauto.
Qed.

Lemma cold_start_is_trending_witness :
  interaction_log trending_example_store "u" = []
  ∧ reachable trending_example_store
  ∧ (get_personalized_recommendations "u" 10 true
       (available trending_example_store "" "")).1
    = inr [RecommendedProduct.new "P2" (Qc_of_Z 5) "Trending now";
           RecommendedProduct.new "P1" 1 "Trending now"].
Proof.
  assert (reachable trending_example_store) as Hreach.
  { apply reachable_replay. constructor. }
  split; [compute_done|]. split; [done|].
  rewrite (proj1 (proj2 (cold_start_is_trending "u" 10 true trending_example_store
                           ltac:(compute_done) (or_introl Hreach))) "" "").
  compute_done.
Defined.

(** * The category signal *)

Lemma _get_user_profile_categories u w profile w' :
  _get_user_profile u w = (inr (Some profile), w') →
  UserProfile.preferred_categories profile = [].
Proof.
  unfold _get_user_profile, bind. destruct (redis.hgetall_profile u w) as [[e|h] w0]; [done|].
  destruct (ProfileHash.is_empty h); unfold ret; intros [= <- _]; done.
Qed.

Lemma category_branch_unreachable u limit ex w :
  get_personalized_recommendations u limit ex w
  = get_personalized_recommendations_without_category_branch u limit ex w.
Proof.
  unfold get_personalized_recommendations,
    get_personalized_recommendations_without_category_branch,
    get_personalized_recommendations_body.
  apply try_except_ext. apply bind_ext. intros [cached|] w1 _; [done|].
  apply bind_ext. intros interactions w2 _. case_bool_decide; [done|].
  apply bind_ext. intros excluded w3 _.
  apply bind_ext. intros recommendations w4 _.
  apply bind_ext. intros cf w5 _.
  apply bind_ext. intros profile w6 Hprofile.
  destruct profile as [p|]; [|done].
  rewrite (_get_user_profile_categories _ _ _ _ Hprofile).
  by rewrite bool_decide_eq_false_2 by (intros Hne; by apply Hne).
Qed.

Lemma serve_category_popular r X : preserves (λ s, category_popular s = X) (serve r).
Proof.
  destruct r; unfold serve, track_interaction, track_interaction_body,
    get_personalized_recommendations, get_personalized_recommendations_body,
    get_similar_products, get_trending_products, get_recently_viewed,
    get_frequently_bought_together, _update_co_occurrence, _update_user_profile,
    _get_user_interactions, _get_purchased_products, _collaborative_filtering,
    _get_user_profile, _get_category_recommendations,
    KafkaEventConsumer._handle_message, KafkaEventConsumer._handle_order_event,
    KafkaEventConsumer._handle_product_event, KafkaEventConsumer._handle_user_event,
    new_UserInteraction, track_interaction, track_interaction_body,
    _update_co_occurrence, _update_user_profile, _get_user_interactions.
  all: preserves_calls; frame_solve.
Qed.

Lemma _get_category_recommendations_empty categories limit s :
  category_popular s = ∅ →
  wp (_get_category_recommendations categories limit)
    (λ out s', out = [] ∧ category_popular s' = ∅) (λ _, False) s.
Proof.
  intros Hs. unfold _get_category_recommendations. apply wp_try, wp_bind.
  eapply wp_mono with (Q := λ acc s', acc = [] ∧ category_popular s' = ∅)
                      (E := λ s', category_popular s' = ∅).
  - apply (wp_for_fold _ _ _ (λ acc s', acc = [] ∧ category_popular s' = ∅)); [done|].
    intros acc c s' _ [-> Hs']. unfold redis.zrevrange.
    apply wp_bind, wp_redis_call; [done|]. apply wp_ret. cbn [fst snd zset_at].
    split; [|done]. rewrite Hs', lookup_empty. cbn [default from_option id].
    by rewrite zrev_all_empty, range_nil.
  - intros acc s' [-> Hs']. apply wp_ret. split; [apply prefix_nil|done].
  - intros s' Hs' e. by apply wp_ret.
Qed.

Lemma reachable_category_popular s : reachable s → category_popular s = ∅.
Proof.
  induction 1 as [|r w _ IH]; [done|].
  apply (wp_store (serve r) (λ s, category_popular s = ∅) w).
  by apply serve_category_popular.
Qed.

(** C3. The category signal contributes nothing, in any store:
    [_get_user_profile] never fills [preferred_categories], so that
    [get_personalized_recommendations] is the function without its
    category branch, and no item it returns carries the reason of that
    branch unless a cache already held it, which no reachable store does.
    Besides, nothing writes [category:{id}:popular]: the ranking that
    [_get_category_recommendations] reads stays empty and the function
    returns no item. *)
Theorem category_signal_contributes_nothing :
  (∀ u w profile w',
     _get_user_profile u w = (inr (Some profile), w') →
     UserProfile.preferred_categories profile = [])
  ∧ (∀ u limit ex w,
       get_personalized_recommendations u limit ex w
       = get_personalized_recommendations_without_category_branch u limit ex w)
  ∧ (∀ u limit ex w out w',
       caches_sound (store w) →
       get_personalized_recommendations u limit ex w = (inr out, w') →
       no_category_reason out)
  ∧ (∀ s, reachable s → caches_sound s ∧ category_popular s = ∅)
  ∧ (∀ r w, category_popular (store (serve r w).2) = category_popular (store w))
  ∧ (∀ categories limit w,
       category_popular (store w) = ∅ →
       (_get_category_recommendations categories limit w).1 = inr []).
Proof.
  split_and!.
  - apply _get_user_profile_categories.
  - apply category_branch_unreachable.
  - intros u limit ex w out w' Hs Hrun.
    pose proof (wp_intro _ _ _ w
      (get_personalized_recommendations_sound u limit ex (store w)
         (proj2 (sound_for_None _) Hs))) as H.
    rewrite Hrun in H. by destruct H.
  - intros s Hs. split; [by apply reachable_sound|by apply reachable_category_popular].
  - intros r w.
    apply (wp_store (serve r) (λ s, category_popular s = category_popular (store w)) w).
    by apply serve_category_popular.
  - intros categories limit w Hw.
    pose proof (wp_intro _ _ _ w
      (_get_category_recommendations_empty categories limit (store w) Hw)) as H.
    destruct (_get_category_recommendations categories limit w) as [[e|out] w']; [done|].
    simpl. by destruct H as [-> _].
Qed.

Lemma category_signal_contributes_nothing_witness :
  (_get_user_profile "u" (available profile_example_store "" "")).1
  = inr (Some (UserProfile.mk "u" [] [] 0 (Qc_of_Z 10000) 7
                 (Some "2024-05-01T10:00:00")))
  ∧ caches_sound (replay [Track (view "u" "P1")] empty_store)
  ∧ (get_personalized_recommendations "u" 10 true
       (available profile_example_store "" "")).1
    = inr [RecommendedProduct.new "P2" 1 "Similar to items you viewed"].
Proof.
  split; [compute_done|]. split.
  - apply (proj1 (proj1 (proj2 (proj2 (proj2 category_signal_contributes_nothing)))
                   _ (reachable_replay _ _ reachable_empty))).
  - compute_done.
Defined.

(** * Collaborative filtering *)

Lemma keys_user_products_of log :
  Py.keys (user_products_of log)
  = first_occurrences [] (InteractionData.product_id <$> log).
Proof.
  unfold user_products_of.
  cut (∀ d, Py.keys (foldl (λ d i, Py.set d (InteractionData.product_id i)
                                      (InteractionData.score i)) d log)
            = Py.keys d ++ first_occurrences (Py.keys d)
                             (InteractionData.product_id <$> log)).
  { intros H. apply (H []). }
  induction log as [|i log IH]; intros d.
  - simpl. by rewrite app_nil_r.
  - rewrite fmap_cons. cbn [foldl first_occurrences]. rewrite IH.
    case_bool_decide.
    + by rewrite keys_set_present.
    + rewrite keys_set_fresh by done. by rewrite <- app_assoc.
Qed.

Lemma elem_of_keys_user_products_of log p :
  p ∈ Py.keys (user_products_of log) ↔ p ∈ InteractionData.product_id <$> log.
Proof.
  rewrite keys_user_products_of, first_occurrences_spec.
  split; [by intros [? _]|]. intros H. split; [done|apply not_elem_of_nil].
Qed.

(** The weight kept for a product all of whose entries carry the same
    one. *)
Lemma get_user_products_of_uniform log p w :
  p ∈ InteractionData.product_id <$> log →
  (∀ i, i ∈ log → InteractionData.product_id i = p → InteractionData.score i = w) →
  Py.get (user_products_of log) p = Some w.
Proof.
  unfold user_products_of.
  cut (∀ d, (p ∈ InteractionData.product_id <$> log ∨ Py.get d p = Some w) →
            (∀ i, i ∈ log → InteractionData.product_id i = p →
                  InteractionData.score i = w) →
            Py.get (foldl (λ d i, Py.set d (InteractionData.product_id i)
                                    (InteractionData.score i)) d log) p = Some w).
  { intros H Hin Hall. apply H; [by left|done]. }
  induction log as [|i log IH]; intros d Hin Hall.
  - destruct Hin as [Hin|Hin]; [by apply elem_of_nil in Hin|done].
  - cbn [foldl]. apply IH.
    + rewrite get_set. rewrite fmap_cons in Hin.
      destruct (decide (InteractionData.product_id i = p)) as [Hp|Hp].
      * right. rewrite bool_decide_eq_true_2 by done. f_equal.
        apply Hall; [apply elem_of_cons; by left|done].
      * rewrite bool_decide_eq_false_2 by done.
        destruct Hin as [Hin|Hin]; [|by right].
        apply elem_of_cons in Hin as [Hin|Hin]; [by subst|by left].
    + intros i' Hi'. apply Hall. apply elem_of_cons. by right.
Qed.

(** The weight kept for a product is the one of its oldest entry read:
    the comprehension runs over the log, newest first, and a later entry
    overwrites an earlier one. *)
Lemma get_user_products_of_oldest log p :
  Py.get (user_products_of log) p
  = InteractionData.score
      <$> last (filter (λ i, InteractionData.product_id i = p) log).
Proof.
  unfold user_products_of.
  cut (∀ d, Py.get (foldl (λ d i, Py.set d (InteractionData.product_id i)
                                     (InteractionData.score i)) d log) p
            = match last (filter (λ i, InteractionData.product_id i = p) log) with
              | Some i => Some (InteractionData.score i)
              | None => Py.get d p
              end).
  { intros H. rewrite (H []). by destruct (last _). }
  induction log as [|i log IH]; intros d; [done|].
  cbn [foldl]. rewrite IH, filter_cons, get_set.
  destruct (decide (InteractionData.product_id i = p)) as [Hp|Hp].
  - rewrite last_cons, bool_decide_eq_true_2 by done. by destruct (last _).
  - by rewrite bool_decide_eq_false_2.
Qed.


Lemma _collaborative_filtering_available u limit s now st :
  let log := read_log s u in
  _collaborative_filtering u limit (available s now st)
  = (inr (if bool_decide (length log < Settings.min_interactions_for_cf)%nat then []
          else (λ '(pid, score),
                  RecommendedProduct.new pid score "Customers like you also bought")
                 <$> Py.prefix (Py.sorted_desc snd (cf_scores s log)) limit),
     available s now st).
Proof.
  intros log. unfold _collaborative_filtering. apply try_except_returns.
  unfold _get_user_interactions, redis.lrange, redis.zrevrange.
  rewrite bind_assoc, bind_redis_call. cbn [fst snd]. rewrite bind_ret.
  fold (interaction_log s u). fold (read_log s u). fold log.
  case_bool_decide; [done|].
  erewrite bind_returns; [reflexivity|].
  rewrite (for_fold_reads _ _ _
    (λ recommendations '(product_id, weight),
       foldl (λ recommendations '(co_product, score),
                if negb (Py.contains (user_products_of log) co_product)
                then Py.add recommendations co_product (score * weight)
                else recommendations)
             recommendations
             (Redis.range (co_occurrents s product_id) 0 20))).
  2: { intros acc [p w]. by rewrite bind_redis_call. }
  f_equal. f_equal. f_equal. f_equal.
  unfold cf_scores, cf_contributions. rewrite foldl_bind.
  apply foldl_ext. intros acc [p w]. rewrite foldl_bind.
  apply foldl_ext. intros acc' [n x].
  destruct (Py.contains (user_products_of log) n) eqn:Hc; simpl.
  - apply contains_elem_of in Hc. by rewrite bool_decide_eq_true_2.
  - rewrite bool_decide_eq_false_2; [done|].
    intros Hin. apply contains_elem_of in Hin. congruence.
Qed.

Lemma elem_of_cf_contributions s log n c :
  (n, c) ∈ cf_contributions s log ↔
  ∃ p w x, (p, w) ∈ Py.prefix (user_products_of log) 10
           ∧ (n, x) ∈ Redis.range (co_occurrents s p) 0 20
           ∧ (n ∉ InteractionData.product_id <$> log)
           ∧ c = x * w.
Proof.
  unfold cf_contributions. rewrite list_elem_of_bind. split.
  - intros ([p w] & Hin & Hpw). apply list_elem_of_bind in Hin as ([n' x] & Hin & Hx).
    case_bool_decide as Hn; [by apply elem_of_nil in Hin|].
    apply list_elem_of_singleton in Hin as [= -> ->].
    exists p, w, x. split_and!; [done..| |done].
    by rewrite <- elem_of_keys_user_products_of.
  - intros (p & w & x & Hpw & Hx & Hn & ->). exists (p, w). split; [|done].
    apply list_elem_of_bind. exists (n, x). split; [|done].
    rewrite bool_decide_eq_false_2; [apply list_elem_of_singleton; done|].
    by rewrite elem_of_keys_user_products_of.
Qed.

Lemma cf_scores_NoDup s log : NoDup (Py.keys (cf_scores s log)).
Proof.
  unfold cf_scores. rewrite keys_foldl_add. apply first_occurrences_NoDup.
Qed.

Lemma get_cf_scores s log n :
  Py.get (cf_scores s log) n
  = if bool_decide (n ∈ (cf_contributions s log).*1)
    then Some (sum_for n (cf_contributions s log)) else None.
Proof.
  unfold cf_scores. case_bool_decide.
  - rewrite get_foldl_add_present by done. f_equal. simpl. ring.
  - by rewrite get_foldl_add_absent.
Qed.

(** C4. With at least 5 entries read from the log, each of the first 10
    distinct products among them gives [strength * weight] to every
    co-occurrent fetched for it that is not a product of the entries
    read; a candidate's score is the sum of what it is given; the output
    holds no product of the entries read and is sorted by descending
    score. Two things are not as claimed. The weight of a product is the
    one of its oldest entry read, so that a product viewed and later
    purchased weighs as a view: in [cf_example_store] the neighbour of
    the purchased product scores 1, as the neighbour of a product only
    viewed. And what is fetched per product is [zrevrange key 0 20],
    which is 21 co-occurrents and not 20: in [cf_fetch_store] one product
    of the user gives 21 candidates. *)
Theorem cf_weighs_oldest_entry_and_fetches_21 :
  (∀ u limit s now st,
     let log := read_log s u in
     let table := user_products_of log in
     let contributions := cf_contributions s log in
     let scores := cf_scores s log in
     let out :=
       (λ '(pid, score),
          RecommendedProduct.new pid score "Customers like you also bought")
         <$> Py.prefix (Py.sorted_desc snd scores) limit in
     (Settings.min_interactions_for_cf ≤ length log)%nat →
     (_collaborative_filtering u limit (available s now st)).1 = inr out
     ∧ Py.keys table = first_occurrences [] (InteractionData.product_id <$> log)
     ∧ (∀ n c, (n, c) ∈ contributions ↔
               ∃ p w x, (p, w) ∈ Py.prefix table 10
                        ∧ (n, x) ∈ Redis.range (co_occurrents s p) 0 20
                        ∧ (n ∉ InteractionData.product_id <$> log)
                        ∧ c = x * w)
     ∧ (∀ n, Py.get scores n
             = if bool_decide (n ∈ contributions.*1)
               then Some (sum_for n contributions) else None)
     ∧ (∀ r, r ∈ out →
             (RecommendedProduct.product_id r ∉ InteractionData.product_id <$> log)
             ∧ Py.get scores (RecommendedProduct.product_id r)
               = Some (RecommendedProduct.score r)
             ∧ RecommendedProduct.reason r = "Customers like you also bought")
     ∧ descending RecommendedProduct.score out)
  ∧ (∀ log p,
       Py.get (user_products_of log) p
       = InteractionData.score
           <$> last (filter (λ i, InteractionData.product_id i = p) log))
  ∧ (∀ log p t,
       p ∈ InteractionData.product_id <$> log →
       (∀ i, i ∈ log → InteractionData.product_id i = p → logged_as t i) →
       Py.get (user_products_of log) p = Some (weight_of t))
  ∧ (∀ x, 0 < x → x * weight_of VIEW < x * weight_of PURCHASE)
  ∧ (∀ s p,
       length (Redis.range (co_occurrents s p) 0 20)
       = (length (co_occurrents s p) `min` 21)%nat)
  ∧ (InteractionData.product_id <$> read_log cf_example_store "u")
    = ["A"; "A"; "D"; "C"; "B"]
  ∧ (InteractionData.type <$> read_log cf_example_store "u")
    = ["purchase"; "view"; "view"; "view"; "view"]
  ∧ purchased cf_example_store !! "u" = Some ["A"]
  ∧ strength cf_example_store "A" "X" = Some 1
  ∧ strength cf_example_store "B" "Y" = Some 1
  ∧ Py.get (user_products_of (read_log cf_example_store "u")) "A" = Some (weight_of VIEW)
  ∧ Py.get (user_products_of (read_log cf_example_store "u")) "B" = Some (weight_of VIEW)
  ∧ cf_contributions cf_example_store (read_log cf_example_store "u")
    = [("X", 1); ("Y", 1)]
  ∧ (_collaborative_filtering "u" 10 (available cf_example_store "" "")).1
    = inr [RecommendedProduct.new "X" 1 "Customers like you also bought";
           RecommendedProduct.new "Y" 1 "Customers like you also bought"]
  ∧ (InteractionData.product_id <$> read_log cf_fetch_store "v")
    = ["P"; "P"; "P"; "P"; "P"]
  ∧ (co_occurrents cf_fetch_store "P").*1 = reverse cf_fetch_neighbours
  ∧ length (co_occurrents cf_fetch_store "P") = 21%nat
  ∧ (_collaborative_filtering "v" 50 (available cf_fetch_store "" "")).1
    = inr ((λ n, RecommendedProduct.new n 1 "Customers like you also bought")
             <$> reverse cf_fetch_neighbours).
Proof.
  split_and!; [| | | | |compute_done..].
  - intros u limit s now st log table contributions scores out Hlen.
    subst table contributions scores out. split_and!.
    + rewrite _collaborative_filtering_available. cbn [fst]. fold log.
      rewrite bool_decide_eq_false_2 by lia. done.
    + apply keys_user_products_of.
    + apply elem_of_cf_contributions.
    + apply get_cf_scores.
    + intros r Hr. apply list_elem_of_fmap in Hr as ([n c] & -> & Hnc). cbn.
      apply prefix_subseteq, elem_of_sorted_desc in Hnc.
      assert (Py.get (cf_scores s log) n = Some c) as Hget
        by (apply elem_of_get; [apply cf_scores_NoDup|done]).
      split_and!; [|done..].
      rewrite get_cf_scores in Hget. case_bool_decide as Hin; [|done].
      apply list_elem_of_fmap in Hin as ([n' c'] & -> & Hin).
      apply elem_of_cf_contributions in Hin as (? & ? & ? & _ & _ & ? & _). done.
    + apply descending_fmap.
      assert (descending snd (Py.prefix (Py.sorted_desc snd (cf_scores s log)) limit))
        as H by apply descending_prefix, sorted_desc_descending.
      eapply descending_ext; [|exact H]. by intros [? ?].
  - apply get_user_products_of_oldest.
  - intros log p t Hp Hall. apply get_user_products_of_uniform; [done|].
    intros i Hi Hip. by destruct (Hall i Hi Hip).
  - intros x Hx. apply Qcmult_lt_mono_pos_l; [done|]. done.
  - intros s p. rewrite range_from_zero by done. rewrite length_take.
    change (Z.to_nat (20 + 1)) with 21%nat. lia.
Qed.


(** * Blending the signals *)

Lemma get_merge_signal excluded d c pid :
  Py.get (merge_signal excluded d c) pid
  = if bool_decide (RecommendedProduct.product_id c.2 = pid
                    ∧ RecommendedProduct.product_id c.2 ∉ excluded)
    then absorb (Py.get d pid) c else Py.get d pid.
Proof.
  destruct c as [sig r]. unfold merge_signal, absorb. cbn [fst snd].
  destruct sig; unfold merge_content, merge_collaborative, merge_category;
    cbn [signal_factor introduce].
  all: case_bool_decide as Hex;
    [|rewrite bool_decide_eq_false_2; [done|by intros [_ ?]]].
  all: destruct (decide (RecommendedProduct.product_id r = pid)) as [<-|Hpid];
    [rewrite bool_decide_eq_true_2 by done
    |rewrite bool_decide_eq_false_2 by (by intros [? _])].
  all: destruct (Py.get d (RecommendedProduct.product_id r)) as [r'|] eqn:Hr';
    rewrite get_set.
  all: try rewrite bool_decide_eq_true_2 by done.
  all: try (rewrite bool_decide_eq_false_2 by done).
  all: try done.
  by rewrite Qcmult_1_r.
Qed.

Lemma get_foldl_merge_signal excluded l d pid :
  pid ∉ excluded →
  Py.get (foldl (merge_signal excluded) d l) pid
  = foldl absorb (Py.get d pid) (occurrences pid l).
Proof.
  intros Hex. revert d. induction l as [|c l IH]; intros d; [done|].
  cbn [foldl]. rewrite IH, get_merge_signal. unfold occurrences. rewrite filter_cons.
  destruct (decide (RecommendedProduct.product_id c.2 = pid)) as [Hc|Hc].
  - rewrite bool_decide_eq_true_2; [done|]. split; [done|]. by rewrite Hc.
  - rewrite bool_decide_eq_false_2; [done|]. by intros [? _].
Qed.

Lemma get_foldl_merge_signal_excluded excluded l d pid :
  pid ∈ excluded →
  Py.get (foldl (merge_signal excluded) d l) pid = Py.get d pid.
Proof.
  intros Hex. revert d. induction l as [|c l IH]; intros d; [done|].
  cbn [foldl]. rewrite IH, get_merge_signal.
  rewrite bool_decide_eq_false_2; [done|]. intros [<- ?]. done.
Qed.

Lemma add_score_add_score a b r :
  RecommendedProduct.add_score b (RecommendedProduct.add_score a r)
  = RecommendedProduct.add_score (a + b) r.
Proof. unfold RecommendedProduct.add_score. simpl. f_equal. ring. Qed.

Lemma add_score_0 r : RecommendedProduct.add_score 0 r = r.
Proof.
  destruct r. unfold RecommendedProduct.add_score. simpl. f_equal. ring.
Qed.

Lemma foldl_absorb_Some r later :
  foldl absorb (Some r) later
  = Some (RecommendedProduct.add_score
            (foldr Qcplus 0
               ((λ c, RecommendedProduct.score c.2 * signal_factor c.1) <$> later)) r).
Proof.
  revert r. induction later as [|c later IH]; intros r.
  - simpl. by rewrite add_score_0.
  - cbn [foldl]. unfold absorb at 2. rewrite IH, add_score_add_score, fmap_cons. done.
Qed.

Lemma foldl_absorb_None occ : foldl absorb None occ = merged_entry occ.
Proof.
  destruct occ as [|[sig r] later]; [done|].
  cbn [foldl merged_entry]. unfold absorb at 2. apply foldl_absorb_Some.
Qed.

Lemma foldl_signals excluded content cf cat d :
  foldl (merge_category excluded)
    (foldl (merge_collaborative excluded) (foldl (merge_content excluded) d content) cf)
    cat
  = foldl (merge_signal excluded) d (signal_items content cf cat).
Proof.
  unfold signal_items. rewrite !foldl_app, !foldl_fmap. done.
Qed.

Lemma keyed_by_product_set d k r :
  keyed_by_product d → RecommendedProduct.product_id r = k →
  keyed_by_product (Py.set d k r).
Proof.
  intros [Hnd Hd] Hr. split; [by apply keys_set_NoDup|].
  intros k' r' H. apply elem_of_set in H as [[= -> ->]|H]; [done|by apply Hd].
Qed.

Lemma keyed_by_product_merge_signal excluded d c :
  keyed_by_product d → keyed_by_product (merge_signal excluded d c).
Proof.
  intros Hd. destruct c as [sig r]. unfold merge_signal. cbn [fst snd].
  destruct sig; unfold merge_content, merge_collaborative, merge_category.
  all: case_bool_decide; [|done].
  all: destruct (Py.get d _) as [r'|] eqn:Hr';
    (apply keyed_by_product_set; [done|]); try done.
  all: apply get_Some_elem_of in Hr'; simpl; by apply (proj2 Hd).
Qed.

Lemma keyed_by_product_foldl excluded l d :
  keyed_by_product d → keyed_by_product (foldl (merge_signal excluded) d l).
Proof.
  revert d. induction l as [|c l IH]; intros d Hd; [done|].
  by apply IH, keyed_by_product_merge_signal.
Qed.

Lemma keyed_by_product_get d r :
  keyed_by_product d → r ∈ Py.values d →
  Py.get d (RecommendedProduct.product_id r) = Some r.
Proof.
  intros [Hnd Hd] Hr. unfold Py.values in Hr.
  apply list_elem_of_fmap in Hr as ([k r'] & -> & Hin). cbn [snd].
  rewrite (Hd _ _ Hin). by apply elem_of_get.
Qed.

(** The merge rule on any three lists of items. *)
Lemma merged_get excluded content cf cat pid :
  Py.get (foldl (merge_category excluded)
            (foldl (merge_collaborative excluded)
               (foldl (merge_content excluded) [] content) cf) cat) pid
  = if bool_decide (pid ∈ excluded) then None
    else merged_entry (occurrences pid (signal_items content cf cat)).
Proof.
  rewrite foldl_signals. case_bool_decide.
  - by rewrite get_foldl_merge_signal_excluded.
  - rewrite get_foldl_merge_signal by done. apply foldl_absorb_None.
Qed.

Lemma merged_values excluded content cf cat r :
  r ∈ Py.values (foldl (merge_category excluded)
                   (foldl (merge_collaborative excluded)
                      (foldl (merge_content excluded) [] content) cf) cat) →
  (RecommendedProduct.product_id r ∉ excluded)
  ∧ merged_entry (occurrences (RecommendedProduct.product_id r)
                    (signal_items content cf cat)) = Some r.
Proof.
  intros Hr.
  assert (keyed_by_product
            (foldl (merge_category excluded)
               (foldl (merge_collaborative excluded)
                  (foldl (merge_content excluded) [] content) cf) cat)) as Hk.
  { rewrite foldl_signals. apply keyed_by_product_foldl. split; [constructor|].
    intros k r' H. by apply elem_of_nil in H. }
  pose proof (keyed_by_product_get _ _ Hk Hr) as Hget.
  rewrite merged_get in Hget. by case_bool_decide.
Qed.

(** ** [get_personalized_recommendations] on a store that answers *)

Lemma get_similar_products_succeeds p limit : succeeds (get_similar_products p limit).
Proof. unfold get_similar_products. succeeds_calls. Qed.

Lemma content_loop_available excluded products acc s now st :
  for_fold products acc
    (λ recommendations product_id,
       similar <- get_similar_products product_id 5 ;;
       ret (foldl (merge_content excluded) recommendations similar))
    (available s now st)
  = (inr (foldl (merge_content excluded) acc (similar_runs products s now st).1),
     available (similar_runs products s now st).2 now st).
Proof.
  revert acc s. induction products as [|p ps IH]; intros acc s; [done|].
  cbn [for_fold similar_runs].
  destruct (get_similar_products_succeeds p 5 s now st) as (similar & s' & Hrun).
  rewrite Hrun. cbn [fst snd store].
  rewrite (bind_returns _ _ _ (foldl (merge_content excluded) acc similar)
             (available s' now st)).
  - rewrite IH. by rewrite foldl_app.
  - by rewrite (bind_returns _ _ _ _ _ Hrun).
Qed.

Lemma _get_user_profile_available u s now st :
  ∃ profile, _get_user_profile u (available s now st) = (inr profile, available s now st).
Proof.
  unfold _get_user_profile, redis.hgetall_profile. rewrite bind_redis_call.
  cbn [fst snd]. destruct (ProfileHash.is_empty _); eauto.
Qed.

Lemma _get_purchased_products_available u s now st :
  _get_purchased_products u (available s now st)
  = (inr (list_to_set (set_at (purchased_key u) s)), available s now st).
Proof.
  unfold _get_purchased_products, redis.smembers. by rewrite bind_redis_call.
Qed.

Lemma get_personalized_recommendations_miss u limit (ex : bool) s now st :
  cache_personalized s !! u = None →
  read_log s u ≠ [] →
  let excluded : gset string :=
    if ex then list_to_set (set_at (purchased_key u) s) else ∅ in
  let runs :=
    similar_runs (InteractionData.product_id <$> Py.prefix (read_log s u) 10) s now st in
  let merged :=
    foldl (merge_category excluded)
      (foldl (merge_collaborative excluded)
         (foldl (merge_content excluded) [] runs.1)
         (collaborative_items runs.2 u 10)) (@nil RecommendedProduct.t) in
  let out :=
    Py.prefix (Py.sorted_desc RecommendedProduct.score (Py.values merged)) limit in
  get_personalized_recommendations u limit ex (available s now st)
  = (inr out, available (cache_put (personalized_cache_key u) out runs.2) now st).
Proof.
  intros Hmiss Hlog excluded runs merged out.
  rewrite category_branch_unreachable.
  unfold get_personalized_recommendations_without_category_branch.
  apply try_except_returns.
  unfold redis.get. rewrite bind_redis_call. cbn [fst snd cache_at]. rewrite Hmiss.
  unfold _get_user_interactions, redis.lrange.
  rewrite bind_assoc, bind_redis_call. cbn [fst snd]. rewrite bind_ret.
  fold (interaction_log s u). fold (read_log s u).
  rewrite bool_decide_eq_false_2 by done.
  assert (Hex : (if ex then _get_purchased_products u else ret ∅) (available s now st)
                = (inr excluded, available s now st)).
  { unfold excluded. destruct ex; [apply _get_purchased_products_available|done]. }
  rewrite (bind_returns _ _ _ _ _ Hex).
  erewrite bind_returns; [|apply content_loop_available].
  fold runs.
  erewrite bind_returns; [|apply _collaborative_filtering_available].
  destruct (_get_user_profile_available u runs.2 now st) as (profile & Hprofile).
  erewrite bind_returns; [|exact Hprofile].
  unfold redis.setex. rewrite bind_redis_call. done.
Qed.

(** C2. Merging the signals in their fixed order (content, collaborative,
    category): a product that is not excluded gets one entry, introduced
    by the first item of its product id, whose reason it keeps; every
    later item of that product only adds its share to the score.  On a
    cache miss, for a user with history and with the store answering,
    [get_personalized_recommendations] returns these entries, sorted by
    descending score and cut to [limit]. *)
Theorem personalized_merge_rule :
  (∀ excluded content cf cat pid,
     Py.get (foldl (merge_category excluded)
               (foldl (merge_collaborative excluded)
                  (foldl (merge_content excluded) [] content) cf) cat) pid
     = if bool_decide (pid ∈ excluded) then None
       else merged_entry (occurrences pid (signal_items content cf cat)))
  ∧ (∀ sig r later e,
       merged_entry ((sig, r) :: later) = Some e →
       RecommendedProduct.reason e
       = match sig with
         | Content => "Similar to items you viewed"
         | Collaborative => RecommendedProduct.reason r
         | Category => "Popular in your favorite categories"
         end
       ∧ RecommendedProduct.score e
         = RecommendedProduct.score r
           + foldr Qcplus 0
               ((λ c, RecommendedProduct.score c.2 * signal_factor c.1) <$> later))
  ∧ (∀ u limit (ex : bool) s now st,
       cache_personalized s !! u = None →
       read_log s u ≠ [] →
       let excluded : gset string :=
         if ex then list_to_set (set_at (purchased_key u) s) else ∅ in
       let runs :=
         similar_runs (InteractionData.product_id <$> Py.prefix (read_log s u) 10)
           s now st in
       let cf := collaborative_items runs.2 u 10 in
       let merged :=
         foldl (merge_category excluded)
           (foldl (merge_collaborative excluded)
              (foldl (merge_content excluded) [] runs.1) cf)
           (@nil RecommendedProduct.t) in
       let out :=
         Py.prefix (Py.sorted_desc RecommendedProduct.score (Py.values merged)) limit in
       (get_personalized_recommendations u limit ex (available s now st)).1 = inr out
       ∧ ∀ r, r ∈ out →
              (RecommendedProduct.product_id r ∉ excluded)
              ∧ merged_entry (occurrences (RecommendedProduct.product_id r)
                                (signal_items runs.1 cf [])) = Some r).
Proof.
  split_and!.
  - apply merged_get.
  - intros sig r later e [= <-]. by destruct sig.
  - intros u limit ex s now st Hmiss Hlog excluded runs cf merged out. split.
    + by rewrite (get_personalized_recommendations_miss u limit ex s now st Hmiss Hlog).
    + intros r Hr. apply prefix_subseteq, elem_of_sorted_desc in Hr.
      by apply merged_values in Hr.
Qed.

Lemma personalized_merge_rule_witness :
  Py.get (foldl (merge_category ∅)
            (foldl (merge_collaborative ∅)
               (foldl (merge_content ∅) []
                  [RecommendedProduct.new "P" (Qc_of_Z 2) "Frequently bought together"])
               [RecommendedProduct.new "P" (Qc_of_Z 3) "Customers like you also bought"])
            [RecommendedProduct.new "P" (Qc_of_Z 10) "Popular in category"]) "P"
  = Some (RecommendedProduct.new "P" (Qc_of_Z 8) "Similar to items you viewed")
  ∧ cache_personalized blend_example_store !! "u" = None
  ∧ read_log blend_example_store "u" ≠ []
  ∧ (get_personalized_recommendations "u" 10 true
       (available blend_example_store "" "")).1
    = inr [RecommendedProduct.new "D" (Q2Qc (5 # 2)) "Similar to items you viewed";
           RecommendedProduct.new "C" (Q2Qc (5 # 2)) "Similar to items you viewed";
           RecommendedProduct.new "B" (Q2Qc (5 # 2)) "Similar to items you viewed";
           RecommendedProduct.new "A" (Q2Qc (5 # 2)) "Similar to items you viewed";
           RecommendedProduct.new "Z" (Qc_of_Z 2) "Similar to items you viewed"].
Proof.
  destruct personalized_merge_rule as (Hget & _ & Hrun).
  split; [rewrite Hget; compute_done|].
  assert (cache_personalized blend_example_store !! "u" = None) as Hmiss by compute_done.
  assert (read_log blend_example_store "u" ≠ []) as Hlog by compute_done.
  split; [done|]. split; [done|].
  rewrite (proj1 (Hrun "u" 10%Z true blend_example_store "" "" Hmiss Hlog)).
  compute_done.
Defined.
(** * The personalized cache and the purchased set *)

(** A cached entry is returned as it is, whatever the flag. *)
Lemma get_personalized_recommendations_hit u limit (ex : bool) s l now st :
  cache_personalized s !! u = Some l →
  get_personalized_recommendations u limit ex (available s now st)
  = (inr (Py.prefix l limit), available s now st).
Proof.
  intros Hhit. unfold get_personalized_recommendations. apply try_except_returns.
  unfold get_personalized_recommendations_body, redis.get.
  rewrite bind_redis_call. cbn [fst snd cache_at]. by rewrite Hhit.
Qed.

(** Computed afresh, the answer holds no purchased product when the flag
    is set. *)
Lemma get_personalized_recommendations_miss_excludes u limit s now st out :
  cache_personalized s !! u = None →
  read_log s u ≠ [] →
  (get_personalized_recommendations u limit true (available s now st)).1 = inr out →
  ∀ r, r ∈ out → RecommendedProduct.product_id r ∉ set_at (purchased_key u) s.
Proof.
  intros Hmiss Hlog Hout r Hr.
  rewrite (get_personalized_recommendations_miss u limit true s now st Hmiss Hlog) in Hout.
  injection Hout as <-.
  apply prefix_subseteq, elem_of_sorted_desc in Hr.
  apply (merged_values _ _ _ []) in Hr as [Hex _].
  by rewrite elem_of_list_to_set in Hex.
Qed.

(** C1. With [exclude_purchased] set, an answer computed afresh holds no
    product of the user's purchased set; an answer found in the cache is
    returned as it is, whatever the flag: after two purchases and a call
    without the flag, the call with the flag returns both purchased
    products. *)
Theorem personalized_serves_purchased_from_cache :
  (∀ u limit (ex : bool) s l now st,
     cache_personalized s !! u = Some l →
     get_personalized_recommendations u limit ex (available s now st)
     = (inr (Py.prefix l limit), available s now st))
  ∧ (∀ u limit s now st out,
       cache_personalized s !! u = None →
       read_log s u ≠ [] →
       (get_personalized_recommendations u limit true (available s now st)).1 = inr out →
       ∀ r, r ∈ out → RecommendedProduct.product_id r ∉ set_at (purchased_key u) s)
  ∧ purchased stale_cache_store !! "u" = Some ["P1"; "P2"]
  ∧ cache_personalized stale_cache_store !! "u"
    = Some [RecommendedProduct.new "P1" 1 "Similar to items you viewed";
            RecommendedProduct.new "P2" 1 "Similar to items you viewed"]
  ∧ (get_personalized_recommendations "u" 10 true
       (available stale_cache_store "" "")).1
    = inr [RecommendedProduct.new "P1" 1 "Similar to items you viewed";
           RecommendedProduct.new "P2" 1 "Similar to items you viewed"].
Proof.
  split_and!.
  - apply get_personalized_recommendations_hit.
  - apply get_personalized_recommendations_miss_excludes.
  - compute_done.
  - compute_done.
  - compute_done.
Qed.

(** * Frequently bought together *)

Lemma get_frequently_bought_together_available product_ids limit s now st :
  get_frequently_bought_together product_ids limit (available s now st)
  = (inr ((λ '(pid, score),
             RecommendedProduct.new pid score "Frequently bought together")
            <$> Py.prefix (Py.sorted_desc snd (fbt_scores s product_ids limit)) limit),
     available s now st).
Proof.
  unfold get_frequently_bought_together. apply try_except_returns.
  unfold redis.zrevrange. cbv zeta.
  erewrite bind_returns; [reflexivity|].
  rewrite (for_fold_reads _ _ _
    (λ recommendations product_id,
       foldl (λ recommendations '(similar_id, score),
                if bool_decide (similar_id ∉ (list_to_set product_ids : gset string))
                then Py.add recommendations similar_id score
                else recommendations)
             recommendations
             (Redis.range (co_occurrents s product_id) 0 (limit * 2)))).
  2: { intros acc p. by rewrite bind_redis_call. }
  f_equal. f_equal.
  unfold fbt_scores, fbt_contributions. rewrite foldl_bind.
  apply foldl_ext. intros acc p. rewrite foldl_bind.
  apply foldl_ext. intros acc' [n x].
  case_bool_decide as Hn; rewrite elem_of_list_to_set in Hn.
  - by rewrite bool_decide_eq_false_2.
  - rewrite bool_decide_eq_true_2; [done|]. by destruct (decide (n ∈ product_ids)).
Qed.

Lemma elem_of_fbt_contributions s product_ids limit n x :
  (n, x) ∈ fbt_contributions s product_ids limit ↔
  ∃ p, p ∈ product_ids
       ∧ (n, x) ∈ Redis.range (co_occurrents s p) 0 (limit * 2)
       ∧ n ∉ product_ids.
Proof.
  unfold fbt_contributions. rewrite list_elem_of_bind. split.
  - intros (p & Hin & Hp). apply list_elem_of_bind in Hin as ([n' x'] & Hin & Hx).
    case_bool_decide as Hn; [by apply elem_of_nil in Hin|].
    apply list_elem_of_singleton in Hin as [= -> ->]. eauto.
  - intros (p & Hp & Hx & Hn). exists p. split; [|done].
    apply list_elem_of_bind. exists (n, x). split; [|done].
    rewrite bool_decide_eq_false_2 by done. by apply list_elem_of_singleton.
Qed.

Lemma get_fbt_scores s product_ids limit n :
  Py.get (fbt_scores s product_ids limit) n
  = if bool_decide (n ∈ (fbt_contributions s product_ids limit).*1)
    then Some (sum_for n (fbt_contributions s product_ids limit)) else None.
Proof.
  unfold fbt_scores. case_bool_decide.
  - rewrite get_foldl_add_present by done. f_equal. simpl. ring.
  - by rewrite get_foldl_add_absent.
Qed.

Lemma fbt_scores_NoDup s product_ids limit : NoDup (Py.keys (fbt_scores s product_ids limit)).
Proof.
  unfold fbt_scores. rewrite keys_foldl_add. apply first_occurrences_NoDup.
Qed.

(** The number of elements a [zrevrange key 0 stop] gives. *)
Lemma range_from_zero_length {A} (l : list A) stop :
  (0 ≤ stop)%Z → length (Redis.range l 0 stop) = (length l `min` Z.to_nat (stop + 1))%nat.
Proof.
  intros Hstop. rewrite range_from_zero by done. rewrite length_take. lia.
Qed.

(** C5. [get_frequently_bought_together] sums, for each candidate, the
    strengths fetched for it across the input products, returns no input
    product, and returns the candidates by descending score, cut to
    [limit]; with P1 and P2 purchased together by three users it answers
    P2 at 3 for P1. What it fetches per input product is
    [zrevrange key 0 (limit * 2)], which is [2 * limit + 1] co-occurrents
    and not [2 * limit]: with [limit = 1] the third co-occurrent of P1
    decides the answer. *)
Theorem fbt_fetches_one_past_twice_limit :
  (∀ product_ids limit s now st,
     let contributions := fbt_contributions s product_ids limit in
     let scores := fbt_scores s product_ids limit in
     let out :=
       (λ '(pid, score), RecommendedProduct.new pid score "Frequently bought together")
         <$> Py.prefix (Py.sorted_desc snd scores) limit in
     (get_frequently_bought_together product_ids limit (available s now st)).1 = inr out
     ∧ (∀ n x, (n, x) ∈ contributions ↔
               ∃ p, p ∈ product_ids
                    ∧ (n, x) ∈ Redis.range (co_occurrents s p) 0 (limit * 2)
                    ∧ n ∉ product_ids)
     ∧ (∀ n, Py.get scores n
             = if bool_decide (n ∈ contributions.*1)
               then Some (sum_for n contributions) else None)
     ∧ (∀ r, r ∈ out →
             (RecommendedProduct.product_id r ∉ product_ids)
             ∧ Py.get scores (RecommendedProduct.product_id r)
               = Some (RecommendedProduct.score r))
     ∧ descending RecommendedProduct.score out
     ∧ ((0 ≤ limit)%Z → (length out ≤ Z.to_nat limit)%nat))
  ∧ (∀ s p limit,
       (0 ≤ limit)%Z →
       length (Redis.range (co_occurrents s p) 0 (limit * 2))
       = (length (co_occurrents s p) `min` Z.to_nat (2 * limit + 1))%nat)
  ∧ (get_frequently_bought_together ["P1"] 5 (available fbt_scenario_store "" "")).1
    = inr [RecommendedProduct.new "P2" (Qc_of_Z 3) "Frequently bought together"]
  ∧ co_occurrents fbt_store "P1"
    = [("A", Qc_of_Z 4); ("B", Qc_of_Z 3); ("C", Qc_of_Z 2)]
  ∧ co_occurrents fbt_store "P2" = [("C", Qc_of_Z 3)]
  ∧ Redis.range (co_occurrents fbt_store "P1") 0 (1 * 2)
    = [("A", Qc_of_Z 4); ("B", Qc_of_Z 3); ("C", Qc_of_Z 2)]
  ∧ (get_frequently_bought_together ["P1"; "P2"] 1 (available fbt_store "" "")).1
    = inr [RecommendedProduct.new "C" (Qc_of_Z 5) "Frequently bought together"].
Proof.
  split_and!; [|..|compute_done|compute_done|compute_done|compute_done|compute_done].
  - intros product_ids limit s now st contributions scores out.
    subst contributions scores out. split_and!.
    + by rewrite get_frequently_bought_together_available.
    + apply elem_of_fbt_contributions.
    + apply get_fbt_scores.
    + intros r Hr. apply list_elem_of_fmap in Hr as ([n c] & -> & Hnc). cbn.
      apply prefix_subseteq, elem_of_sorted_desc in Hnc.
      assert (Py.get (fbt_scores s product_ids limit) n = Some c) as Hget
        by (apply elem_of_get; [apply fbt_scores_NoDup|done]).
      split; [|done].
      rewrite get_fbt_scores in Hget. case_bool_decide as Hin; [|done].
      apply list_elem_of_fmap in Hin as ([n' c'] & -> & Hin).
      by apply elem_of_fbt_contributions in Hin as (? & _ & _ & ?).
    + apply descending_fmap.
      assert (descending snd
                (Py.prefix (Py.sorted_desc snd (fbt_scores s product_ids limit)) limit))
        as H by apply descending_prefix, sorted_desc_descending.
      eapply descending_ext; [|exact H]. by intros [? ?].
    + intros Hlimit. rewrite length_fmap.
      pose proof (prefix_length (Py.sorted_desc snd (fbt_scores s product_ids limit))
                    limit Hlimit).
      lia.
  - intros s p limit Hlimit. rewrite range_from_zero_length by lia.
    do 2 f_equal. lia.
Qed.
(** * Queries answer within their limit *)

Lemma wp_always_returns {A} (m : M A) (Q : A → Prop) :
  (∀ s, wp m (λ a _, Q a) (λ _, False) s) → always_returns m Q.
Proof.
  intros H w. specialize (H (store w)). apply wp_intro in H.
  destruct (m w) as [[e|a] w']; [done|]. eauto.
Qed.

Lemma always_returns_wp {A} (m : M A) (Q : A → Prop) (E : Store → Prop) s :
  always_returns m Q → wp m (λ a _, Q a) E s.
Proof.
  intros H fs now st. by destruct (H (mkWorld s fs now st)) as (a & w' & -> & HQ).
Qed.

Lemma within_nil limit : (0 ≤ limit)%Z → within limit [].
Proof. unfold within. simpl. lia. Qed.

Lemma within_prefix limit (l : list RecommendedProduct.t) :
  (0 ≤ limit)%Z → within limit (Py.prefix l limit).
Proof. apply prefix_length. Qed.

Lemma within_range limit (l : list (string * Qc)) (f : string * Qc → RecommendedProduct.t) :
  (1 ≤ limit)%Z → within limit (f <$> Redis.range l 0 (limit - 1)).
Proof.
  intros Hl. unfold within. rewrite length_fmap, range_from_zero by lia.
  rewrite length_take. lia.
Qed.

(** Steps through a program whose every Redis call may fail into the
    handler of the enclosing [try]. *)
Ltac wp_calls :=
  repeat first
    [ progress unfold_redis
    | wp_step
    | progress cbn [fst snd] ].

Lemma get_trending_products_within limit :
  (1 ≤ limit)%Z → always_returns (get_trending_products limit) (within limit).
Proof.
  intros Hl. apply wp_always_returns. intros s.
  unfold get_trending_products.
  apply wp_try. apply wp_bind. unfold redis.get. apply wp_redis_call.
  { intros e. apply wp_ret. apply within_nil. lia. }
  cbn [fst snd]. destruct (cache_at trending_cache_key s) as [l|].
  - apply wp_ret. apply within_prefix. lia.
  - apply wp_bind. unfold redis.zrevrange. apply wp_redis_call.
    { intros e. apply wp_ret. apply within_nil. lia. }
    cbn [fst snd]. apply wp_bind. unfold redis.setex. apply wp_redis_call.
    { intros e. apply wp_ret. apply within_nil. lia. }
    apply wp_ret. by apply within_range.
Qed.

Ltac handled := intros ?; apply wp_ret; apply within_nil; lia.

Lemma get_similar_products_within p limit :
  (0 ≤ limit)%Z → always_returns (get_similar_products p limit) (within limit).
Proof.
  intros Hl. apply wp_always_returns. intros s.
  unfold get_similar_products.
  apply wp_try. apply wp_bind. unfold redis.get. apply wp_redis_call; [handled|].
  cbn [fst snd]. destruct (cache_at (similar_cache_key p) s) as [l|].
  - apply wp_ret. apply within_prefix. lia.
  - apply wp_bind. unfold redis.zrevrange. apply wp_redis_call; [handled|].
    cbn [fst snd]. apply wp_bind. unfold redis.hgetall_product.
    apply wp_redis_call; [handled|]. cbn [fst snd].
    apply wp_bind.
    apply wp_mono with (Q := λ _ _, True) (E := λ s', ∀ e : Exn,
      wp (ret [] : M (list RecommendedProduct.t)) (λ a _, within limit a) (λ _, False) s').
    + repeat case_bool_decide; try by apply wp_ret.
      apply wp_bind. unfold redis.smembers. apply wp_redis_call; [handled|].
      by apply wp_ret.
    + intros recs s' _. apply wp_bind. unfold redis.setex.
      apply wp_redis_call; [handled|]. apply wp_ret. apply within_prefix. lia.
    + done.
Qed.

Lemma first_occurrences_seen_ext seen seen' l :
  (∀ x, x ∈ seen ↔ x ∈ seen') → first_occurrences seen l = first_occurrences seen' l.
Proof.
  revert seen seen'. induction l as [|x l IH]; intros seen seen' H; [done|].
  cbn [first_occurrences]. rewrite (bool_decide_ext _ _ (H x)).
  case_bool_decide; [by apply IH|]. f_equal. apply IH.
  intros y. rewrite !elem_of_app. by rewrite H.
Qed.

(** The scan of [get_recently_viewed], entered with fewer than [limit]
    items found. *)
Lemma recently_viewed_scan limit viewed (seen : gset string) seenl recommendations :
  (∀ x, x ∈ seen ↔ x ∈ seenl) →
  (Z.of_nat (length recommendations) < limit)%Z →
  (fix loop (viewed : list InteractionData.t) (seen : gset string)
            (recommendations : list RecommendedProduct.t) :=
     match viewed with
     | [] => recommendations
     | interaction :: rest =>
         let product_id := InteractionData.product_id interaction in
         let '(seen, recommendations) :=
           if bool_decide (product_id ∉ seen)
           then ({[product_id]} ∪ seen,
                 recommendations ++ [RecommendedProduct.new product_id 1 "Recently viewed"])
           else (seen, recommendations) in
         if bool_decide (limit ≤ Z.of_nat (length recommendations))%Z
         then recommendations
         else loop rest seen recommendations
     end) viewed seen recommendations
  = recommendations
    ++ ((λ p, RecommendedProduct.new p 1 "Recently viewed")
          <$> take (Z.to_nat (limit - Z.of_nat (length recommendations)))
                (first_occurrences seenl (InteractionData.product_id <$> viewed))).
Proof.
  revert seen seenl recommendations.
  induction viewed as [|i rest IH]; intros seen seenl recs Hseen Hlen.
  - simpl. by rewrite take_nil, app_nil_r.
  - rewrite fmap_cons. cbn [first_occurrences].
    destruct (decide (InteractionData.product_id i ∈ seen)) as [Hin|Hin].
    + rewrite (bool_decide_eq_false_2 (_ ∉ seen)) by (intros ?; done).
      rewrite (bool_decide_eq_true_2 (_ ∈ seenl)) by (by apply Hseen).
      rewrite bool_decide_eq_false_2 by lia. by apply IH.
    + rewrite (bool_decide_eq_true_2 (_ ∉ seen)) by done.
      rewrite (bool_decide_eq_false_2 (_ ∈ seenl)) by (by rewrite <- Hseen).
      rewrite length_app. cbn [length].
      case_bool_decide as Hfull.
      * replace (Z.to_nat (limit - Z.of_nat (length recs))) with 1%nat by lia.
        cbn [take fmap list_fmap]. by rewrite take_0.
      * rewrite (IH _ (seenl ++ [InteractionData.product_id i])).
        -- rewrite <- app_assoc. f_equal. rewrite length_app. cbn [length].
           replace (Z.to_nat (limit - Z.of_nat (length recs)))
             with (S (Z.to_nat (limit - Z.of_nat (length recs + 1)))) by lia.
           done.
        -- intros x. rewrite elem_of_union, elem_of_singleton, elem_of_app,
             list_elem_of_singleton, Hseen. tauto.
        -- rewrite length_app. simpl. lia.
Qed.

Lemma get_recently_viewed_available u limit s now st :
  get_recently_viewed u limit (available s now st)
  = (inr ((λ p, RecommendedProduct.new p 1 "Recently viewed")
            <$> take (Z.to_nat (Z.max 1 limit)) (viewed_products s u)),
     available s now st).
Proof.
  unfold get_recently_viewed. apply try_except_returns.
  unfold _get_user_interactions, redis.lrange.
  rewrite bind_assoc, bind_redis_call. cbn [fst snd]. rewrite !bind_ret.
  fold (interaction_log s u). fold (read_log s u). unfold ret. f_equal. f_equal.
  unfold viewed_products.
  set (viewed := filter _ (read_log s u)).
  destruct (decide (1 ≤ limit)%Z) as [Hl|Hl].
  - rewrite (recently_viewed_scan limit viewed ∅ [] []); [|set_solver|simpl; lia].
    cbn [app length]. do 3 f_equal. lia.
  - replace (Z.to_nat (1 `max` limit)) with 1%nat by lia.
    destruct viewed as [|i rest]; [done|].
    rewrite fmap_cons. cbn [first_occurrences].
    rewrite (bool_decide_eq_false_2 (_ ∈ [])) by apply not_elem_of_nil.
    rewrite (bool_decide_eq_true_2 (_ ∉ ∅)) by set_solver.
    cbn [app length]. rewrite bool_decide_eq_true_2 by lia.
    cbn [take fmap list_fmap]. by rewrite take_0.
Qed.

Lemma get_recently_viewed_within u limit :
  (1 ≤ limit)%Z → always_returns (get_recently_viewed u limit) (within limit).
Proof.
  intros Hl. apply wp_always_returns. intros s.
  unfold get_recently_viewed, _get_user_interactions.
  apply wp_try. apply wp_bind, wp_bind. unfold redis.lrange.
  apply wp_redis_call; [handled|]. cbn [fst snd].
  apply wp_ret, wp_ret.
  rewrite (recently_viewed_scan limit _ ∅ [] []); [|set_solver|simpl; lia].
  unfold within. cbn [app length]. rewrite length_fmap, length_take. lia.
Qed.

Lemma get_frequently_bought_together_within product_ids limit :
  (0 ≤ limit)%Z →
  always_returns (get_frequently_bought_together product_ids limit) (within limit).
Proof.
  intros Hl. apply wp_always_returns. intros s.
  unfold get_frequently_bought_together. cbv zeta.
  apply wp_try. apply wp_bind.
  apply wp_mono with (Q := λ _ _, True) (E := λ s', ∀ e : Exn,
    wp (ret [] : M (list RecommendedProduct.t)) (λ a _, within limit a) (λ _, False) s').
  - apply (wp_for_fold _ _ _ (λ _ _, True)); [done|].
    intros acc x s' _ _. apply wp_bind. unfold redis.zrevrange.
    apply wp_redis_call; [handled|]. by apply wp_ret.
  - intros recs s' _. apply wp_ret. unfold within. rewrite length_fmap.
    by apply prefix_length.
  - done.
Qed.

Lemma _collaborative_filtering_within u limit :
  (0 ≤ limit)%Z → always_returns (_collaborative_filtering u limit) (within limit).
Proof.
  intros Hl. apply wp_always_returns. intros s.
  unfold _collaborative_filtering, _get_user_interactions. cbv zeta.
  apply wp_try. apply wp_bind, wp_bind. unfold redis.lrange.
  apply wp_redis_call; [handled|]. cbn [fst snd]. apply wp_ret.
  case_bool_decide; [apply wp_ret, within_nil; lia|].
  apply wp_bind.
  apply wp_mono with (Q := λ _ _, True) (E := λ s', ∀ e : Exn,
    wp (ret [] : M (list RecommendedProduct.t)) (λ a _, within limit a) (λ _, False) s').
  - apply (wp_for_fold _ _ _ (λ _ _, True)); [done|].
    intros acc [p w] s' _ _. apply wp_bind. unfold redis.zrevrange.
    apply wp_redis_call; [handled|]. by apply wp_ret.
  - intros recs s' _. apply wp_ret. unfold within. rewrite length_fmap.
    by apply prefix_length.
  - done.
Qed.

Lemma _get_category_recommendations_within categories limit :
  (0 ≤ limit)%Z →
  always_returns (_get_category_recommendations categories limit) (within limit).
Proof.
  intros Hl. apply wp_always_returns. intros s.
  unfold _get_category_recommendations. cbv zeta.
  apply wp_try. apply wp_bind.
  apply wp_mono with (Q := λ _ _, True) (E := λ s', ∀ e : Exn,
    wp (ret [] : M (list RecommendedProduct.t)) (λ a _, within limit a) (λ _, False) s').
  - apply (wp_for_fold _ _ _ (λ _ _, True)); [done|].
    intros acc x s' _ _. apply wp_bind. unfold redis.zrevrange.
    apply wp_redis_call; [handled|]. by apply wp_ret.
  - intros recs s' _. apply wp_ret. by apply within_prefix.
  - done.
Qed.

Lemma always_returns_weaken {A} (m : M A) (Q Q' : A → Prop) :
  always_returns m Q → (∀ a, Q a → Q' a) → always_returns m Q'.
Proof. intros H HQ w. destruct (H w) as (a & w' & Hm & Ha). eauto. Qed.

Lemma get_personalized_recommendations_within u limit (ex : bool) :
  (1 ≤ limit)%Z →
  always_returns (get_personalized_recommendations u limit ex) (within limit).
Proof.
  intros Hl. apply wp_always_returns. intros s.
  unfold get_personalized_recommendations.
  set (E := λ s' : Store, ∀ e : Exn,
    wp (get_trending_products limit) (λ a _, within limit a) (λ _, False) s').
  assert (HE : ∀ s', E s').
  { intros s' e. by apply always_returns_wp, get_trending_products_within. }
  apply wp_try. fold E.
  unfold get_personalized_recommendations_body, _get_user_interactions. cbv zeta.
  apply wp_bind. unfold redis.get. apply wp_redis_call; [apply HE|]. cbn [fst snd].
  destruct (cache_at (personalized_cache_key u) s) as [l|].
  { apply wp_ret. apply within_prefix. lia. }
  apply wp_bind, wp_bind. unfold redis.lrange. apply wp_redis_call; [apply HE|].
  cbn [fst snd]. apply wp_ret.
  case_bool_decide.
  { by apply always_returns_wp, get_trending_products_within. }
  apply wp_bind.
  apply wp_mono with (Q := λ _ _, True) (E := E); [| |done].
  { destruct ex; [|by apply wp_ret].
    unfold _get_purchased_products. apply wp_bind. unfold redis.smembers.
    apply wp_redis_call; [apply HE|]. by apply wp_ret. }
  intros excluded s1 _. apply wp_bind.
  apply wp_mono with (Q := λ _ _, True) (E := E); [| |done].
  { apply (wp_for_fold _ _ _ (λ _ _, True)); [done|].
    intros acc p s' _ _. apply wp_bind.
    eapply wp_mono;
      [apply (always_returns_wp _ (within 5) E), (get_similar_products_within p 5); lia
      | |done].
    intros similar s'' _. by apply wp_ret. }
  intros recs s2 _. apply wp_bind.
  eapply wp_mono;
    [apply (always_returns_wp _ (within 10) E), (_collaborative_filtering_within u 10); lia
    | |done].
  intros cf s3 _. apply wp_bind.
  apply wp_mono with (Q := λ _ _, True) (E := E); [| |done].
  { unfold _get_user_profile. apply wp_bind. unfold redis.hgetall_profile.
    apply wp_redis_call; [apply HE|]. cbn [fst snd].
    destruct (ProfileHash.is_empty _); by apply wp_ret. }
  intros profile s4 _. apply wp_bind.
  apply wp_mono with (Q := λ _ _, True) (E := E); [| |done].
  { destruct profile as [profile|]; [|by apply wp_ret].
    case_bool_decide; [|by apply wp_ret].
    apply wp_bind.
    eapply wp_mono;
      [apply (always_returns_wp _ (within 5) E),
         (_get_category_recommendations_within _ 5); lia| |done].
    intros ? ? _. by apply wp_ret. }
  intros final s5 _. apply wp_bind. unfold redis.setex.
  apply wp_redis_call; [apply HE|]. apply wp_ret. apply within_prefix. lia.
Qed.

(** * The popularity ranking *)

Lemma zrev_insert_descending x (l : list (string * Qc)) :
  descending snd l → descending snd (Py.insert_by Redis.zrev_before x l).
Proof.
  unfold descending. induction l as [|y l IH]; intros Hl; simpl.
  - repeat constructor.
  - apply StronglySorted_cons in Hl as [Hy Hl].
    destruct (Redis.zrev_before x y) eqn:Hxy.
    + assert (y.2 ≤ x.2) as Hle.
      { unfold Redis.zrev_before in Hxy. apply orb_true_iff in Hxy as [H|H].
        - apply bool_decide_eq_true in H. by apply Qclt_le_weak.
        - apply andb_true_iff in H as [H _]. apply bool_decide_eq_true in H.
          rewrite H. apply Qcle_refl. }
      apply StronglySorted_cons. split; [|by apply StronglySorted_cons].
      constructor; [done|]. eapply Forall_impl; [exact Hy|].
      intros z Hz. simpl in *. by etrans.
    + apply StronglySorted_cons. split; [|by apply IH].
      rewrite insert_by_Permutation. constructor; [|done].
      unfold Redis.zrev_before in Hxy. apply orb_false_iff in Hxy as [H _].
      apply bool_decide_eq_false in H. by apply Qcnot_lt_le.
Qed.

Lemma zrev_all_descending (z : gmap string Qc) : descending snd (Redis.zrev_all z).
Proof.
  unfold Redis.zrev_all, Py.sort_by.
  induction (map_to_list z) as [|x l IH]; simpl; [constructor|].
  by apply zrev_insert_descending.
Qed.

Lemma elem_of_popularity_ranking s p x :
  (p, x) ∈ popularity_ranking s ↔ popularity s !! p = Some x.
Proof. apply elem_of_zrev_all. Qed.

Lemma get_trending_products_miss limit s now st :
  cache_trending s = None →
  let out := trending_item <$> Redis.range (popularity_ranking s) 0 (limit - 1) in
  get_trending_products limit (available s now st)
  = (inr out, available (set_cache_trending (Some out) s) now st).
Proof.
  intros Hmiss out. unfold get_trending_products. apply try_except_returns.
  unfold redis.get, redis.zrevrange, redis.setex. cbv zeta.
  rewrite bind_redis_call. cbn [fst snd cache_at]. rewrite Hmiss.
  rewrite bind_redis_call. cbn [fst snd zset_at].
  rewrite bind_redis_call. cbn [fst snd cache_put].
  unfold ret, out, popularity_ranking. f_equal; [f_equal|f_equal; f_equal; f_equal];
    apply list_fmap_ext; by intros ? [? ?].
Qed.

Lemma get_trending_products_hit limit s l now st :
  cache_trending s = Some l →
  get_trending_products limit (available s now st)
  = (inr (Py.prefix l limit), available s now st).
Proof.
  intros Hhit. unfold get_trending_products. apply try_except_returns.
  unfold redis.get. rewrite bind_redis_call. cbn [fst snd cache_at]. by rewrite Hhit.
Qed.

(** * What a call leaves alone *)

Ltac unfold_service :=
  unfold serve, track_interaction, track_interaction_body,
    get_personalized_recommendations, get_personalized_recommendations_body,
    get_similar_products, get_trending_products, get_recently_viewed,
    get_frequently_bought_together, _update_co_occurrence, _update_user_profile,
    _get_user_interactions, _get_purchased_products, _collaborative_filtering,
    _get_user_profile, _get_category_recommendations,
    KafkaEventConsumer._handle_message, KafkaEventConsumer._handle_order_event,
    KafkaEventConsumer._handle_product_event, KafkaEventConsumer._handle_user_event,
    new_UserInteraction, track_interaction, track_interaction_body,
    _update_co_occurrence, _update_user_profile, _get_user_interactions.

Ltac data_frame :=
  match goal with
  | H : recorded_data _ = _ |- _ => rewrite <- H; unfold recorded_data; frame_solve
  | H : caches _ = _ |- _ => rewrite <- H; unfold caches; frame_solve
  | H : _ = _ |- _ => rewrite <- H; frame_solve
  end.

Lemma track_interaction_caches i X : preserves (λ s, caches s = X) (track_interaction i).
Proof. unfold_service. preserves_calls; data_frame. Qed.

Lemma _handle_message_caches topic event X :
  preserves (λ s, caches s = X) (KafkaEventConsumer._handle_message topic event).
Proof. unfold_service. preserves_calls; data_frame. Qed.

Lemma get_personalized_recommendations_data u limit ex X :
  preserves (λ s, recorded_data s = X) (get_personalized_recommendations u limit ex).
Proof. unfold_service. preserves_calls; data_frame. Qed.

Lemma get_similar_products_data p limit X :
  preserves (λ s, recorded_data s = X) (get_similar_products p limit).
Proof. unfold_service. preserves_calls; data_frame. Qed.

Lemma get_trending_products_data limit X :
  preserves (λ s, recorded_data s = X) (get_trending_products limit).
Proof. unfold_service. preserves_calls; data_frame. Qed.

Lemma get_recently_viewed_store u limit X :
  preserves (λ s, s = X) (get_recently_viewed u limit).
Proof. unfold_service. preserves_calls; data_frame. Qed.

Lemma get_frequently_bought_together_store ps limit X :
  preserves (λ s, s = X) (get_frequently_bought_together ps limit).
Proof. unfold_service. preserves_calls; data_frame. Qed.

Lemma _collaborative_filtering_store u limit X :
  preserves (λ s, s = X) (_collaborative_filtering u limit).
Proof. unfold_service. preserves_calls; data_frame. Qed.

Lemma _get_category_recommendations_store cs limit X :
  preserves (λ s, s = X) (_get_category_recommendations cs limit).
Proof. unfold_service. preserves_calls; data_frame. Qed.

Lemma preserves_store {A} (m : M A) (I : Store → Prop) w :
  preserves I m → I (store w) → I (store (m w).2).
Proof. intros Hm Hw. apply wp_store. by apply Hm. Qed.

(** * What [track_interaction] records *)

Lemma _update_co_occurrence_frame u p X :
  preserves (λ s, (interactions s, popularity s, category_popular s, purchased s,
                   category_products s, user_profile s, product s, caches s) = X)
    (_update_co_occurrence u p).
Proof.
  unfold _update_co_occurrence, _get_user_interactions.
  preserves_calls;
    (match goal with H : _ = _ |- _ => rewrite <- H end); unfold caches; frame_solve.
Qed.

Lemma _update_co_occurrence_succeeds u p : succeeds (_update_co_occurrence u p).
Proof. unfold _update_co_occurrence, _get_user_interactions. succeeds_calls. Qed.

Lemma _update_user_profile_available i s now st :
  _update_user_profile i (available s now st)
  = (inr tt, available (profile_updated i now s) now st).
Proof.
  unfold _update_user_profile, profile_updated. cbv zeta.
  unfold redis.hincrby_interaction_count, redis.hset_last_active, redis.sadd,
    redis.expire, utcnow_isoformat.
  set (u := UserInteraction.user_id i). set (p := UserInteraction.product_id i).
  set (h := default ProfileHash.empty (user_profile s !! u)).
  set (s1 := set_user_profile _ s).
  rewrite bind_redis_call. cbn [fst snd].
  unfold bind at 1. cbn [clock available].
  rewrite bind_redis_call. cbn [fst snd].
  match goal with
  | |- context [available ?x now st] =>
      assert (x = s1) as ->
        by (unfold s1, set_user_profile; cbn; rewrite lookup_insert_eq; cbn;
            by rewrite insert_insert_eq)
  end.
  destruct (decide (UserInteraction.interaction_type i = PURCHASE)) as [Hty|Hty].
  - rewrite (bool_decide_eq_true_2 _ Hty).
    rewrite bind_assoc, bind_redis_call. cbn [fst snd].
    change (set_at (purchased_key u) s1) with (set_at (purchased_key u) s).
    destruct (decide (p ∈ set_at (purchased_key u) s)) as [Hin|Hin].
    + rewrite (bool_decide_eq_true_2 (p ∈ _)) by done. cbn [fst snd].
      rewrite bind_assoc, bind_redis_call. cbn [fst snd].
      rewrite bind_ret, bind_redis_call. cbn [fst snd].
      rewrite (bool_decide_eq_false_2 (_ ∧ _)) by tauto. done.
    + rewrite (bool_decide_eq_false_2 (p ∈ _)) by done. cbn [fst snd].
      rewrite bind_assoc, bind_redis_call. cbn [fst snd].
      rewrite bind_ret, bind_redis_call. cbn [fst snd].
      rewrite (bool_decide_eq_true_2 (_ ∧ _)) by tauto. done.
  - rewrite (bool_decide_eq_false_2 _ Hty).
    rewrite bind_ret, bind_redis_call. cbn [fst snd].
    rewrite (bool_decide_eq_false_2 (_ ∧ _)) by tauto. done.
Qed.

(** [track_interaction] on a store that answers: the log entry, the
    popularity increment, the co-occurrence updates, then the profile. *)
Lemma track_interaction_body_run i s now st :
  let u := UserInteraction.user_id i in
  ∃ s5,
    track_interaction_body i (available s now st)
    = (inr true, available (profile_updated i now s5) now st)
    ∧ interactions s5
      = <[u := Redis.range (log_entry i :: interaction_log s u) 0 999]> (interactions s)
    ∧ popularity s5 = bump i s
    ∧ (category_popular s5, purchased s5, category_products s5, user_profile s5,
       product s5, caches s5)
      = (category_popular s, purchased s, category_products s, user_profile s,
         product s, caches s).
Proof.
  intros u. unfold track_interaction_body. cbv zeta.
  unfold redis.lpush, redis.ltrim, redis.expire, redis.zincrby.
  rewrite bind_redis_call. cbn [fst snd].
  rewrite bind_redis_call. cbn [fst snd].
  rewrite bind_redis_call. cbn [fst snd].
  rewrite bind_redis_call. cbn [fst snd].
  match goal with |- context [available ?x now st] => set (s4 := x) end.
  destruct (_update_co_occurrence_succeeds u (UserInteraction.product_id i) s4 now st)
    as ([] & s5 & Hrun).
  pose proof (wp_intro _ _ _ (available s4 now st)
                (_update_co_occurrence_frame u (UserInteraction.product_id i)
                   _ s4 eq_refl)) as Hframe.
  rewrite Hrun in Hframe. cbn [store available] in Hframe.
  fold u. exists s5. rewrite (bind_returns _ _ _ _ _ Hrun).
  rewrite (bind_returns _ _ _ _ _ (_update_user_profile_available i s5 now st)).
  unfold caches in *. injection Hframe as Hi Hpop Hcp Hpu Hcps Hup Hpr Hc1 Hc2 Hc3.
  split; [done|]. rewrite Hi, Hpop, Hcp, Hpu, Hcps, Hup, Hpr, Hc1, Hc2, Hc3.
  subst s4. cbn. unfold interaction_log, log_entry, weight_of.
  split_and!; try done.
  by rewrite insert_insert_eq, lookup_insert_eq.
Qed.

Lemma track_interaction_effects i s now st :
  let u := UserInteraction.user_id i in
  let p := UserInteraction.product_id i in
  let s' := tracked i s now st in
  let h := default ProfileHash.empty (user_profile s !! u) in
  track_interaction i (available s now st) = (inr true, available s' now st)
  ∧ interactions s'
    = <[u := Redis.range (log_entry i :: interaction_log s u) 0 999]> (interactions s)
  ∧ popularity s' = bump i s
  ∧ purchased s'
    = (if bool_decide (UserInteraction.interaction_type i = PURCHASE
                       ∧ p ∉ set_at (purchased_key u) s)
       then <[u := set_at (purchased_key u) s ++ [p]]> (purchased s)
       else purchased s)
  ∧ user_profile s'
    = <[u := ProfileHash.mk (Some (default 0 (ProfileHash.interaction_count h) + 1)%Z)
               (Some now) (ProfileHash.other_fields h)]> (user_profile s)
  ∧ category_popular s' = category_popular s
  ∧ category_products s' = category_products s
  ∧ product s' = product s
  ∧ caches s' = caches s.
Proof.
  intros u p s' h.
  destruct (track_interaction_body_run i s now st) as (s5 & Hrun & Hi & Hpop & Hrest).
  unfold caches in *. injection Hrest as Hcp Hpu Hcps Hup Hpr Hc1 Hc2 Hc3.
  apply (try_except_returns _ (λ e, ret false)) in Hrun. fold (track_interaction i) in Hrun.
  subst s'. unfold tracked. rewrite Hrun. cbn [snd store available].
  split; [done|]. unfold profile_updated. fold u p.
  unfold set_at. rewrite Hpu, Hup. fold (set_at (purchased_key u) s). fold h.
  case_bool_decide; cbn; by rewrite ?Hi, ?Hpop, ?Hcp, ?Hcps, ?Hpr, ?Hc1, ?Hc2, ?Hc3.
Qed.

Lemma interaction_log_tracked i s now st :
  interaction_log (tracked i s now st) (UserInteraction.user_id i)
  = take 1000 (log_entry i :: interaction_log s (UserInteraction.user_id i)).
Proof.
  destruct (track_interaction_effects i s now st) as (_ & Hi & _).
  unfold interaction_log at 1. rewrite Hi, lookup_insert_eq. cbn [default from_option id].
  by rewrite range_from_zero.
Qed.

Lemma interaction_log_tracked_other i s now st v :
  v ≠ UserInteraction.user_id i →
  interaction_log (tracked i s now st) v = interaction_log s v.
Proof.
  intros Hv. destruct (track_interaction_effects i s now st) as (_ & Hi & _).
  unfold interaction_log. by rewrite Hi, lookup_insert_ne.
Qed.

Lemma read_log_take s u : read_log s u = take 100 (interaction_log s u).
Proof. unfold read_log. by rewrite range_from_zero. Qed.

Lemma read_log_tracked i s now st :
  read_log (tracked i s now st) (UserInteraction.user_id i)
  = log_entry i :: take 99 (interaction_log s (UserInteraction.user_id i)).
Proof.
  rewrite read_log_take, interaction_log_tracked, take_take.
  by change (100 `min` 1000)%nat with 100%nat.
Qed.

(** X1. The log of the user is the new entry in front of the old ones, cut
    to the 1000 most recent; the logs of other users stay as they are. *)
Theorem tracking_appends_to_log i s now st :
  let u := UserInteraction.user_id i in
  let s' := tracked i s now st in
  track_interaction i (available s now st) = (inr true, available s' now st)
  ∧ interaction_log s' u = take 1000 (log_entry i :: interaction_log s u)
  ∧ head (interaction_log s' u) = Some (log_entry i)
  ∧ (length (interaction_log s' u) ≤ 1000)%nat
  ∧ ((length (interaction_log s u) < 1000)%nat →
     interaction_log s' u = log_entry i :: interaction_log s u)
  ∧ read_log s' u = log_entry i :: take 99 (interaction_log s u)
  ∧ (∀ v, v ≠ u → interaction_log s' v = interaction_log s v).
Proof.
  intros u s'. subst s'. split_and!.
  - apply track_interaction_effects.
  - apply interaction_log_tracked.
  - by rewrite interaction_log_tracked.
  - rewrite interaction_log_tracked, length_take. lia.
  - intros Hlen. rewrite interaction_log_tracked. apply take_ge. simpl. fold u. lia.
  - apply read_log_tracked.
  - intros v Hv. by apply interaction_log_tracked_other.
Qed.

(** X2. A purchase puts the product in the purchased set of the user, once;
    no other interaction touches a purchased set. *)
Theorem purchases_are_remembered i s now st :
  let u := UserInteraction.user_id i in
  let p := UserInteraction.product_id i in
  let s' := tracked i s now st in
  let old := set_at (purchased_key u) s in
  set_at (purchased_key u) s'
  = (if bool_decide (UserInteraction.interaction_type i = PURCHASE ∧ p ∉ old)
     then old ++ [p] else old)
  ∧ (UserInteraction.interaction_type i = PURCHASE → p ∈ set_at (purchased_key u) s')
  ∧ (UserInteraction.interaction_type i ≠ PURCHASE → purchased s' = purchased s)
  ∧ (NoDup old → NoDup (set_at (purchased_key u) s'))
  ∧ (∀ v, v ≠ u → set_at (purchased_key v) s' = set_at (purchased_key v) s)
  ∧ (∀ now' st',
       _get_purchased_products u (available s' now' st')
       = (inr (if bool_decide (UserInteraction.interaction_type i = PURCHASE)
               then {[p]} ∪ list_to_set old else list_to_set old),
          available s' now' st')).
Proof.
  intros u p s' old.
  destruct (track_interaction_effects i s now st) as (_ & _ & _ & Hpu & _).
  fold u p s' old in Hpu.
  assert (Hset : set_at (purchased_key u) s'
                 = (if bool_decide (UserInteraction.interaction_type i = PURCHASE ∧ p ∉ old)
                    then old ++ [p] else old)).
  { unfold set_at. rewrite Hpu. case_bool_decide; [|done]. by rewrite lookup_insert_eq. }
  split_and!.
  - exact Hset.
  - intros Hty. rewrite Hset. case_bool_decide as Hc.
    + apply elem_of_app. right. by apply list_elem_of_singleton.
    + destruct (decide (p ∈ old)); [done|]. exfalso. by apply Hc.
  - intros Hty. rewrite Hpu. rewrite bool_decide_eq_false_2; [done|]. by intros [? _].
  - intros Hnd. rewrite Hset. case_bool_decide as Hc; [|done].
    apply NoDup_app. split_and!; [done| |apply NoDup_singleton].
    intros x Hx Hx'. apply list_elem_of_singleton in Hx' as ->. by destruct Hc.
  - intros v Hv. unfold set_at. rewrite Hpu. case_bool_decide; [|done].
    by rewrite lookup_insert_ne.
  - intros now' st'. rewrite _get_purchased_products_available. do 2 f_equal.
    rewrite Hset. apply leibniz_equiv.
    repeat case_bool_decide; destruct_and?; try done; try tauto.
    all: try (rewrite list_to_set_app; set_solver).
    all: destruct (decide (p ∈ old)) as [Hin|]; [|tauto].
    all: apply (elem_of_list_to_set (C:=gset string)) in Hin; set_solver.
Qed.

Lemma bind_redis_call_answered {A B} (f : Store → A * Store) (k : A → M B) s fs now st :
  bind (redis_call f) k (mkWorld s (false :: fs) now st)
  = k (f s).1 (mkWorld (f s).2 fs now st).
Proof. unfold bind, redis_call. simpl. by destruct (f s). Qed.

Lemma bind_redis_call_failed {A B} (f : Store → A * Store) (k : A → M B) s fs now st :
  bind (redis_call f) k (mkWorld s (true :: fs) now st)
  = (inl RedisError, mkWorld s fs now st).
Proof. done. Qed.

(** X3. The profile of a user counts the interactions recorded for them. *)
Theorem profile_counts_interactions i s now st :
  let u := UserInteraction.user_id i in
  let s' := tracked i s now st in
  let h := default ProfileHash.empty (user_profile s !! u) in
  (∀ now' st',
     _get_user_profile u (available s' now' st')
     = (inr (Some (UserProfile.mk u [] [] 0 (Qc_of_Z 10000)
                     (default 0 (ProfileHash.interaction_count h) + 1)%Z
                     (if bool_decide (now = "") then None else Some now))),
        available s' now' st'))
  ∧ (∀ v, v ≠ u → user_profile s' !! v = user_profile s !! v)
  ∧ (∀ v now' st',
       user_profile s !! v = None →
       _get_user_profile v (available s now' st') = (inr None, available s now' st')).
Proof.
  intros u s' h.
  destruct (track_interaction_effects i s now st) as (_ & _ & _ & _ & Hup & _).
  fold u s' h in Hup. split_and!.
  - intros now' st'. unfold _get_user_profile, redis.hgetall_profile.
    rewrite bind_redis_call. cbn [fst snd]. rewrite Hup, lookup_insert_eq.
    cbn [default from_option id]. unfold ProfileHash.is_empty.
    rewrite bool_decide_eq_false_2 by (by intros [? _]).
    cbn [ProfileHash.interaction_count ProfileHash.last_active default from_option id].
    unfold ret. do 4 f_equal. case_bool_decide as Hnow; [by subst now|].
    by destruct now.
  - intros v Hv. by rewrite Hup, lookup_insert_ne.
  - intros v now' st' Hv. unfold _get_user_profile, redis.hgetall_profile.
    rewrite bind_redis_call. cbn [fst snd]. by rewrite Hv.
Qed.

(** X4. The product just viewed leads the recently viewed ones, whatever
    the limit. *)
Theorem viewed_product_is_first u p score timestamp metadata s now st :
  let i := UserInteraction.mk u p VIEW score timestamp metadata in
  ∀ limit now' st', ∃ rest,
    get_recently_viewed u limit (available (tracked i s now st) now' st')
    = (inr (RecommendedProduct.new p 1 "Recently viewed" :: rest),
       available (tracked i s now st) now' st').
Proof.
  intros i limit now' st'. rewrite get_recently_viewed_available.
  unfold viewed_products.
  rewrite (read_log_tracked i s now st : read_log _ u = _).
  rewrite filter_cons. rewrite decide_True by done.
  rewrite fmap_cons. cbn [first_occurrences].
  rewrite bool_decide_eq_false_2 by apply not_elem_of_nil.
  destruct (Z.to_nat (1 `max` limit)) as [|n] eqn:Hn; [lia|].
  cbn [take fmap list_fmap]. eauto.
Qed.

(** X5. A call that fails half way keeps what it has already written: here
    the fifth Redis call (the read of the log in [_update_co_occurrence])
    fails. *)
Theorem failed_tracking_keeps_its_writes i s fs now st :
  let u := UserInteraction.user_id i in
  let p := UserInteraction.product_id i in
  let w := mkWorld s (false :: false :: false :: false :: true :: fs) now st in
  let s' := store (track_interaction i w).2 in
  (track_interaction i w).1 = inr false
  ∧ interaction_log s' u = take 1000 (log_entry i :: interaction_log s u)
  ∧ popularity_rank s' p
    = popularity_rank s p + weight_of (UserInteraction.interaction_type i)
  ∧ co_occurrence s' = co_occurrence s
  ∧ purchased s' = purchased s
  ∧ user_profile s' = user_profile s.
Proof.
  intros u p w s'. subst w s'.
  unfold track_interaction, try_except, track_interaction_body. cbv zeta.
  unfold redis.lpush, redis.ltrim, redis.expire, redis.zincrby,
    _update_co_occurrence, _get_user_interactions, redis.lrange.
  rewrite bind_redis_call_answered. cbn [fst snd].
  rewrite bind_redis_call_answered. cbn [fst snd].
  rewrite bind_redis_call_answered. cbn [fst snd].
  rewrite bind_redis_call_answered. cbn [fst snd].
  rewrite !bind_assoc, bind_redis_call_failed.
  cbn. fold u p. unfold interaction_log, popularity_rank. cbn.
  rewrite !lookup_insert_eq. cbn [default from_option id].
  split_and!; try done.
  rewrite range_from_zero by lia. done.
Qed.

(** * No product is similar to itself *)

Ltac graph_frame :=
  match goal with
  | H : graph_sound _ |- graph_sound _ =>
      unfold graph_sound, no_self_edges, similar_cache_sound, strength in *; frame_solve
  end.

Lemma co_occurrence_edge_sound p o s :
  o ≠ p → graph_sound s →
  wp (redis.zincrby (co_occurrence_key p) 1 o ;;;
      redis.zincrby (co_occurrence_key o) 1 p ;;;
      redis.expire (co_occurrence_key p) (86400 * 7) ;;;
      redis.expire (co_occurrence_key o) (86400 * 7) ;;;
      ret tt)
     (λ _, graph_sound) graph_sound s.
Proof.
  intros Hop Hs. unfold redis.zincrby, redis.expire.
  assert (Hstep : ∀ a b v s', a ≠ b → graph_sound s' →
            graph_sound (zset_put (co_occurrence_key a)
                           (<[b := v]> (zset_at (co_occurrence_key a) s')) s')).
  { intros a b v s' Hab [Hnse Hsc]. split; [|exact Hsc].
    intros q. rewrite strength_zincrby. case_bool_decide as Hq; [|apply Hnse].
    destruct Hq as [-> ->]. done. }
  apply wp_bind, wp_redis_call; [done|]. cbn [fst snd].
  apply wp_bind, wp_redis_call; [by apply Hstep|]. cbn [fst snd].
  apply wp_bind, wp_redis_call; [by apply Hstep, Hstep|]. cbn [fst snd].
  apply wp_bind, wp_redis_call; [by apply Hstep, Hstep|]. cbn [fst snd].
  apply wp_ret. by apply Hstep, Hstep.
Qed.

Lemma _update_co_occurrence_sound u p : preserves graph_sound (_update_co_occurrence u p).
Proof.
  intros s Hs. unfold _update_co_occurrence, _get_user_interactions.
  apply wp_bind, wp_bind. unfold redis.lrange. apply wp_redis_call; [done|].
  apply wp_ret. cbn [fst snd].
  apply wp_for_each; [done|].
  intros o s' Ho Hs'. apply co_occurrence_edge_sound; [|done].
  apply list_elem_of_fmap in Ho as (i & -> & Hin).
  by apply list_elem_of_filter in Hin as [Hne _].
Qed.

Lemma without_nil p : without p [].
Proof. intros r Hr. by apply elem_of_nil in Hr. Qed.

Lemma without_prefix p l n : without p l → without p (Py.prefix l n).
Proof. intros H r Hr. apply H. by eapply prefix_subseteq. Qed.

Lemma without_sorted p l :
  without p l → without p (Py.sorted_desc RecommendedProduct.score l).
Proof. intros H r Hr. apply H. by apply elem_of_sorted_desc in Hr. Qed.

Lemma graph_sound_cache_similar p l s :
  graph_sound s → without p l → graph_sound (cache_put (similar_cache_key p) l s).
Proof.
  intros [Hnse Hsc] Hl. split; [exact Hnse|].
  intros q l' r. cbn. destruct (decide (q = p)) as [->|Hq].
  - rewrite lookup_insert_eq. intros [= <-]. apply Hl.
  - rewrite lookup_insert_ne by done. apply Hsc.
Qed.

Lemma dict_without_set p d k r :
  dict_without p d → RecommendedProduct.product_id r ≠ p → dict_without p (Py.set d k r).
Proof.
  intros Hd Hr k' r' Hin. apply elem_of_set in Hin as [[= -> ->]|Hin]; [done|].
  by eapply Hd.
Qed.

Lemma get_similar_products_sound_answer p limit s :
  graph_sound s →
  wp (get_similar_products p limit)
    (λ out s', without p out ∧ graph_sound s') graph_sound s.
Proof.
  intros Hs. unfold get_similar_products. cbv zeta.
  unfold redis.get, redis.zrevrange, redis.hgetall_product, redis.smembers, redis.setex.
  apply wp_try, wp_bind, wp_redis_call; cbn [fst snd].
  { intros e. apply wp_ret. split; [apply without_nil|done]. }
  destruct (cache_at (similar_cache_key p) s) as [l|] eqn:Hl.
  { apply wp_ret. split; [|done]. apply without_prefix.
    intros r Hr. destruct Hs as [_ Hsc]. by eapply Hsc. }
  apply wp_bind, wp_redis_call; cbn [fst snd].
  { intros e. apply wp_ret. split; [apply without_nil|done]. }
  set (co := Redis.range _ 0 (limit - 1)).
  set (recs := foldl _ [] co).
  assert (Hrecs : dict_without p recs).
  { assert (Hco : ∀ id x, (id, x) ∈ co → id ≠ p).
    { intros id x Hin. apply range_subseteq, elem_of_zrev_all in Hin.
      intros ->. destruct Hs as [Hnse _]. specialize (Hnse p).
      unfold strength in Hnse. congruence. }
    subst recs. clearbody co.
    cut (∀ d, dict_without p d →
           dict_without p
             (foldl (λ recommendations '(similar_id, score),
                       Py.set recommendations similar_id
                         (RecommendedProduct.new similar_id score
                            "Frequently bought together")) d co)).
    { intros H. apply H. intros k r Hin. by apply elem_of_nil in Hin. }
    induction co as [|[id x] co IH]; intros d Hd; [done|].
    cbn [foldl]. apply IH.
    - intros id' x' Hin. eapply Hco. apply elem_of_cons. by right.
    - apply dict_without_set; [done|]. cbn. eapply Hco. apply elem_of_cons. by left. }
  clearbody recs.
  apply wp_bind, wp_redis_call; cbn [fst snd].
  { intros e. apply wp_ret. split; [apply without_nil|done]. }
  apply wp_bind.
  apply wp_mono with (Q := λ d s', dict_without p d ∧ graph_sound s')
    (E := λ s', ∀ e : Exn,
            wp (ret [] : M (list RecommendedProduct.t))
              (λ out s'', without p out ∧ graph_sound s'') graph_sound s').
  - repeat case_bool_decide; try by apply wp_ret.
    apply wp_bind, wp_redis_call; cbn [fst snd].
    { intros e. apply wp_ret. split; [apply without_nil|done]. }
    apply wp_ret. split; [|done].
    generalize (Py.prefix (set_at (category_products_key
                  (default "" (default ∅ (product s !! p) !! "category_id"))) s) limit).
    intros siblings. revert recs Hrecs.
    induction siblings as [|q siblings IH]; intros recs Hrecs; [done|].
    cbn [foldl]. apply IH.
    destruct (bool_decide (q ≠ p)) eqn:Hq; [|done].
    destruct (negb (Py.contains recs q)); [|done]. cbn [andb].
    apply dict_without_set; [done|]. cbn. by apply bool_decide_eq_true in Hq.
  - intros d s' [Hd Hs'].
    assert (without p (Py.prefix (Py.sorted_desc RecommendedProduct.score (Py.values d))
                         limit)) as Hout.
    { apply without_prefix, without_sorted. intros r Hr.
      unfold Py.values in Hr. apply list_elem_of_fmap in Hr as ([k r'] & -> & Hin).
      by eapply Hd. }
    apply wp_bind, wp_redis_call; cbn [fst snd].
    { intros e. apply wp_ret. split; [apply without_nil|done]. }
    apply wp_ret. split; [done|]. by apply graph_sound_cache_similar.
  - done.
Qed.

Lemma get_similar_products_graph_sound p limit :
  preserves graph_sound (get_similar_products p limit).
Proof.
  eapply wp_preserves; [intros s Hs; by apply get_similar_products_sound_answer|].
  by intros ? ? [_ ?].
Qed.

Lemma serve_graph_sound r : preserves graph_sound (serve r).
Proof.
  destruct r; unfold serve, track_interaction, track_interaction_body,
    get_personalized_recommendations, get_personalized_recommendations_body,
    get_trending_products, get_recently_viewed,
    get_frequently_bought_together, _update_user_profile,
    _get_user_interactions, _get_purchased_products, _collaborative_filtering,
    _get_user_profile, _get_category_recommendations,
    KafkaEventConsumer._handle_message, KafkaEventConsumer._handle_order_event,
    KafkaEventConsumer._handle_product_event, KafkaEventConsumer._handle_user_event,
    new_UserInteraction, track_interaction, track_interaction_body,
    _update_user_profile, _get_user_interactions.
  all: repeat first
         [ apply get_similar_products_graph_sound
         | apply _update_co_occurrence_sound
         | preserves_step
         | progress unfold_redis
         | apply preserves_redis_call; intros ? ? ];
       graph_frame.
Qed.

Lemma reachable_graph_sound s : reachable s → graph_sound s.
Proof.
  intros H. induction H as [|r w _ IH].
  - split.
    + intros p. unfold strength. cbn. by rewrite lookup_empty.
    + intros p l r. cbn. by rewrite lookup_empty.
  - apply (wp_store (serve r) graph_sound w). by apply serve_graph_sound.
Qed.

(** X6. The co-occurrence graph has no self edge, and [get_similar_products]
    never answers with the product it was asked about. *)
Theorem similar_products_exclude_the_product s :
  reachable s →
  (∀ p, strength s p p = None)
  ∧ (∀ p, p ∉ (co_occurrents s p).*1)
  ∧ (∀ p limit fs now st out w',
       get_similar_products p limit (mkWorld s fs now st) = (inr out, w') →
       ∀ r, r ∈ out → RecommendedProduct.product_id r ≠ p).
Proof.
  intros Hs. apply reachable_graph_sound in Hs. split_and!.
  - apply Hs.
  - intros p Hin. apply list_elem_of_fmap in Hin as ([q x] & -> & Hin).
    apply elem_of_co_occurrents in Hin. destruct Hs as [Hnse _]. cbn in Hin.
    by rewrite Hnse in Hin.
  - intros p limit fs now st out w' Hrun.
    pose proof (get_similar_products_sound_answer p limit s Hs fs now st) as H.
    rewrite Hrun in H. apply H.
Qed.

Lemma similar_products_exclude_the_product_witness :
  reachable similar_example_store
  ∧ strength similar_example_store "P" "P" = None
  ∧ ("P" ∉ (co_occurrents similar_example_store "P").*1).
Proof.
  assert (reachable similar_example_store) as Hreach.
  { apply reachable_replay. constructor. }
  destruct (similar_products_exclude_the_product similar_example_store Hreach)
    as (Hself & Hco & _).
  split_and!; [done|apply Hself|apply Hco].
Defined.

(** * Recorded data only grows *)

Lemma grown_from_refl s : grown_from s s.
Proof.
  split_and!; [done|intros; apply Qcle_refl|done|..]; intros; eexists;
    (split; [done|]); first [apply Qcle_refl | lia].
Qed.

Lemma Qcle_plus_nonneg x a : 0 ≤ a → x ≤ x + a.
Proof.
  intros Ha. rewrite <- (Qcplus_0_r x) at 1. by apply Qcplus_le_mono_l.
Qed.

Lemma zincrby_popularity_grown s0 amount member :
  0 ≤ amount → preserves (grown_from s0) (redis.zincrby popularity_key amount member).
Proof.
  intros Ha. unfold redis.zincrby. apply preserves_redis_call.
  intros s (Hset & Hpop & Hin & Hco & Hup). cbv beta zeta. cbn [fst snd].
  split_and!; [done| | |done..].
  - intros p. unfold popularity_rank in *. cbn.
    destruct (decide (p = member)) as [->|Hne].
    + rewrite lookup_insert_eq. cbn. etrans; [apply Hpop|]. by apply Qcle_plus_nonneg.
    + rewrite lookup_insert_ne by done. apply Hpop.
  - intros p Hp. cbn. destruct (decide (p = member)) as [->|Hne].
    + by rewrite lookup_insert_eq.
    + rewrite lookup_insert_ne by done. by apply Hin.
Qed.

Lemma zincrby_co_occurrence_grown s0 a amount b :
  0 ≤ amount →
  preserves (grown_from s0) (redis.zincrby (co_occurrence_key a) amount b).
Proof.
  intros Ha. unfold redis.zincrby. apply preserves_redis_call.
  intros s (Hset & Hpop & Hin & Hco & Hup). cbv beta zeta. cbn [fst snd].
  split_and!; [done..| |done].
  intros x y v Hv. destruct (Hco x y v Hv) as (v' & Hv' & Hle).
  rewrite strength_zincrby. case_bool_decide as Hxy; [|eauto].
  destruct Hxy as [-> ->]. eexists. split; [done|].
  unfold strength in Hv'. rewrite Hv'. cbn.
  etrans; [exact Hle|]. by apply Qcle_plus_nonneg.
Qed.

Lemma sadd_grown s0 k member : preserves (grown_from s0) (redis.sadd k member).
Proof.
  unfold redis.sadd. apply preserves_redis_call.
  intros s (Hset & Hpop & Hin & Hco & Hup). cbv beta zeta.
  case_bool_decide; cbn [fst snd]; [done|].
  split_and!; [|by destruct k..].
  intros k' x Hx. specialize (Hset k' x Hx).
  destruct k as [u|c], k' as [u'|c']; cbn in *; try done.
  - destruct (decide (u' = u)) as [->|Hne].
    + rewrite lookup_insert_eq. cbn. apply elem_of_app. by left.
    + by rewrite lookup_insert_ne.
  - destruct (decide (c' = c)) as [->|Hne].
    + rewrite lookup_insert_eq. cbn. apply elem_of_app. by left.
    + by rewrite lookup_insert_ne.
Qed.

Lemma hincrby_grown s0 u amount :
  (0 ≤ amount)%Z → preserves (grown_from s0) (redis.hincrby_interaction_count u amount).
Proof.
  intros Ha. unfold redis.hincrby_interaction_count. apply preserves_redis_call.
  intros s (Hset & Hpop & Hin & Hco & Hup). cbv beta zeta. cbn [fst snd].
  split_and!; [done..|].
  intros v h0 Hv. destruct (Hup v h0 Hv) as (h & Hh & Hle). cbn.
  destruct (decide (v = u)) as [->|Hne].
  - rewrite lookup_insert_eq. eexists. split; [done|]. rewrite Hh. cbn. lia.
  - rewrite lookup_insert_ne by done. eauto.
Qed.

Lemma hset_last_active_grown s0 u v :
  preserves (grown_from s0) (redis.hset_last_active u v).
Proof.
  unfold redis.hset_last_active. apply preserves_redis_call.
  intros s (Hset & Hpop & Hin & Hco & Hup). cbv beta zeta. cbn [fst snd].
  split_and!; [done..|].
  intros v' h0 Hv. destruct (Hup v' h0 Hv) as (h & Hh & Hle). cbn.
  destruct (decide (v' = u)) as [->|Hne].
  - rewrite lookup_insert_eq. eexists. split; [done|]. rewrite Hh. cbn. lia.
  - rewrite lookup_insert_ne by done. eauto.
Qed.

Lemma interaction_weights_nonneg t : 0 ≤ default 1 (interaction_weights t).
Proof. by destruct t. Qed.

Ltac grown_frame :=
  match goal with
  | H : grown_from _ _ |- grown_from _ _ =>
      unfold grown_from, strength in *; frame_solve
  end.

Lemma serve_grown s0 r : preserves (grown_from s0) (serve r).
Proof.
  destruct r; unfold_service; cbv zeta.
  all: repeat first
         [ apply zincrby_popularity_grown; apply interaction_weights_nonneg
         | apply zincrby_co_occurrence_grown; done
         | apply sadd_grown
         | apply hincrby_grown; done
         | apply hset_last_active_grown
         | preserves_step
         | progress unfold redis.lpush, redis.ltrim, redis.lrange, redis.expire,
             redis.zrevrange, redis.smembers, redis.get, redis.setex,
             redis.hgetall_profile, redis.hgetall_product, redis.hset_product
         | apply preserves_redis_call; intros ? ? ];
       grown_frame.
Qed.

(** X7. No request takes back what was recorded: members stay in their sets,
    popularity scores, co-occurrence strengths and interaction counts
    never go down. *)
Theorem recorded_data_only_grows r w :
  let s := store w in
  let s' := store (serve r w).2 in
  (∀ u p, p ∈ set_at (purchased_key u) s → p ∈ set_at (purchased_key u) s')
  ∧ (∀ c p, p ∈ set_at (category_products_key c) s →
            p ∈ set_at (category_products_key c) s')
  ∧ (∀ p, popularity_rank s p ≤ popularity_rank s' p)
  ∧ (∀ p, is_Some (popularity s !! p) → is_Some (popularity s' !! p))
  ∧ (∀ a b x, strength s a b = Some x → ∃ y, strength s' a b = Some y ∧ x ≤ y)
  ∧ (∀ u h, user_profile s !! u = Some h →
       ∃ h', user_profile s' !! u = Some h'
             ∧ (default 0 (ProfileHash.interaction_count h)
                ≤ default 0 (ProfileHash.interaction_count h'))%Z).
Proof.
  intros s s'.
  assert (grown_from s s') as (Hset & Hpop & Hin & Hco & Hup).
  { apply (wp_store (serve r) (grown_from s) w), serve_grown, grown_from_refl. }
  split_and!; [by intros; apply Hset|by intros; apply Hset|done..].
Qed.

Lemma Qcle_one_plus x a : 0 ≤ x → 1 ≤ a → 1 ≤ x + a.
Proof.
  intros Hx Ha. rewrite <- (Qcplus_0_l 1). by apply Qcplus_le_compat.
Qed.

Lemma default_score_nonneg (o : option Qc) :
  (∀ x, o = Some x → 1 ≤ x) → 0 ≤ default 0 o.
Proof.
  intros H. destruct o as [x|]; [|done]. cbn.
  etrans; [|by apply H]. done.
Qed.

Lemma zincrby_popularity_positive amount member :
  1 ≤ amount → preserves scores_positive (redis.zincrby popularity_key amount member).
Proof.
  intros Ha. unfold redis.zincrby. apply preserves_redis_call.
  intros s [Hpop Hco]. cbv beta zeta. cbn [fst snd]. split; [|done].
  intros p x. cbn. destruct (decide (p = member)) as [->|Hne].
  - rewrite lookup_insert_eq. intros [= <-].
    apply Qcle_one_plus; [|done]. apply default_score_nonneg. apply Hpop.
  - rewrite lookup_insert_ne by done. apply Hpop.
Qed.

Lemma zincrby_co_occurrence_positive a amount b :
  1 ≤ amount → preserves scores_positive (redis.zincrby (co_occurrence_key a) amount b).
Proof.
  intros Ha. unfold redis.zincrby. apply preserves_redis_call.
  intros s [Hpop Hco]. cbv beta zeta. cbn [fst snd]. split; [done|].
  intros x y v. rewrite strength_zincrby. case_bool_decide as Hxy; [|apply Hco].
  destruct Hxy as [-> ->]. intros [= <-].
  apply Qcle_one_plus; [|done]. apply default_score_nonneg. apply (Hco a b).
Qed.

Lemma interaction_weights_positive t : 1 ≤ default 1 (interaction_weights t).
Proof. by destruct t. Qed.

Ltac positive_frame :=
  match goal with
  | H : scores_positive _ |- scores_positive _ =>
      unfold scores_positive, strength in *; frame_solve
  end.

Lemma serve_positive r : preserves scores_positive (serve r).
Proof.
  destruct r; unfold_service; cbv zeta.
  all: repeat first
         [ apply zincrby_popularity_positive; apply interaction_weights_positive
         | apply zincrby_co_occurrence_positive; done
         | preserves_step
         | progress unfold redis.lpush, redis.ltrim, redis.lrange, redis.expire,
             redis.zrevrange, redis.smembers, redis.get, redis.setex, redis.sadd,
             redis.hgetall_profile, redis.hgetall_product, redis.hset_product,
             redis.hincrby_interaction_count, redis.hset_last_active
         | apply preserves_redis_call; intros ? ? ];
       positive_frame.
Qed.

Lemma reachable_positive s : reachable s → scores_positive s.
Proof.
  intros H. induction H as [|r w _ IH].
  - split.
    + intros p x. cbn. by rewrite lookup_empty.
    + intros a b x. unfold strength. cbn. by rewrite lookup_empty.
  - apply (wp_store (serve r) scores_positive w). by apply serve_positive.
Qed.

(** * Messages from the bus *)

Lemma truthy_Some x : truthy x = true → ∃ s, x = Some s ∧ s ≠ "".
Proof.
  destruct x as [s|]; [|done]. cbn. intros H. apply bool_decide_eq_true in H. eauto.
Qed.

Lemma item_product_Some item p :
  item_product item = Some p →
  truthy (if truthy (Event.item_productId item) then Event.item_productId item
          else Event.item_product_id item) = true
  ∧ (if truthy (Event.item_productId item) then Event.item_productId item
     else Event.item_product_id item) = Some p.
Proof.
  unfold item_product. cbv zeta.
  destruct (truthy (if truthy _ then _ else _)) eqn:H; [|done]. by intros ->.
Qed.

Lemma item_product_None item :
  item_product item = None →
  truthy (if truthy (Event.item_productId item) then Event.item_productId item
          else Event.item_product_id item) = false.
Proof.
  unfold item_product. cbv zeta.
  destruct (truthy (if truthy _ then _ else _)) eqn:H; [|done].
  intros Hnone. rewrite Hnone in H. done.
Qed.

Lemma track_interaction_tracked i s now st :
  track_interaction i (available s now st) = (inr true, available (tracked i s now st) now st).
Proof. apply track_interaction_effects. Qed.

(** What the handlers do for one interaction they have both ids of. *)
Lemma tracked_from_the_bus u p t s now st :
  (now <- utcnow_isoformat ;;
   interaction <- new_UserInteraction (Some u) (Some p) t now ;;
   track_interaction interaction ;;;
   ret tt) (available s now st)
  = (inr tt, available (tracked (UserInteraction.mk u p t 1 now None) s now st) now st).
Proof.
  unfold bind, utcnow_isoformat, new_UserInteraction, ret. cbn [clock available].
  change (mkWorld s [] now st) with (available s now st).
  by rewrite track_interaction_tracked.
Qed.

(** An order is recorded as one purchase per item that names a product. *)
Lemma _handle_order_event_available u items s now st :
  KafkaEventConsumer._handle_order_event (order_created (Some u) items)
    (available s now st)
  = (inr tt,
     available
       (tracked_all
          ((λ p, UserInteraction.mk u p PURCHASE 1 now None)
             <$> omap item_product (default [] items)) s now st)
       now st).
Proof.
  unfold KafkaEventConsumer._handle_order_event, order_created. cbv zeta.
  cbn [Event.eventType Event.userId Event.items].
  rewrite bool_decide_eq_true_2 by done.
  generalize (default [] items). clear items. intros items. revert s.
  induction items as [|item items IH]; intros s; [done|].
  cbn [for_each omap list_omap].
  destruct (item_product item) as [p|] eqn:Hitem.
  - apply item_product_Some in Hitem as [Htruthy Hp].
    rewrite Htruthy, Hp. cbn [fmap list_fmap].
    erewrite bind_returns; [|apply tracked_from_the_bus].
    unfold tracked_all. cbn [foldl]. apply IH.
  - apply item_product_None in Hitem. rewrite Hitem. rewrite bind_ret. apply IH.
Qed.

(** Without a user id nothing is recorded, and no call is made. *)
Lemma _handle_order_event_anonymous items w :
  (KafkaEventConsumer._handle_order_event (order_created None items) w).2 = w.
Proof.
  unfold KafkaEventConsumer._handle_order_event, order_created. cbv zeta.
  cbn [Event.eventType Event.userId Event.items].
  rewrite bool_decide_eq_true_2 by done.
  induction (default [] items) as [|item l IH]; [done|].
  cbn [for_each]. destruct (truthy _) eqn:Htruthy.
  - apply truthy_Some in Htruthy as (p & -> & _). done.
  - rewrite bind_ret. apply IH.
Qed.

Lemma _handle_message_returns topic event w :
  KafkaEventConsumer._handle_message topic event w
  = (inr tt, (KafkaEventConsumer._handle_message topic event w).2).
Proof.
  unfold KafkaEventConsumer._handle_message, try_except.
  destruct (_ w) as [[e|[]] w']; done.
Qed.

Lemma swallowed (body : M unit) w w' r :
  body w = (r, w') →
  try_except body (λ e, ret tt) w = (inr tt, w').
Proof. intros H. unfold try_except. rewrite H. by destruct r as [e|[]]. Qed.

Lemma tracked_purchased_mono i s now st u x :
  x ∈ set_at (purchased_key u) s → x ∈ set_at (purchased_key u) (tracked i s now st).
Proof.
  intros Hx.
  destruct (track_interaction_effects i s now st) as (_ & _ & _ & Hpu & _).
  unfold set_at. rewrite Hpu. case_bool_decide; [|done].
  destruct (decide (u = UserInteraction.user_id i)) as [->|Hne].
  - rewrite lookup_insert_eq. cbn. apply elem_of_app. by left.
  - by rewrite lookup_insert_ne.
Qed.

Lemma tracked_all_purchased_mono l s now st u x :
  x ∈ set_at (purchased_key u) s → x ∈ set_at (purchased_key u) (tracked_all l s now st).
Proof.
  revert s. induction l as [|i l IH]; intros s Hx; [done|].
  unfold tracked_all in *. cbn [foldl]. apply IH. by apply tracked_purchased_mono.
Qed.

Lemma tracked_purchase_member u p score timestamp metadata s now st :
  p ∈ set_at (purchased_key u)
        (tracked (UserInteraction.mk u p PURCHASE score timestamp metadata) s now st).
Proof.
  destruct (track_interaction_effects
              (UserInteraction.mk u p PURCHASE score timestamp metadata) s now st)
    as (_ & _ & _ & Hpu & _).
  cbn [UserInteraction.user_id UserInteraction.product_id
       UserInteraction.interaction_type] in Hpu.
  unfold set_at at 1. rewrite Hpu. case_bool_decide as Hc.
  - rewrite lookup_insert_eq. cbn. apply elem_of_app. right.
    by apply list_elem_of_singleton.
  - destruct (decide (p ∈ set_at (purchased_key u) s)) as [Hin|Hin]; [done|].
    exfalso. by apply Hc.
Qed.

Lemma popularity_rank_tracked i s now st q :
  popularity_rank (tracked i s now st) q
  = popularity_rank s q
    + (if bool_decide (UserInteraction.product_id i = q)
       then weight_of (UserInteraction.interaction_type i) else 0).
Proof.
  destruct (track_interaction_effects i s now st) as (_ & _ & Hpop & _).
  by apply bump_rank.
Qed.

Lemma popularity_rank_purchases u ps now q s st :
  popularity_rank
    (tracked_all ((λ p, UserInteraction.mk u p PURCHASE 1 now None) <$> ps) s now st) q
  = popularity_rank s q + Qc_of_Z (Z.of_nat (occurrences_of q ps)) * Qc_of_Z 5.
Proof.
  revert s. induction ps as [|p ps IH]; intros s.
  - unfold occurrences_of. rewrite filter_nil. cbn [fmap list_fmap length].
    change (Z.of_nat 0) with 0%Z. rewrite Qc_of_Z_0. unfold tracked_all. cbn [foldl]. ring.
  - rewrite fmap_cons. unfold tracked_all in *. cbn [foldl]. rewrite IH.
    rewrite popularity_rank_tracked. cbn [UserInteraction.product_id
      UserInteraction.interaction_type].
    unfold occurrences_of. rewrite filter_cons. case_bool_decide.
    + rewrite decide_True by done. cbn [length]. rewrite Qc_of_Z_succ.
      change (weight_of PURCHASE) with (Qc_of_Z 5). ring.
    + rewrite decide_False by done. ring.
Qed.

(** X8. An [OrderCreated] message is recorded as one purchase by its user
    for each item that names a product, in the order of the items;
    without a user id nothing is recorded. *)
Theorem orders_are_recorded_as_purchases u items s now st :
  let products := omap item_product (default [] items) in
  let s' :=
    tracked_all ((λ p, UserInteraction.mk u p PURCHASE 1 now None) <$> products)
      s now st in
  KafkaEventConsumer._handle_message "order-events" (order_created (Some u) items)
    (available s now st)
  = (inr tt, available s' now st)
  ∧ (∀ p, p ∈ products → p ∈ set_at (purchased_key u) s')
  ∧ (∀ p, popularity_rank s' p
          = popularity_rank s p
            + Qc_of_Z (Z.of_nat (occurrences_of p products)) * Qc_of_Z 5)
  ∧ (∀ w, KafkaEventConsumer._handle_message "order-events" (order_created None items) w
          = (inr tt, w)).
Proof.
  intros products s'. split_and!.
  - unfold KafkaEventConsumer._handle_message.
    rewrite bool_decide_eq_true_2 by done.
    eapply swallowed. apply _handle_order_event_available.
  - intros p Hp. subst s'. revert s. induction products as [|q ps IH]; intros s.
    { by apply elem_of_nil in Hp. }
    rewrite fmap_cons. unfold tracked_all. cbn [foldl].
    apply elem_of_cons in Hp as [->|Hp].
    + apply tracked_all_purchased_mono, tracked_purchase_member.
    + by apply IH.
  - intros p. apply popularity_rank_purchases.
  - intros w. unfold KafkaEventConsumer._handle_message.
    rewrite bool_decide_eq_true_2 by done.
    pose proof (_handle_order_event_anonymous items w) as H.
    destruct (KafkaEventConsumer._handle_order_event (order_created None items) w)
      as [r w'] eqn:Hrun.
    cbn in H. subst w'. by eapply swallowed.
Qed.

(** X9. A [ProductViewed], [ProductAddedToCart] or [ProductAddedToWishlist]
    message is recorded as a view, an add-to-cart or a wishlist
    interaction; any other user event, or one without user or product,
    leaves the world as it is. *)
Theorem user_events_are_recorded event_type user_id product_id :
  (∀ t u p s now st,
     bus_interaction_type event_type = Some t →
     user_id = Some u → u ≠ "" → product_id = Some p → p ≠ "" →
     KafkaEventConsumer._handle_message "user-events"
       (user_event event_type user_id product_id) (available s now st)
     = (inr tt,
        available (tracked (UserInteraction.mk u p t 1 now None) s now st) now st))
  ∧ (∀ w,
       bus_interaction_type event_type = None
       ∨ truthy user_id = false ∨ truthy product_id = false →
       KafkaEventConsumer._handle_message "user-events"
         (user_event event_type user_id product_id) w
       = (inr tt, w)).
Proof.
  split.
  - intros t u p s now st Ht -> Hu -> Hp.
    unfold KafkaEventConsumer._handle_message.
    rewrite bool_decide_eq_false_2 by done.
    rewrite bool_decide_eq_false_2 by done.
    rewrite bool_decide_eq_true_2 by done.
    eapply swallowed.
    unfold KafkaEventConsumer._handle_user_event, user_event. cbv zeta.
    cbn [Event.eventType Event.userId Event.productId truthy].
    rewrite !(bool_decide_eq_true_2 (u ≠ "")) by done.
    rewrite !(bool_decide_eq_true_2 (p ≠ "")) by done. cbn [andb].
    unfold bus_interaction_type in Ht.
    repeat case_bool_decide; simplify_eq; try done;
      rewrite ?bool_decide_eq_true_2, ?bool_decide_eq_false_2 by congruence;
      apply tracked_from_the_bus.
  - intros w Hcase.
    unfold KafkaEventConsumer._handle_message.
    rewrite bool_decide_eq_false_2 by done.
    rewrite bool_decide_eq_false_2 by done.
    rewrite bool_decide_eq_true_2 by done.
    eapply (swallowed _ w w (inr tt)).
    unfold KafkaEventConsumer._handle_user_event, user_event. cbv zeta.
    cbn [Event.eventType Event.userId Event.productId].
    unfold bus_interaction_type in Hcase.
    destruct Hcase as [Hty|[Hu|Hp]].
    + repeat case_bool_decide; simplify_eq; done.
    + rewrite Hu. cbn [andb]. by repeat case_bool_decide.
    + rewrite Hp, andb_false_r. by repeat case_bool_decide.
Qed.

(** X10. The consumer handles every message in turn and never stops on one
    that fails. *)
Theorem consumer_handles_every_message messages w :
  consume messages w = (inr tt, handled messages w)
  ∧ (∀ more, consume (messages ++ more) w
             = consume more (consume messages w).2)
  ∧ (∀ topic event, ∃ w', KafkaEventConsumer._handle_message topic event w = (inr tt, w'))
  ∧ (∀ topic event,
       topic ≠ "order-events" → topic ≠ "product-events" → topic ≠ "user-events" →
       KafkaEventConsumer._handle_message topic event w = (inr tt, w)).
Proof.
  assert (Hloop : ∀ l w0,
    for_each l (λ message, KafkaEventConsumer._handle_message message.1 message.2) w0
    = (inr tt, handled l w0)).
  { intros l. induction l as [|m l IH]; intros w0; [done|].
    cbn [for_each]. unfold bind. rewrite _handle_message_returns. apply IH. }
  assert (Hconsume : ∀ l w0, consume l w0 = (inr tt, handled l w0)).
  { intros l w0. unfold consume. by apply try_except_returns. }
  split_and!.
  - apply Hconsume.
  - intros more. rewrite !Hconsume. cbn [snd]. unfold handled. by rewrite foldl_app.
  - intros topic event. eexists. apply _handle_message_returns.
  - intros topic event H1 H2 H3. unfold KafkaEventConsumer._handle_message.
    by rewrite !bool_decide_eq_false_2 by done.
Qed.

Lemma category_of_metadata s p :
  category_of s p
  = match metadata s p !! "category_id" with
    | Some c => if bool_decide (c ≠ "") then Some c else None
    | None => None
    end.
Proof. done. Qed.

Lemma _handle_product_event_available event_type data pid s now st :
  event_type = "ProductCreated" ∨ event_type = "ProductUpdated" →
  Event.id data = Some pid → pid ≠ "" →
  let h :=
    <["name" := default "" (Event.name data)]>
      (<["price" := default "0" (Event.price data)]>
         (<["brand_id" := default "" (Event.brandId data)]>
            (<["category_id" := default "" (Event.categoryId data)]> (metadata s pid)))) in
  let s1 := set_product (<[pid := h]> (product s)) s in
  let s' :=
    match event_category data with
    | Some c =>
        if bool_decide (pid ∈ set_at (category_products_key c) s) then s1
        else set_put (category_products_key c)
               (set_at (category_products_key c) s ++ [pid]) s1
    | None => s1
    end in
  KafkaEventConsumer._handle_message "product-events" (product_event event_type data)
    (available s now st)
  = (inr tt, available s' now st).
Proof.
  intros Hty Hid Hpid h s1 s'.
  unfold KafkaEventConsumer._handle_message.
  rewrite bool_decide_eq_false_2 by done.
  rewrite bool_decide_eq_true_2 by done.
  eapply swallowed.
  unfold KafkaEventConsumer._handle_product_event, product_event. cbv zeta.
  cbn [Event.eventType Event.data_ default from_option id].
  assert (bool_decide (Some event_type = Some "ProductCreated")
          || bool_decide (Some event_type = Some "ProductUpdated") = true) as ->.
  { destruct Hty as [-> | ->]; by cbn. }
  rewrite Hid. cbn [truthy default from_option id].
  rewrite (bool_decide_eq_true_2 (pid ≠ "")) by done.
  unfold redis.hset_product, redis.expire, redis.sadd.
  rewrite bind_redis_call. cbn [fst snd foldl].
  rewrite bind_redis_call. cbn [fst snd].
  fold (metadata s pid). fold h. fold s1.
  subst s'. unfold event_category.
  destruct (truthy (Event.categoryId data)) eqn:Hc; [|done].
  apply truthy_Some in Hc as (c & Hc & Hne). rewrite Hc. cbn [default from_option id].
  rewrite bind_redis_call.
  change (set_at (category_products_key c) s1) with (set_at (category_products_key c) s).
  case_bool_decide; cbn [fst snd]; by rewrite bind_redis_call.
Qed.

(** X11. A product event caches the metadata of the product and puts it in
    the set of its category; it is never taken out of the set of a
    category it was in before. *)
Theorem product_events_cache_metadata event_type data pid s now st :
  event_type = "ProductCreated" ∨ event_type = "ProductUpdated" →
  Event.id data = Some pid → pid ≠ "" →
  let s' :=
    store (KafkaEventConsumer._handle_message "product-events"
             (product_event event_type data) (available s now st)).2 in
  metadata s' pid !! "category_id" = Some (default "" (Event.categoryId data))
  ∧ metadata s' pid !! "brand_id" = Some (default "" (Event.brandId data))
  ∧ metadata s' pid !! "price" = Some (default "0" (Event.price data))
  ∧ metadata s' pid !! "name" = Some (default "" (Event.name data))
  ∧ category_of s' pid = event_category data
  ∧ (∀ c, event_category data = Some c → pid ∈ set_at (category_products_key c) s')
  ∧ (∀ c x, x ∈ set_at (category_products_key c) s →
            x ∈ set_at (category_products_key c) s')
  ∧ (∀ q, q ≠ pid → metadata s' q = metadata s q)
  ∧ (interactions s', popularity s', co_occurrence s', purchased s', user_profile s',
     caches s')
    = (interactions s, popularity s, co_occurrence s, purchased s, user_profile s,
       caches s).
Proof.
  intros Hty Hid Hpid s'. subst s'.
  rewrite (_handle_product_event_available event_type data pid s now st Hty Hid Hpid).
  cbn [snd store available].
  set (h := <["name" := _]> _).
  set (s1 := set_product _ s).
  assert (Hmeta : ∀ s2, product s2 = product s1 → metadata s2 pid = h).
  { intros s2 Hs2. unfold metadata. rewrite Hs2. cbn. by rewrite lookup_insert_eq. }
  assert (Hprod : ∀ c l, product (set_put (category_products_key c) l s1) = product s1)
    by done.
  set (s' := match event_category data with Some _ => _ | None => _ end).
  assert (Hs' : product s' = product s1).
  { subst s'. destruct (event_category data); [|done]. by case_bool_decide. }
  assert (Hcat : metadata s' pid !! "category_id" = Some (default "" (Event.categoryId data))).
  { rewrite (Hmeta s' Hs'). subst h.
    rewrite lookup_insert_ne by done. rewrite lookup_insert_ne by done.
    rewrite lookup_insert_ne by done. by rewrite lookup_insert_eq. }
  split_and!.
  - exact Hcat.
  - rewrite (Hmeta s' Hs'). subst h.
    rewrite lookup_insert_ne by done. rewrite lookup_insert_ne by done.
    by rewrite lookup_insert_eq.
  - rewrite (Hmeta s' Hs'). subst h.
    rewrite lookup_insert_ne by done. by rewrite lookup_insert_eq.
  - rewrite (Hmeta s' Hs'). subst h. by rewrite lookup_insert_eq.
  - rewrite category_of_metadata, Hcat. unfold event_category.
    destruct (Event.categoryId data) as [c|]; cbn; [|done].
    by case_bool_decide.
  - intros c Hc. subst s'. rewrite Hc. case_bool_decide as Hin; [done|].
    cbn. rewrite lookup_insert_eq. cbn. apply elem_of_app. right.
    by apply list_elem_of_singleton.
  - intros c x Hx. subst s'. destruct (event_category data) as [c'|]; [|done].
    case_bool_decide; [done|]. cbn.
    destruct (decide (c = c')) as [->|Hne].
    + rewrite lookup_insert_eq. cbn. apply elem_of_app. by left.
    + by rewrite lookup_insert_ne.
  - intros q Hq. unfold metadata. rewrite Hs'. cbn. by rewrite lookup_insert_ne.
  - subst s'. destruct (event_category data); [|done]. by case_bool_decide.
Qed.

Lemma product_events_cache_metadata_witness :
  let data := Event.mk_data (Some "P") (Some "c") None (Some "9.5") (Some "Pen") in
  let s' :=
    store (KafkaEventConsumer._handle_message "product-events"
             (product_event "ProductCreated" data) (available empty_store "" "")).2 in
  ("ProductCreated" = "ProductCreated" ∨ "ProductCreated" = "ProductUpdated")
  ∧ Event.id data = Some "P"
  ∧ "P" ≠ ""
  ∧ category_of s' "P" = Some "c"
  ∧ set_at (category_products_key "c") s' = ["P"].
Proof.
  intros data s'.
  assert ("ProductCreated" = "ProductCreated" ∨ "ProductCreated" = "ProductUpdated")
    as Hty by (by left).
  assert ("P" ≠ "") as Hp by done.
  split_and!; [done..| |compute_done].
  exact (proj1 (proj2 (proj2 (proj2 (proj2
           (product_events_cache_metadata "ProductCreated" data "P" empty_store "" ""
              Hty eq_refl Hp)))))).
Defined.

(** * The queries *)

Lemma range_all {A} (l : list A) : Redis.range l 0 (-1) = l.
Proof.
  unfold Redis.range. cbv zeta.
  change (0 <? 0)%Z with false. change (-1 <? 0)%Z with true. cbv iota.
  destruct l as [|x l]; [done|].
  repeat match goal with
         | |- context [(?a <? ?b)%Z] => destruct (Z.ltb_spec a b); try (simpl in *; lia)
         | |- context [(?a <=? ?b)%Z] => destruct (Z.leb_spec a b); try (simpl in *; lia)
         end; cbn [orb].
  all: change (Z.to_nat 0) with 0%nat; rewrite drop_0; apply take_ge; simpl in *; lia.
Qed.

Lemma descending_cut {A} (key : A → Qc) (l : list A) n x y :
  descending key l → x ∈ take n l → y ∈ drop n l → key y ≤ key x.
Proof.
  intros Hl Hx Hy. unfold descending in Hl. rewrite <- (take_drop n l) in Hl.
  by eapply (StronglySorted_app_1_elem_of _ _ _ x y) in Hl.
Qed.

(** X12. On a cache miss [get_trending_products] answers with the head of the
    popularity ranking and caches its answer. *)
Theorem trending_is_the_head_of_the_ranking limit s now st :
  cache_trending s = None →
  let ranking := popularity_ranking s in
  let out := trending_item <$> Redis.range ranking 0 (limit - 1) in
  get_trending_products limit (available s now st)
  = (inr out, available (set_cache_trending (Some out) s) now st)
  ∧ ((1 ≤ limit)%Z → out = trending_item <$> take (Z.to_nat limit) ranking)
  ∧ (limit = 0%Z → out = trending_item <$> ranking)
  ∧ descending RecommendedProduct.score out
  ∧ NoDup (RecommendedProduct.product_id <$> out)
  ∧ (∀ r, r ∈ out →
          popularity s !! RecommendedProduct.product_id r = Some (RecommendedProduct.score r)
          ∧ RecommendedProduct.reason r = "Trending now")
  ∧ ((1 ≤ limit)%Z →
     ∀ r p x, r ∈ out → popularity s !! p = Some x →
              (p ∉ RecommendedProduct.product_id <$> out) →
              x ≤ RecommendedProduct.score r).
Proof.
  intros Hmiss ranking out.
  assert (Hsorted : descending snd ranking) by apply zrev_all_descending.
  assert (Hout1 : (1 ≤ limit)%Z → out = trending_item <$> take (Z.to_nat limit) ranking).
  { intros Hl. subst out. rewrite range_from_zero by lia. do 2 f_equal. lia. }
  split_and!.
  - by apply get_trending_products_miss.
  - exact Hout1.
  - intros ->. subst out. by rewrite range_all.
  - subst out. apply descending_fmap.
    destruct (range_sublist ranking 0 (limit - 1)) as (i & k & ->).
    unfold descending in *. rewrite <- (take_drop i ranking) in Hsorted.
    apply StronglySorted_app_1_r in Hsorted.
    rewrite <- (take_drop k (drop i ranking)) in Hsorted.
    by apply StronglySorted_app_1_l in Hsorted.
  - subst out. rewrite <- list_fmap_compose.
    apply (range_NoDup_fst ranking 0 (limit - 1)), zrev_all_NoDup.
  - intros r Hr. apply list_elem_of_fmap in Hr as ([p x] & -> & Hin).
    apply range_subseteq, elem_of_popularity_ranking in Hin. done.
  - intros Hl r p x Hr Hp Hnot. rewrite (Hout1 Hl) in Hr, Hnot.
    apply list_elem_of_fmap in Hr as ([q y] & -> & Hin). cbn.
    apply elem_of_popularity_ranking in Hp. fold ranking in Hp.
    rewrite <- (take_drop (Z.to_nat limit) ranking) in Hp.
    apply elem_of_app in Hp as [Hp|Hp].
    + exfalso. apply Hnot. rewrite <- list_fmap_compose.
      apply list_elem_of_fmap. by exists (p, x).
    + by apply (descending_cut snd ranking (Z.to_nat limit) (q, y) (p, x)).
Qed.

Lemma trending_is_the_head_of_the_ranking_witness :
  cache_trending trending_example_store = None
  ∧ get_trending_products 1 (available trending_example_store "" "")
    = (inr [RecommendedProduct.new "P2" (Qc_of_Z 5) "Trending now"],
       available
         (set_cache_trending
            (Some [RecommendedProduct.new "P2" (Qc_of_Z 5) "Trending now"])
            trending_example_store) "" "").
Proof.
  split; [done|].
  rewrite (proj1 (trending_is_the_head_of_the_ranking 1 trending_example_store "" ""
                    eq_refl)).
  f_equal; [f_equal|f_equal; f_equal; f_equal]; compute_done.
Defined.

Lemma product_ids_of_items (l : list string) score reason :
  RecommendedProduct.product_id
    <$> ((λ p, RecommendedProduct.new p score reason) <$> l) = l.
Proof. induction l as [|p l IH]; [done|]. cbn. by rewrite IH. Qed.

(** X13. [get_recently_viewed] lists the products of the view entries read
    from the log, each once, most recent first; it answers with at most
    [limit] of them, but with one when [limit] is zero or negative. *)
Theorem recently_viewed_lists_distinct_views u limit s now st :
  let out :=
    (λ p, RecommendedProduct.new p 1 "Recently viewed")
      <$> take (Z.to_nat (Z.max 1 limit)) (viewed_products s u) in
  get_recently_viewed u limit (available s now st) = (inr out, available s now st)
  ∧ NoDup (RecommendedProduct.product_id <$> out)
  ∧ (∀ r, r ∈ out →
          ∃ i, i ∈ read_log s u
               ∧ InteractionData.product_id i = RecommendedProduct.product_id r
               ∧ InteractionData.type i = "view")
  ∧ ((1 ≤ limit)%Z → (Z.of_nat (length out) ≤ limit)%Z)
  ∧ ((limit ≤ 0)%Z → out = (λ p, RecommendedProduct.new p 1 "Recently viewed")
                              <$> take 1 (viewed_products s u))
  ∧ (∀ i, i ∈ read_log s u → InteractionData.type i = "view" →
          (length (viewed_products s u) ≤ Z.to_nat limit)%nat →
          InteractionData.product_id i ∈ RecommendedProduct.product_id <$> out).
Proof.
  intros out. split_and!.
  - apply get_recently_viewed_available.
  - subst out. rewrite product_ids_of_items.
    assert (NoDup (viewed_products s u)) as H by apply first_occurrences_NoDup.
    rewrite <- (take_drop (Z.to_nat (1 `max` limit)) (viewed_products s u)) in H.
    by apply NoDup_app in H as [H _].
  - intros r Hr. apply list_elem_of_fmap in Hr as (p & -> & Hp). cbn.
    apply elem_of_take in Hp as (k & Hk & _). apply list_elem_of_lookup_2 in Hk.
    apply first_occurrences_spec in Hk as [Hk _].
    apply list_elem_of_fmap in Hk as (i & -> & Hi).
    apply list_elem_of_filter in Hi as [Hty Hi]. eauto.
  - intros Hl. subst out. rewrite length_fmap, length_take. lia.
  - intros Hl. subst out. do 2 f_equal. lia.
  - intros i Hi Hty Hlen. subst out. rewrite product_ids_of_items.
    rewrite take_ge by lia.
    apply first_occurrences_spec. split; [|apply not_elem_of_nil].
    apply list_elem_of_fmap. exists i. split; [done|].
    apply list_elem_of_filter. done.
Qed.

Lemma try_except_always_returns {A} (body : M A) (handler : Exn → M A) :
  (∀ e, always_returns (handler e) (λ _, True)) →
  always_returns (try_except body handler) (λ _, True).
Proof.
  intros Hh w. unfold try_except. destruct (body w) as [[e|a] w'] eqn:Hb.
  - apply Hh.
  - eauto.
Qed.

Lemma handled_by_empty_list (body : M (list RecommendedProduct.t)) :
  always_returns (try_except body (λ e, ret [])) (λ _, True).
Proof. apply try_except_always_returns. intros e w. by exists [], w. Qed.

Lemma get_personalized_recommendations_always_returns u limit ex :
  always_returns (get_personalized_recommendations u limit ex) (λ _, True).
Proof.
  apply try_except_always_returns. intros e. apply handled_by_empty_list.
Qed.

(** A query that always returns, and within [limit] when [limit] is at
    least [lo]. *)
Lemma answers_within (m : M (list RecommendedProduct.t)) lo limit w :
  always_returns m (λ _, True) →
  ((lo ≤ limit)%Z → always_returns m (within limit)) →
  ∃ out w', m w = (inr out, w') ∧ ((lo ≤ limit)%Z → within limit out).
Proof.
  intros Hany Hin. destruct (decide (lo ≤ limit)%Z) as [Hl|Hl].
  - destruct (Hin Hl w) as (out & w' & Hrun & Hout). eauto.
  - destruct (Hany w) as (out & w' & Hrun & _). exists out, w'. split; [done|]. lia.
Qed.

(** X14. No query raises, whatever the store holds and whichever call fails;
    for a limit of at least 1 the answer holds at most [limit] items; a
    query whose first call fails answers with the empty list, and
    [get_personalized_recommendations] with the trending products. *)
Theorem queries_always_answer limit w :
  (∀ u ex, ∃ out w',
     get_personalized_recommendations u limit ex w = (inr out, w')
     ∧ ((1 ≤ limit)%Z → within limit out))
  ∧ (∀ p, ∃ out w',
       get_similar_products p limit w = (inr out, w')
       ∧ ((0 ≤ limit)%Z → within limit out))
  ∧ (∃ out w',
       get_trending_products limit w = (inr out, w') ∧ ((1 ≤ limit)%Z → within limit out))
  ∧ (∀ u, ∃ out w',
       get_recently_viewed u limit w = (inr out, w') ∧ ((1 ≤ limit)%Z → within limit out))
  ∧ (∀ ps, ∃ out w',
       get_frequently_bought_together ps limit w = (inr out, w')
       ∧ ((0 ≤ limit)%Z → within limit out))
  ∧ (∀ s fs now st p,
       get_similar_products p limit (mkWorld s (true :: fs) now st)
       = (inr [], mkWorld s fs now st))
  ∧ (∀ s fs now st,
       get_trending_products limit (mkWorld s (true :: fs) now st)
       = (inr [], mkWorld s fs now st))
  ∧ (∀ s fs now st u,
       get_recently_viewed u limit (mkWorld s (true :: fs) now st)
       = (inr [], mkWorld s fs now st))
  ∧ (∀ s fs now st p ps,
       get_frequently_bought_together (p :: ps) limit (mkWorld s (true :: fs) now st)
       = (inr [], mkWorld s fs now st))
  ∧ (∀ s fs now st u ex,
       get_personalized_recommendations u limit ex (mkWorld s (true :: fs) now st)
       = get_trending_products limit (mkWorld s fs now st)).
Proof.
  split_and!; try done.
  - intros u ex. apply answers_within.
    + apply get_personalized_recommendations_always_returns.
    + apply get_personalized_recommendations_within.
  - intros p. apply answers_within; [apply handled_by_empty_list|].
    apply get_similar_products_within.
  - apply answers_within; [apply handled_by_empty_list|].
    apply get_trending_products_within.
  - intros u. apply answers_within; [apply handled_by_empty_list|].
    apply get_recently_viewed_within.
  - intros ps. apply answers_within; [apply handled_by_empty_list|].
    apply get_frequently_bought_together_within.
Qed.

(** X15. Queries never change what was recorded: [get_recently_viewed] and
    [get_frequently_bought_together] leave the store as it is, the other
    three write nothing but cache entries. *)
Theorem queries_write_only_caches w :
  (∀ u limit, store (get_recently_viewed u limit w).2 = store w)
  ∧ (∀ ps limit, store (get_frequently_bought_together ps limit w).2 = store w)
  ∧ (∀ u limit, store (_collaborative_filtering u limit w).2 = store w)
  ∧ (∀ cs limit, store (_get_category_recommendations cs limit w).2 = store w)
  ∧ (∀ u limit ex,
       recorded_data (store (get_personalized_recommendations u limit ex w).2)
       = recorded_data (store w))
  ∧ (∀ p limit,
       recorded_data (store (get_similar_products p limit w).2) = recorded_data (store w))
  ∧ (∀ limit,
       recorded_data (store (get_trending_products limit w).2) = recorded_data (store w)).
Proof.
  split_and!; intros.
  - apply (preserves_store _ (λ s, s = store w));
      [apply get_recently_viewed_store|done].
  - apply (preserves_store _ (λ s, s = store w));
      [apply get_frequently_bought_together_store|done].
  - apply (preserves_store _ (λ s, s = store w));
      [apply _collaborative_filtering_store|done].
  - apply (preserves_store _ (λ s, s = store w));
      [apply _get_category_recommendations_store|done].
  - apply (preserves_store _ (λ s, recorded_data s = recorded_data (store w)));
      [apply get_personalized_recommendations_data|done].
  - apply (preserves_store _ (λ s, recorded_data s = recorded_data (store w)));
      [apply get_similar_products_data|done].
  - apply (preserves_store _ (λ s, recorded_data s = recorded_data (store w)));
      [apply get_trending_products_data|done].
Qed.

Lemma serve_recording_caches r X :
  match r with Track _ | Message _ _ => True | _ => False end →
  preserves (λ s, caches s = X) (serve r).
Proof.
  destruct r; try done; intros _; cbn [serve].
  - apply preserves_bind; [apply track_interaction_caches|intros; apply preserves_ret].
  - apply _handle_message_caches.
Qed.

Lemma recording_keeps_caches rs s :
  Forall (λ r, match r with Track _ | Message _ _ => True | _ => False end) rs →
  caches (replay rs s) = caches s.
Proof.
  revert s. induction rs as [|r rs IH]; intros s Hrs; [done|].
  apply Forall_cons in Hrs as [Hr Hrs]. unfold replay in *. cbn [foldl].
  rewrite IH by done.
  apply (preserves_store (serve r) (λ s', caches s' = caches s) (available s "" ""));
    [by apply serve_recording_caches|done].
Qed.

(** X16. Recording never refreshes a cached answer: neither [track_interaction]
    nor a bus message touches a cache entry, so a trending answer found in
    the cache is served as it is after any number of them. *)
Theorem recording_keeps_cached_answers :
  (∀ i w, caches (store (track_interaction i w).2) = caches (store w))
  ∧ (∀ topic event w,
       caches (store (KafkaEventConsumer._handle_message topic event w).2)
       = caches (store w))
  ∧ (∀ rs s l limit now st,
       Forall (λ r, match r with Track _ | Message _ _ => True | _ => False end) rs →
       cache_trending s = Some l →
       get_trending_products limit (available (replay rs s) now st)
       = (inr (Py.prefix l limit), available (replay rs s) now st))
  ∧ (∀ rs s p l limit now st,
       Forall (λ r, match r with Track _ | Message _ _ => True | _ => False end) rs →
       cache_similar s !! p = Some l →
       get_similar_products p limit (available (replay rs s) now st)
       = (inr (Py.prefix l limit), available (replay rs s) now st)).
Proof.
  split_and!.
  - intros i w.
    apply (preserves_store _ (λ s, caches s = caches (store w)));
      [apply track_interaction_caches|done].
  - intros topic event w.
    apply (preserves_store _ (λ s, caches s = caches (store w)));
      [apply _handle_message_caches|done].
  - intros rs s l limit now st Hrs Hl. apply get_trending_products_hit.
    pose proof (recording_keeps_caches rs s Hrs) as H. unfold caches in H.
    injection H as _ _ ->. done.
  - intros rs s p l limit now st Hrs Hl.
    pose proof (recording_keeps_caches rs s Hrs) as H. unfold caches in H.
    injection H as _ Hsim _.
    unfold get_similar_products. apply try_except_returns.
    unfold redis.get. rewrite bind_redis_call. cbn [fst snd cache_at].
    by rewrite Hsim, Hl.
Qed.

(** X17. With fewer than five entries read from the log the collaborative
    signal is empty, whichever call fails. *)
Theorem collaborative_filtering_needs_five_entries u limit s :
  (length (read_log s u) < Settings.min_interactions_for_cf)%nat →
  ∀ fs now st, (_collaborative_filtering u limit (mkWorld s fs now st)).1 = inr [].
Proof.
  intros Hlen fs now st.
  cut (wp (_collaborative_filtering u limit) (λ out _, out = []) (λ _, False) s).
  { intros H. specialize (H fs now st).
    by destruct (_collaborative_filtering u limit _) as [[e|out] w']; [|subst out]. }
  unfold _collaborative_filtering, _get_user_interactions, redis.lrange.
  apply wp_try, wp_bind, wp_bind, wp_redis_call; [by intros; apply wp_ret|].
  cbn [fst snd]. apply wp_ret.
  fold (interaction_log s u). fold (read_log s u).
  rewrite bool_decide_eq_true_2 by done. by apply wp_ret.
Qed.

Lemma collaborative_filtering_needs_five_entries_witness :
  (length (read_log trending_example_store "v") < Settings.min_interactions_for_cf)%nat
  ∧ (_collaborative_filtering "v" 10 (available trending_example_store "" "")).1 = inr [].
Proof.
  assert (length (read_log trending_example_store "v")
          < Settings.min_interactions_for_cf)%nat as H by (vm_compute; lia).
  split; [exact H|].
  apply (collaborative_filtering_needs_five_entries "v" 10 trending_example_store H).
Defined.

(** * The category ranking, the routes and the weights *)

Lemma _get_category_recommendations_available categories limit s now st :
  _get_category_recommendations categories limit (available s now st)
  = (inr (Py.prefix (categories ≫= category_best s limit) limit), available s now st).
Proof.
  unfold _get_category_recommendations. apply try_except_returns. cbv zeta.
  unfold redis.zrevrange.
  rewrite (bind_returns _ _ _ (categories ≫= category_best s limit) (available s now st)).
  { done. }
  rewrite (for_fold_reads _ _ _ (λ acc c, acc ++ category_best s limit c)).
  2: { intros acc c. by rewrite bind_redis_call. }
  f_equal. f_equal.
  cut (∀ acc, foldl (λ acc c, acc ++ category_best s limit c) acc categories
              = acc ++ (categories ≫= category_best s limit)).
  { intros H. apply (H []). }
  induction categories as [|c cs IH]; intros acc; cbn.
  - by rewrite app_nil_r.
  - rewrite IH. by rewrite <- app_assoc.
Qed.

(** X18. [_get_category_recommendations] cuts the concatenation of the
    categories' best products to [limit]: a first category with [limit]
    products or more leaves no room for the others. *)
Theorem category_limit_is_shared categories limit s now st :
  let out := Py.prefix (categories ≫= category_best s limit) limit in
  _get_category_recommendations categories limit (available s now st)
  = (inr out, available s now st)
  ∧ ((0 ≤ limit)%Z → (Z.of_nat (length out) ≤ limit)%Z)
  ∧ (∀ c cs, categories = c :: cs →
             (limit ≤ Z.of_nat (length (category_best s limit c)))%Z → (0 ≤ limit)%Z →
             out = Py.prefix (category_best s limit c) limit)
  ∧ (∀ r, r ∈ out → RecommendedProduct.reason r = "Popular in category"
                    ∧ ∃ c, c ∈ categories
                           ∧ zset_at (category_popular_key c) s
                               !! RecommendedProduct.product_id r
                             = Some (RecommendedProduct.score r)).
Proof.
  intros out. split_and!.
  - apply _get_category_recommendations_available.
  - apply prefix_length.
  - intros c cs -> Hlen Hl. subst out. cbn [mbind list_bind].
    unfold Py.prefix. rewrite (proj2 (Z.ltb_ge limit 0)) by done.
    rewrite take_app_le by lia. done.
  - intros r Hr. apply prefix_subseteq in Hr.
    apply list_elem_of_bind in Hr as (c & Hr & Hc).
    apply list_elem_of_fmap in Hr as ([p x] & -> & Hin).
    apply range_subseteq, elem_of_zrev_all in Hin. eauto.
Qed.

(** X19. Every popularity score and every co-occurrence strength the system
    can reach is at least 1, and so is every trending score computed. *)
Theorem recorded_scores_are_at_least_one s :
  reachable s →
  (∀ p x, popularity s !! p = Some x → 1 ≤ x)
  ∧ (∀ a b x, (b, x) ∈ co_occurrents s a → 1 ≤ x)
  ∧ (∀ limit now st out w',
       cache_trending s = None →
       get_trending_products limit (available s now st) = (inr out, w') →
       ∀ r, r ∈ out → 1 ≤ RecommendedProduct.score r).
Proof.
  intros Hs. apply reachable_positive in Hs as [Hpop Hco]. split_and!.
  - exact Hpop.
  - intros a b x Hin. apply elem_of_co_occurrents in Hin. by eapply Hco.
  - intros limit now st out w' Hmiss Hrun r Hr.
    rewrite (get_trending_products_miss limit s now st Hmiss) in Hrun.
    injection Hrun as <- _.
    apply list_elem_of_fmap in Hr as ([p x] & -> & Hin).
    apply range_subseteq, elem_of_popularity_ranking in Hin. cbn. by eapply Hpop.
Qed.

Lemma recorded_scores_are_at_least_one_witness :
  reachable trending_example_store
  ∧ popularity trending_example_store !! "P2" = Some (Qc_of_Z 5)
  ∧ 1 ≤ Qc_of_Z 5.
Proof.
  assert (reachable trending_example_store) as Hreach.
  { apply reachable_replay. constructor. }
  assert (popularity trending_example_store !! "P2" = Some (Qc_of_Z 5)) as Hp
    by compute_done.
  split_and!; [done..|].
  exact (proj1 (recorded_scores_are_at_least_one trending_example_store Hreach)
           "P2" (Qc_of_Z 5) Hp).
Defined.

Lemma Query_accepts default_value ge le given w :
  (ge ≤ default default_value given ∧ default default_value given ≤ le)%Z →
  Query default_value ge le given w = (inr (default default_value given), w).
Proof. intros H. unfold Query. by rewrite bool_decide_eq_true_2. Qed.

Lemma Query_rejects default_value ge le given w :
  ¬ (ge ≤ default default_value given ∧ default default_value given ≤ le)%Z →
  Query default_value ge le given w = (inl ValidationError, w).
Proof. intros H. unfold Query. by rewrite bool_decide_eq_false_2. Qed.

Lemma route_answers (query : Z → M (list RecommendedProduct.t))
    default_value ge le given strategy user_id w :
  (1 ≤ ge)%Z →
  (∀ limit, (1 ≤ limit)%Z → always_returns (query limit) (within limit)) →
  let route :=
    (limit <- Query default_value ge le given ;;
     recommendations <- query limit ;;
     ret (RecommendationResponse.mk user_id recommendations strategy
            (Z.of_nat (length recommendations)))) in
  let limit := default default_value given in
  if bool_decide (ge ≤ limit ∧ limit ≤ le)%Z
  then ∃ response w', route w = (inr response, w')
                      ∧ answer_within limit strategy user_id response
  else route w = (inl ValidationError, w).
Proof.
  intros Hge Hquery route limit. subst route. case_bool_decide as Hl.
  - rewrite (bind_returns _ _ _ _ _ (Query_accepts _ _ _ _ w Hl)).
    destruct (Hquery limit ltac:(lia) w) as (out & w' & Hrun & Hout).
    rewrite (bind_returns _ _ _ _ _ Hrun).
    eexists _, w'. split; [done|]. by split_and!.
  - unfold bind. by rewrite (Query_rejects _ _ _ _ w Hl).
Qed.

(** X20. Every query route rejects a limit outside its bounds without a call
    to the store, and otherwise answers, whichever call fails, with at
    most [limit] items and their count as [total]. *)
Theorem routes_answer_within_limit w :
  (∀ u limit ex,
     let n := default 10%Z limit in
     if bool_decide (1 ≤ n ∧ n ≤ 50)%Z
     then ∃ response w',
            router.get_personalized_recommendations u limit ex w = (inr response, w')
            ∧ answer_within n "personalized" (Some u) response
     else router.get_personalized_recommendations u limit ex w = (inl ValidationError, w))
  ∧ (∀ p limit,
       let n := default 10%Z limit in
       if bool_decide (1 ≤ n ∧ n ≤ 50)%Z
       then ∃ response w',
              router.get_similar_products p limit w = (inr response, w')
              ∧ answer_within n "similar" None response
       else router.get_similar_products p limit w = (inl ValidationError, w))
  ∧ (∀ limit,
       let n := default 10%Z limit in
       if bool_decide (1 ≤ n ∧ n ≤ 50)%Z
       then ∃ response w',
              router.get_trending_products limit w = (inr response, w')
              ∧ answer_within n "trending" None response
       else router.get_trending_products limit w = (inl ValidationError, w))
  ∧ (∀ u limit,
       let n := default 10%Z limit in
       if bool_decide (1 ≤ n ∧ n ≤ 50)%Z
       then ∃ response w',
              router.get_recently_viewed u limit w = (inr response, w')
              ∧ answer_within n "recently_viewed" (Some u) response
       else router.get_recently_viewed u limit w = (inl ValidationError, w))
  ∧ (∀ ps limit,
       let n := default 5%Z limit in
       if bool_decide (1 ≤ n ∧ n ≤ 20)%Z
       then ∃ response w',
              router.get_frequently_bought_together ps limit w = (inr response, w')
              ∧ answer_within n "frequently_bought_together" None response
       else router.get_frequently_bought_together ps limit w = (inl ValidationError, w)).
Proof.
  split_and!.
  - intros u limit ex.
    apply (route_answers
             (λ n, get_personalized_recommendations u n (default true ex))
             10 1 50 limit "personalized" (Some u) w); [done|].
    intros n Hn. by apply get_personalized_recommendations_within.
  - intros p limit.
    apply (route_answers (get_similar_products p) 10 1 50 limit "similar" None w); [done|].
    intros n Hn. apply get_similar_products_within. lia.
  - intros limit.
    apply (route_answers get_trending_products 10 1 50 limit "trending" None w); [done|].
    intros n Hn. by apply get_trending_products_within.
  - intros u limit.
    apply (route_answers (get_recently_viewed u) 10 1 50 limit "recently_viewed"
             (Some u) w); [done|].
    intros n Hn. by apply get_recently_viewed_within.
  - intros ps limit.
    apply (route_answers (get_frequently_bought_together ps) 5 1 20 limit
             "frequently_bought_together" None w); [done|].
    intros n Hn. apply get_frequently_bought_together_within. lia.
Qed.

(** X21. A call of [track_interaction] that fails between the two increments
    of an edge leaves the edge counted in one direction only. *)
Theorem failed_tracking_breaks_symmetry i o others s fs now st :
  let u := UserInteraction.user_id i in
  let p := UserInteraction.product_id i in
  InteractionData.product_id
    <$> filter (λ e, InteractionData.product_id e ≠ p) (take 19 (interaction_log s u))
  = o :: others →
  let w := mkWorld s (false :: false :: false :: false :: false :: false :: true :: fs)
             now st in
  let s' := store (track_interaction i w).2 in
  (track_interaction i w).1 = inr false
  ∧ strength s' p o = Some (default 0 (strength s p o) + 1)
  ∧ strength s' o p = strength s o p
  ∧ (symmetric s → strength s' p o ≠ strength s' o p).
Proof.
  intros u p Hothers w s'.
  assert (Hop : o ≠ p).
  { assert (o ∈ o :: others) as Hin by (apply elem_of_cons; by left).
    rewrite <- Hothers in Hin. apply list_elem_of_fmap in Hin as (e & -> & Hin).
    by apply list_elem_of_filter in Hin as [? _]. }
  assert (Hrun : track_interaction i w
                 = (inr false,
                    mkWorld
                      (zset_put (co_occurrence_key p)
                         (<[o := default 0 (strength s p o) + 1]>
                            (zset_at (co_occurrence_key p) s))
                         (set_popularity (bump i s)
                            (set_interactions
                               (<[u := take 1000 (log_entry i :: interaction_log s u)]>
                                  (interactions s)) s)))
                      fs now st)).
  { subst w. unfold track_interaction, try_except, track_interaction_body. cbv zeta.
    unfold redis.lpush, redis.ltrim, redis.expire, redis.zincrby,
      _update_co_occurrence, _get_user_interactions, redis.lrange.
    rewrite bind_redis_call_answered. cbn [fst snd].
    rewrite bind_redis_call_answered. cbn [fst snd].
    rewrite bind_redis_call_answered. cbn [fst snd].
    rewrite bind_redis_call_answered. cbn [fst snd].
    rewrite !bind_assoc, bind_redis_call_answered. cbn [fst snd]. rewrite bind_ret.
    fold u p.
    match goal with
    | |- context [for_each ?l _] =>
        assert (l = o :: others) as ->
    end.
    { rewrite <- Hothers. cbn [interactions set_interactions set_popularity zset_put].
      rewrite !lookup_insert_eq. cbn [default from_option id].
      rewrite !range_from_zero by lia.
      change (Z.to_nat (999 + 1)) with 1000%nat. change (Z.to_nat (99 + 1)) with 100%nat.
      rewrite take_take. change (100 `min` 1000)%nat with 100%nat.
      unfold Py.prefix. change (20 <? 0)%Z with false. cbv iota.
      change (Z.to_nat 20) with 20%nat. rewrite take_take.
      change (20 `min` 100)%nat with 20%nat. fold (interaction_log s u).
      change (take 20 (?e :: ?l)) with (e :: take 19 l).
      rewrite filter_cons. rewrite decide_False; [done|]. cbn. by intros H; apply H. }
    cbn [for_each]. unfold redis.zincrby, redis.expire.
    rewrite !bind_assoc, bind_redis_call_answered. cbn [fst snd].
    rewrite !bind_assoc, bind_redis_call_failed.
    f_equal. f_equal.
    cbn [interactions set_interactions set_popularity zset_put zset_at co_occurrence
         popularity].
    rewrite !lookup_insert_eq, insert_insert_eq. cbn [default from_option id].
    rewrite range_from_zero by lia. done. }
  subst s'. rewrite Hrun. cbn [fst snd store].
  set (s4 := set_popularity (bump i s) (set_interactions _ s)).
  change (zset_at (co_occurrence_key p) s) with (zset_at (co_occurrence_key p) s4).
  assert (H4 : ∀ a b, strength s4 a b = strength s a b) by done.
  split_and!; [done| | |].
  - rewrite strength_zincrby. by rewrite bool_decide_eq_true_2.
  - rewrite strength_zincrby. rewrite bool_decide_eq_false_2; [done|]. by intros [? ?].
  - intros Hsym. rewrite !strength_zincrby.
    rewrite bool_decide_eq_true_2 by done.
    rewrite bool_decide_eq_false_2 by (by intros [? ?]).
    rewrite H4, <- (Hsym p o).
    destruct (strength s p o) as [x|]; cbn; [|done].
    intros [= Heq]. apply (f_equal (λ q, q - x)) in Heq. ring_simplify in Heq. done.
Qed.

Lemma failed_tracking_breaks_symmetry_witness :
  let s := replay [Track (view "u" "A")] empty_store in
  let w := mkWorld s [false; false; false; false; false; false; true] "" "" in
  (InteractionData.product_id
     <$> filter (λ e, InteractionData.product_id e ≠ "B") (take 19 (interaction_log s "u")))
  = ["A"]
  ∧ symmetric s
  ∧ (track_interaction (view "u" "B") w).1 = inr false
  ∧ strength (store (track_interaction (view "u" "B") w).2) "B" "A" = Some 1
  ∧ strength (store (track_interaction (view "u" "B") w).2) "A" "B" = None.
Proof.
  intros s w.
  assert ((InteractionData.product_id
             <$> filter (λ e, InteractionData.product_id e ≠ "B")
                   (take 19 (interaction_log s "u"))) = ["A"]) as Hothers
    by compute_done.
  destruct (failed_tracking_breaks_symmetry (view "u" "B") "A" [] s [] "" "" Hothers)
    as (Hfalse & _ & _ & _).
  split_and!; [done| |exact Hfalse|compute_done..].
  intros a b. unfold strength, s. by cbn.
Defined.

Lemma prefix_prefix {A} (l : list A) n m :
  (0 ≤ n)%Z → (0 ≤ m)%Z → Py.prefix (Py.prefix l n) m = Py.prefix l (Z.min n m).
Proof.
  intros Hn Hm. unfold Py.prefix.
  rewrite (proj2 (Z.ltb_ge n 0)), (proj2 (Z.ltb_ge m 0)),
    (proj2 (Z.ltb_ge (Z.min n m) 0)) by lia.
  rewrite take_take. f_equal. lia.
Qed.

(** X22. A popularity rank is the weighted count of the interactions
    recorded for the product. *)
Theorem popularity_is_the_weighted_count p calls s s' :
  recorded s calls s' →
  popularity_rank s' p = popularity_rank s p + weight_recorded p calls
  ∧ popularity_rank s p ≤ popularity_rank s' p
  ∧ (weight_of VIEW, weight_of WISHLIST, weight_of ADD_TO_CART, weight_of REVIEW,
     weight_of PURCHASE)
    = (1, Qc_of_Z 2, Qc_of_Z 3, Qc_of_Z 4, Qc_of_Z 5).
Proof.
  intros Hrec.
  assert (Hnonneg : ∀ l, 0 ≤ weight_recorded p l).
  { intros l. unfold weight_recorded.
    induction (filter _ l) as [|i l' IH]; [done|]. cbn.
    rewrite <- (Qcplus_0_l 0). apply Qcplus_le_compat; [|done].
    apply Qclt_le_weak, weight_of_pos. }
  assert (Heq : popularity_rank s' p = popularity_rank s p + weight_recorded p calls).
  { induction Hrec as [s|i calls w w' s'' Htrack _ IH].
    - unfold weight_recorded. rewrite filter_nil. cbn. ring.
    - rewrite IH.
      destruct (track_interaction_popularity i w) as [Hb _].
      rewrite Htrack in Hb. cbn in Hb. specialize (Hb eq_refl).
      rewrite (bump_rank _ _ _ p Hb).
      unfold weight_recorded. rewrite filter_cons. case_bool_decide as Hp.
      + rewrite decide_True by done. cbn. ring.
      + rewrite decide_False by done. ring. }
  split_and!; [exact Heq| |done].
  rewrite Heq. rewrite <- (Qcplus_0_r (popularity_rank s p)) at 1.
  by apply Qcplus_le_mono_l.
Qed.

Lemma popularity_is_the_weighted_count_witness :
  let calls := [view "u" "P"; purchase "v" "P"; view "v" "Q"] in
  let s' := replay (Track <$> calls) empty_store in
  recorded empty_store calls s'
  ∧ popularity_rank s' "P" = popularity_rank empty_store "P" + weight_recorded "P" calls
  ∧ weight_recorded "P" calls = Qc_of_Z 6.
Proof.
  intros calls s'. split_and!; [apply recorded_replay| |compute_done].
  exact (proj1 (popularity_is_the_weighted_count "P" calls empty_store s'
                  (recorded_replay calls empty_store))).
Defined.

(** X23. An answer computed on a cache miss is what later calls get, cut to
    their own limit. For limits that are not negative a later call so
    never gets more items than the call that filled the cache asked for,
    but for the trending products asked for with limit 0: that call
    caches the whole ranking. *)
Theorem cached_answers_cap_later_limits s now st :
  (∀ limit limit',
     cache_trending s = None →
     let first := get_trending_products limit (available s now st) in
     ∃ out, first.1 = inr out
            ∧ get_trending_products limit' first.2 = (inr (Py.prefix out limit'), first.2)
            ∧ ((1 ≤ limit)%Z → (0 ≤ limit')%Z →
               (Z.of_nat (length (Py.prefix out limit')) ≤ Z.min limit limit')%Z)
            ∧ (limit = 0%Z → out = trending_item <$> popularity_ranking s))
  ∧ (∀ p limit limit',
       cache_similar s !! p = None →
       let first := get_similar_products p limit (available s now st) in
       ∃ out, first.1 = inr out
              ∧ get_similar_products p limit' first.2
                = (inr (Py.prefix out limit'), first.2)
              ∧ ((0 ≤ limit)%Z → (0 ≤ limit')%Z →
                 (Z.of_nat (length (Py.prefix out limit')) ≤ Z.min limit limit')%Z))
  ∧ (∀ u limit limit' (ex ex' : bool),
       cache_personalized s !! u = None → read_log s u ≠ [] →
       let first := get_personalized_recommendations u limit ex (available s now st) in
       ∃ out, first.1 = inr out
              ∧ get_personalized_recommendations u limit' ex' first.2
                = (inr (Py.prefix out limit'), first.2)
              ∧ ((0 ≤ limit)%Z → (0 ≤ limit')%Z →
                 (Z.of_nat (length (Py.prefix out limit')) ≤ Z.min limit limit')%Z)).
Proof.
  split_and!.
  - intros limit limit' Hmiss first. subst first.
    rewrite (get_trending_products_miss limit s now st Hmiss). cbn [fst snd].
    eexists. split; [done|]. split_and!.
    + by apply get_trending_products_hit.
    + intros Hl Hl'.
      pose proof (within_range limit (popularity_ranking s) trending_item Hl) as Hout.
      pose proof (prefix_length (trending_item <$> Redis.range (popularity_ranking s) 0
                                   (limit - 1)) limit' Hl') as Hcut.
      destruct (prefix_take (trending_item <$> Redis.range (popularity_ranking s) 0
                               (limit - 1)) limit') as [k Hk].
      unfold within in Hout. rewrite Hk in *. rewrite length_take in *. lia.
    + intros ->. by rewrite range_all.
  - intros p limit limit' Hmiss first. subst first.
    rewrite (get_similar_products_miss p limit s now st Hmiss). cbn [fst snd].
    eexists. split; [done|]. split.
    + unfold get_similar_products. apply try_except_returns.
      unfold redis.get. rewrite bind_redis_call. cbn [fst snd cache_at cache_put
        cache_similar set_cache_similar]. by rewrite lookup_insert_eq.
    + intros Hl Hl'. rewrite prefix_prefix by done. apply prefix_length. lia.
  - intros u limit limit' ex ex' Hmiss Hlog first. subst first.
    rewrite (get_personalized_recommendations_miss u limit ex s now st Hmiss Hlog).
    cbn [fst snd]. eexists. split; [done|]. split.
    + apply get_personalized_recommendations_hit. cbn. by rewrite lookup_insert_eq.
    + intros Hl Hl'. rewrite prefix_prefix by done. apply prefix_length. lia.
Qed.

